(** * ts-node-api-spec-helper: OpenAPI path-stub generator and reference updater

  A shallow embedding of [src/api-docs-generator.ts] and
  [src/api-docs-update.ts], followed by the properties of the
  specification that are settled against it.

  Conventions of the embedding.
  - A JavaScript string is a [string]: a sequence of code units, here the
    code units below 256 (Latin-1).  [trim] and [toLowerCase] are given on
    that range.
  - A JavaScript object is the ordered list of its own enumerable
    properties, in creation order; keys that are canonical array indices
    (which an engine enumerates first) are outside the model.  The one
    read the program makes with a key it does not know to be an own one,
    [apiDocs.paths[apiPath]], goes through the prototype chain: the names
    of [Object.prototype] are found there ([Value.lookup]).  A write that
    lands on a prototype (through [__proto__]) changes what later
    [for ... in] loops enumerate, in a way ECMAScript leaves to the
    engine: the run up to that write is modelled, what follows it is not,
    and the properties that depend on it say so in a hypothesis.
  - [js-yaml] and Node's [fs] are collaborators: the YAML codec is a pair
    of section variables, the file system is an explicit world. *)

From stdpp Require Import gmap strings list.
From Stdlib Require Import Ascii String List Bool Arith Lia.
Import ListNotations.

Local Open Scope string_scope.

(** [simpl] may unfold string concatenation on a constructor. *)
#[global] Arguments String.append !s1 s2 / : simpl nomatch.

(** ** JavaScript string primitives *)

Module JS.

(** The line feed, written ["\n"] in the sources. *)
Definition LF : ascii := ascii_of_nat 10.
Definition nl : string := String LF "".

(** [s.startsWith(p)] *)
Definition startsWith (s p : string) : bool := String.prefix p s.

(** [s.endsWith(p)]: [s] is [p], or the rest of [s] ends with [p]. *)
Fixpoint endsWith (s p : string) : bool :=
  String.eqb s p ||
  match s with
  | "" => false
  | String _ r => endsWith r p
  end.

(** [s.includes(p)] *)
Fixpoint includes (s p : string) : bool :=
  String.prefix p s ||
  match s with
  | "" => false
  | String _ r => includes r p
  end.

(** [s.split(sep)] for a non-empty separator (every call site passes a
    literal or a [{{KEY}}] placeholder).  [skip] counts the code units of
    a separator occurrence still to be stepped over. *)
Fixpoint split_from (sep s : string) (skip : nat) : list string :=
  match s with
  | "" => [""]
  | String c r =>
      match skip with
      | S k => split_from sep r k
      | O =>
          if String.prefix sep s
          then "" :: split_from sep r (String.length sep - 1)
          else match split_from sep r 0 with
               | h :: t => String c h :: t
               | [] => [String c ""]
               end
      end
  end.

Definition split (s sep : string) : list string := split_from sep s 0.

(** [l.join(sep)] *)
Definition join (l : list string) (sep : string) : string :=
  String.concat sep l.

(** [l[i]] on an array of strings: [None] is [undefined]. *)
Definition at_index (l : list string) (i : nat) : option string := nth_error l i.

(** White space and line terminators of ECMAScript among the code units
    below 256: TAB, LF, VT, FF, CR, SP, NBSP. *)
Definition is_ws (c : ascii) : bool :=
  let n := nat_of_ascii c in
  (((9 <=? n) && (n <=? 13)) || (n =? 32) || (n =? 160))%nat.

Fixpoint trimStart (s : string) : string :=
  match s with
  | "" => ""
  | String c r => if is_ws c then trimStart r else s
  end.

Fixpoint trimEnd (s : string) : string :=
  match s with
  | "" => ""
  | String c r =>
      match trimEnd r with
      | "" => if is_ws c then "" else String c ""
      | r' => String c r'
      end
  end.

Definition trim (s : string) : string := trimStart (trimEnd s).

(** Truthiness of a string: non-empty. *)
Definition truthy (s : string) : bool := negb (String.eqb s "").

Definition map_chars (f : ascii -> ascii) : string -> string :=
  fix go s := match s with
              | "" => ""
              | String c r => String (f c) (go r)
              end.

(** [toLowerCase] on one code unit below 256: A-Z, and the Latin-1
    capitals 192..222 except the multiplication sign 215. *)
Definition lower_char (c : ascii) : ascii :=
  let n := nat_of_ascii c in
  if (((65 <=? n) && (n <=? 90)) ||
      ((192 <=? n) && (n <=? 222) && negb (n =? 215)))%nat
  then ascii_of_nat (n + 32) else c.

Definition toLowerCase : string -> string := map_chars lower_char.

(** [toUpperCase] on the letters a-z (its only use is on a validated
    HTTP method token). *)
Definition upper_char (c : ascii) : ascii :=
  let n := nat_of_ascii c in
  if ((97 <=? n) && (n <=? 122))%nat then ascii_of_nat (n - 32) else c.

Definition toUpperCase : string -> string := map_chars upper_char.

(** [s.replace(/[...]/g, by)] for a class of single code units. *)
Fixpoint replace_class (cls : ascii -> bool) (by_ : string) (s : string) : string :=
  match s with
  | "" => ""
  | String c r =>
      if cls c then by_ +:+ replace_class cls by_ r
      else String c (replace_class cls by_ r)
  end.

Definition is_char (a : ascii) (c : ascii) : bool := Ascii.eqb c a.
Definition is_brace (c : ascii) : bool := Ascii.eqb c "{" || Ascii.eqb c "}".

End JS.

(** ** [api-docs-generator.ts] *)

Module Generator.
Import JS.

Definition path_block (param : string) : string :=
  "        - in: path" +:+ nl +:+
  "          name: " +:+ param +:+ nl +:+
  "          required: true" +:+ nl +:+
  "          type: string" +:+ nl.

Definition query_block (param : string) : string :=
  "        - in: query" +:+ nl +:+
  "          name: " +:+ param +:+ nl +:+
  "          type: string" +:+ nl.

(** One [for (const param of params) if (param.trim()) yaml += block] loop. *)
Fixpoint append_blocks (block : string -> string) (params : list string)
         (yaml : string) : string :=
  match params with
  | [] => yaml
  | param :: rest =>
      append_blocks block rest
        (if truthy (trim param) then yaml +:+ block param else yaml)
  end.

Definition generateParametersYaml (pathParams queryParams : list string) : string :=
  let yaml := "" in
  let yaml := append_blocks path_block pathParams yaml in
  let yaml := append_blocks query_block queryParams yaml in
  yaml.

(** [pathStr.match(/{[^}]*}/g) || []]: the global match scans left to
    right.  Outside a match ([open = None]) a ["{"] opens a candidate;
    inside one ([open = Some body], [body] the code units after the
    brace) the first ["}"] closes it and every other code unit, a further
    ["{"] included, belongs to the body.  A candidate still open at the end of the
    string is no match, and no later start matches either since no ["}"]
    is left. *)
Fixpoint match_braces (s : string) (open : option string) : list string :=
  match s with
  | "" => []
  | String c r =>
      match open with
      | None =>
          if Ascii.eqb c "{" then match_braces r (Some "") else match_braces r None
      | Some body =>
          if Ascii.eqb c "}"
          then ("{" +:+ body +:+ "}") :: match_braces r None
          else match_braces r (Some (body +:+ String c ""))
      end
  end.

Definition extractPathParams (pathStr : string) : list string :=
  let matches := match_braces pathStr None in
  map (fun m => replace_class is_brace "" m) matches.

Definition extractQueryParams (pathStr : string) : list string :=
  if negb (includes pathStr "?") then []
  else
    match at_index (split pathStr "?") 1 with
    | Some queryStr =>
        map (fun q => default "" (at_index (split q "=") 0)) (split queryStr "&")
    | None => []   (* unreachable: a string with a "?" splits in two or more *)
    end.

Definition generateOpPath (pathStr : string) : string :=
  replace_class is_brace ""
    (join (List.filter truthy
             (split (default "" (at_index (split pathStr "?") 0)) "/")) "-").

(** [for (const [key, value] of Object.entries(variables))
      result = result.split(`{{${key}}}`).join(value)] *)
Fixpoint replaceTemplateVars (template : string)
         (variables : list (string * string)) : string :=
  match variables with
  | [] => template
  | (key, value) :: rest =>
      let placeholder := "{{" +:+ key +:+ "}}" in
      replaceTemplateVars (join (split template placeholder) value) rest
  end.

(** What [main] has in hand once the prompts are answered and the files
    read. *)
Record answers := {
  methodLower : string;   (* validateMethod(method) *)
  rawPath : string;       (* first answer to the path prompt *)
  pathOnly : string;      (* validatePath(rawPath) *)
  title : string;
  domain : string;
  author : string;
  apiVersion : string;    (* extractApiVersion(apiSpecPath), truthy *)
  template : string       (* loadTemplate(templatePath) *)
}.

Definition emptyArrayMarker : string := "        []" +:+ nl.

Definition finalParamsYaml (pathParams queryParams : list string) : string :=
  let paramsYaml := generateParametersYaml pathParams queryParams in
  if truthy (trim paramsYaml) then paramsYaml else emptyArrayMarker.

Definition variables (a : answers) : list (string * string) :=
  let methodUpper := toUpperCase (methodLower a) in
  let pathParams := extractPathParams (pathOnly a) in
  let queryParams := extractQueryParams (rawPath a) in
  let opPath := generateOpPath (pathOnly a) in
  [ ("PATH", default "" (at_index (split (pathOnly a) "?") 0));
    ("METHOD_LOWER", methodLower a);
    ("METHOD_UPPER", methodUpper);
    ("OP_PATH", opPath);
    ("TITLE", title a);
    ("TAG", domain a);
    ("API_VERSION", apiVersion a);
    ("AUTHOR", "[" +:+ author a +:+ "](https://github.com/" +:+ author a +:+ ")");
    ("PARAMETERS", trimEnd (finalParamsYaml pathParams queryParams)) ].

(** The text [main] hands to [fs.writeFileSync(outputFile, output)]. *)
Definition main_output (a : answers) : string :=
  let output := replaceTemplateVars (template a) (variables a) in
  if negb (endsWith output nl) then output +:+ nl else output.

End Generator.


(** ** Node's [path] module, POSIX flavour

    The program calls [path.join], [path.dirname], [path.resolve] and
    [path.relative].  They are library code; the definitions below follow
    Node's documented algorithms on the list of segments of a path. *)

Module PosixPath.
Import JS.

Definition isAbsolute (p : string) : bool := startsWith p "/".

(** The non-empty pieces between slashes. *)
Definition segments (p : string) : list string :=
  List.filter truthy (split p "/").

(** Node's [normalizeString]: ["."] is dropped, [".."] removes the segment
    before it, and is kept only where nothing is left to remove and the
    path is relative.  [stack] holds the segments kept so far, last first. *)
Fixpoint normalizeSegments (allowAboveRoot : bool) (segs stack : list string)
  : list string :=
  match segs with
  | [] => rev stack
  | seg :: rest =>
      if String.eqb seg "." then normalizeSegments allowAboveRoot rest stack
      else if String.eqb seg ".." then
        match stack with
        | top :: below =>
            if String.eqb top ".."
            then normalizeSegments allowAboveRoot rest
                   (if allowAboveRoot then ".." :: stack else stack)
            else normalizeSegments allowAboveRoot rest below
        | [] =>
            normalizeSegments allowAboveRoot rest
              (if allowAboveRoot then [".."] else [])
        end
      else normalizeSegments allowAboveRoot rest (seg :: stack)
  end.

Definition normalize (p : string) : string :=
  if String.eqb p "" then "."
  else
    let abs := isAbsolute p in
    let trailing := endsWith p "/" in
    let path := join (normalizeSegments (negb abs) (segments p) []) "/" in
    if String.eqb path ""
    then (if abs then "/" else if trailing then "./" else ".")
    else (if abs then "/" else "") +:+ path +:+ (if trailing then "/" else "").

(** [path.join(...parts)] *)
Definition join (parts : list string) : string :=
  match List.filter truthy parts with
  | [] => "."
  | nonempty => normalize (JS.join nonempty "/")
  end.

Definition is_slash (c : ascii) : bool := Ascii.eqb c "/".

Fixpoint allSlashes (s : string) : bool :=
  match s with
  | "" => true
  | String c r => is_slash c && allSlashes r
  end.

(** The cut point of [path.dirname]: the last slash, at index 1 or later,
    that has a code unit other than a slash somewhere after it. *)
Fixpoint dirnameEnd (s : string) (i : nat) : option nat :=
  match s with
  | "" => None
  | String c r =>
      match dirnameEnd r (S i) with
      | Some e => Some e
      | None =>
          if is_slash c && (1 <=? i)%nat && negb (allSlashes r)
          then Some i else None
      end
  end.

Definition dirname (p : string) : string :=
  if String.eqb p "" then "."
  else
    let hasRoot := isAbsolute p in
    match dirnameEnd p 0 with
    | None => if hasRoot then "/" else "."
    | Some e => if hasRoot && (e =? 1)%nat then "//" else String.substring 0 e p
    end.

(** [path.resolve(p)] in a process whose working directory is [cwd]. *)
Definition resolve (cwd p : string) : string :=
  let full :=
    if String.eqb p "" then cwd
    else if isAbsolute p then p
    else cwd +:+ "/" +:+ p in
  let abs := isAbsolute full in
  let path := JS.join (normalizeSegments (negb abs) (segments full) []) "/" in
  if abs then "/" +:+ path
  else if String.eqb path "" then "." else path.

Fixpoint dropCommon (a b : list string) : list string * list string :=
  match a, b with
  | x :: a', y :: b' => if String.eqb x y then dropCommon a' b' else (a, b)
  | _, _ => (a, b)
  end.

(** [path.relative(from, to)]: both are resolved, the segments they share
    at the front are dropped, each segment left of [from] becomes [".."]. *)
Definition relative (cwd from to : string) : string :=
  let from := resolve cwd from in
  let to := resolve cwd to in
  if String.eqb from to then ""
  else
    let '(up, down) := dropCommon (segments from) (segments to) in
    JS.join (map (fun _ => "..") up ++ down) "/".

End PosixPath.

(** ** JavaScript values, as [yaml.load] returns them *)

Module Value.

Inductive objclass := Plain | Array.

(** [VNull] also stands for the [undefined] that [yaml.load] returns on an
    empty document: the program only tests such a result for truthiness.
    An array is an object whose keys are its indices. *)
#[local] Unset Elimination Schemes.
Inductive value :=
| VNull
| VBool (b : bool)
| VNum (n : Z)
| VStr (s : string)
| VObj (cls : objclass) (props : list (string * value)).
#[local] Set Elimination Schemes.

(** The result of a property read: [None] is [undefined]. *)
Definition jsval := option value.

(** [{}] *)
Definition emptyObject : value := VObj Plain [].

Definition truthy (v : jsval) : bool :=
  match v with
  | None | Some VNull => false
  | Some (VBool b) => b
  | Some (VNum n) => negb (n =? 0)%Z
  | Some (VStr s) => JS.truthy s
  | Some (VObj _ _) => true
  end.

(** [typeof v === 'object'] *)
Definition typeofObject (v : jsval) : bool :=
  match v with
  | Some VNull | Some (VObj _ _) => true
  | _ => false
  end.

Section Props.
Context {A : Type}.

Fixpoint propGet (k : string) (ps : list (string * A)) : option A :=
  match ps with
  | [] => None
  | (k', v) :: rest => if String.eqb k' k then Some v else propGet k rest
  end.

(** Assignment keeps the position of an existing key and appends a new one. *)
Fixpoint propSet (k : string) (v : A) (ps : list (string * A)) : list (string * A) :=
  match ps with
  | [] => [(k, v)]
  | (k', v') :: rest =>
      if String.eqb k' k then (k, v) :: rest else (k', v') :: propSet k v rest
  end.

Definition propDelete (k : string) (ps : list (string * A)) : list (string * A) :=
  List.filter (fun kv => negb (String.eqb (fst kv) k)) ps.

End Props.

(** What evaluating an expression does, as far as this program goes:
    a value, or a [TypeError]. *)
Inductive completion (A : Type) :=
| Normal (a : A)
| TypeError.
Arguments Normal {A} a.
Arguments TypeError {A}.

(** The names every value other than [undefined] and [null] inherits from
    [Object.prototype]: its eleven functions and the accessor
    [__proto__]. *)
Definition objectPrototypeNames : list string :=
  ["constructor"; "__defineGetter__"; "__defineSetter__"; "hasOwnProperty";
   "__lookupGetter__"; "__lookupSetter__"; "isPrototypeOf";
   "propertyIsEnumerable"; "toString"; "valueOf"; "__proto__";
   "toLocaleString"].

Definition inherited (k : string) : bool :=
  existsb (String.eqb k) objectPrototypeNames.

(** What [o[k]] finds for a key [k] of any spelling: an own property, a
    property of [Object.prototype] (a function, or for [__proto__] the
    prototype of [o]: an object that is no part of a document), or
    nothing.  The own properties of a primitive, the methods of its own
    prototype ([length], [trim], ...) and those of [Array.prototype] for an
    array are not modelled: the properties of the rebuild are stated for a
    [paths] that is a plain object, as the Clear step leaves it. *)
Inductive property :=
| Own (v : value)
| Inherited
| Absent.

Definition lookup (o : jsval) (k : string) : completion property :=
  match o with
  | None | Some VNull => TypeError
  | Some (VObj _ ps) =>
      Normal (match propGet k ps with
              | Some v => Own v
              | None => if inherited k then Inherited else Absent
              end)
  | Some _ => Normal (if inherited k then Inherited else Absent)
  end.

(** [o[k]] for a key that is an own property of [o] or that no prototype
    has: the constant names the program reads ([paths], [info],
    [version]) and the keys a [for ... in] loop hands out.  Reading a
    property of [undefined] or [null] throws. *)
Definition member (o : jsval) (k : string) : completion jsval :=
  match o with
  | None | Some VNull => TypeError
  | Some (VObj _ ps) => Normal (propGet k ps)
  | Some _ => Normal None
  end.

(** [o[k] = v] in strict-mode code (an ES module): creating a property on a
    primitive throws, as does any assignment on [undefined] or [null]. *)
Definition assign (o : jsval) (k : string) (v : value) : completion value :=
  match o with
  | Some (VObj cls ps) => Normal (VObj cls (propSet k v ps))
  | _ => TypeError
  end.

(** [delete o[k]] *)
Definition deleteProp (o : value) (k : string) : value :=
  match o with
  | VObj cls ps => VObj cls (propDelete k ps)
  | _ => o
  end.

(** The keys a [for (const k in o)] loop visits: the own enumerable keys.
    The functions of [Object.prototype] are not enumerable, so the loop
    visits no inherited key as long as nothing was written onto a
    prototype. *)
Definition forInKeys (o : jsval) : list string :=
  match o with
  | Some (VObj _ ps) => map fst ps
  | _ => []
  end.

End Value.

(** ** The collaborators of [api-docs-update.ts] *)

(** [js-yaml]: [yaml_load] is [None] where [yaml.load] throws a
    [YAMLException]; [yaml_dump] is [yaml.dump] with the options of
    [saveYaml]. *)
Class YamlCodec := {
  yaml_load : string -> option Value.value;
  yaml_dump : Value.value -> string
}.

Module FileSystem.

(** [error.code] of a failed [fs] call, as [walkDir] tells them apart. *)
Inductive fserror := ENOENT | EOTHER.

(** The directory tree, as [readdirSync] and [statSync] show it.
    [RegularFile] is whatever [isDirectory()] is false on. *)
Inductive node :=
| RegularFile
| Directory (l : listing)
| StatFails (e : fserror)
with listing :=
| ReaddirFails (e : fserror)
| Listing (es : entries)
with entries :=
| NoEntry
| Entry (file : string) (n : node) (rest : entries).

Scheme node_tree_ind := Induction for node Sort Prop
  with listing_tree_ind := Induction for listing Sort Prop
  with entries_tree_ind := Induction for entries Sort Prop.
Combined Scheme tree_mutind from node_tree_ind, listing_tree_ind, entries_tree_ind.

(** The world a run sees: the text of the readable files, the paths that
    cannot be written, the tree found at a path, and [process.cwd()]. *)
Record World := {
  files : gmap string string;
  locked : gset string;
  tree : string -> option node;
  cwd : string
}.

(** [readdirSync(p)] on what is at [p]. *)
Definition readdir (n : option node) : listing :=
  match n with
  | None => ReaddirFails ENOENT
  | Some RegularFile => ReaddirFails EOTHER
  | Some (Directory l) => l
  | Some (StatFails e) => ReaddirFails e
  end.

(** [existsSync(p)] *)
Definition existsNode (n : option node) : bool :=
  match n with
  | Some RegularFile | Some (Directory _) => true
  | _ => false
  end.

Definition writeFile (p content : string) (w : World) : World :=
  {| files := <[p := content]> (files w);
     locked := locked w; tree := tree w; cwd := cwd w |}.

End FileSystem.

(** ** [api-docs-update.ts] *)

Module Updater.
Import JS Value FileSystem.

(** What the run writes with [console.error] and [console.warn]. *)
Inductive event :=
| ErrorReadingDirectory                    (* walkDir, line 40 *)
| ErrorReadingYaml (filePath : string)     (* loadYaml, line 76 *)
| ErrorWritingYaml (filePath : string)     (* saveYaml, line 94 *)
| PathsDirectoryNotFound (pathsDir : string)
| NoPathFilesFound
| FatalError.

(** The [catch] of [walkDir]: an error other than [ENOENT] is written to
    the console; either way the call goes on to [return fileList]. *)
Definition walkDirCatch (e : fserror) (st : list string * list event)
  : list string * list event :=
  match e with
  | ENOENT => st
  | EOTHER => (fst st, (snd st ++ [ErrorReadingDirectory])%list)
  end.

(** [walkDir(dirPath, fileList)].  [forEachEntry] is the body of the [try]
    block after [readdirSync] returned: it stops at the first throwing
    [statSync] and hands the error to the [catch] of the enclosing call,
    the nested calls having caught their own. *)
Fixpoint walkDir (dirPath : string) (l : listing)
         (st : list string * list event) : list string * list event :=
  match l with
  | ReaddirFails e => walkDirCatch e st
  | Listing files =>
      match forEachEntry dirPath files st with
      | (st', None) => st'
      | (st', Some e) => walkDirCatch e st'
      end
  end
with forEachEntry (dirPath : string) (files : entries)
       (st : list string * list event)
  : (list string * list event) * option fserror :=
  match files with
  | NoEntry => (st, None)
  | Entry file n rest =>
      let filePath := PosixPath.join [dirPath; file] in
      match n with
      | StatFails e => (st, Some e)
      | Directory sub => forEachEntry dirPath rest (walkDir filePath sub st)
      | RegularFile =>
          forEachEntry dirPath rest
            (if endsWith file ".yaml" || endsWith file ".yml"
             then ((fst st ++ [filePath])%list, snd st)
             else st)
      end
  end.

(** [encodeJsonPointer(str)]: [str.replace(/\//g, '~1')] *)
Definition encodeJsonPointer (str : string) : string :=
  replace_class (is_char "/") "~1" str.

Definition getRelativePath (cwd filePath baseDir : string) : string :=
  let realFilePath := PosixPath.resolve cwd filePath in
  let realBaseDir := PosixPath.resolve cwd baseDir in
  if negb (startsWith realFilePath realBaseDir) then filePath
  else "./" +:+ PosixPath.relative cwd realBaseDir realFilePath.

(** *** The run: a state of world and console, and three ways to go on *)

Record state := { world : World; console : list event }.

Inductive outcome (A : Type) :=
| Returns (a : A) (s : state)
| Exits (code : nat) (s : state)     (* process.exit(code) *)
| Throws (s : state).                (* an exception on its way to a catch *)
Arguments Returns {A} a s.
Arguments Exits {A} code s.
Arguments Throws {A} s.

Definition M (A : Type) : Type := state -> outcome A.

#[export] Instance M_ret : MRet M := fun A a s => Returns a s.

#[export] Instance M_bind : MBind M := fun A B f m s =>
  match m s with
  | Returns a s' => f a s'
  | Exits code s' => Exits code s'
  | Throws s' => Throws s'
  end.

#[export] Instance completion_ret : MRet completion := fun A a => Normal a.

#[export] Instance completion_bind : MBind completion := fun A B f c =>
  match c with
  | Normal a => f a
  | TypeError => TypeError
  end.

Definition consoleWrite (e : event) : M unit := fun s =>
  Returns tt {| world := world s; console := (console s ++ [e])%list |}.

Definition processExit {A : Type} (code : nat) : M A := fun s => Exits code s.

Definition evaluate {A : Type} (c : completion A) : M A := fun s =>
  match c with
  | Normal a => Returns a s
  | TypeError => Throws s
  end.

Section WithCodec.
Context {codec : YamlCodec}.

(** [loadYaml(filePath)]: both [readFileSync] and [yaml.load] sit in the
    [try]; the [catch] reports and returns [{}]. *)
Definition loadYaml (filePath : string) : M value := fun s =>
  match files (world s) !! filePath with
  | Some content =>
      match yaml_load content with
      | Some doc => Returns (if truthy (Some doc) then doc else emptyObject) s
      | None => (consoleWrite (ErrorReadingYaml filePath) ≫= fun _ => mret emptyObject) s
      end
  | None => (consoleWrite (ErrorReadingYaml filePath) ≫= fun _ => mret emptyObject) s
  end.

(** [saveYaml(filePath, data)] *)
Definition saveYaml (filePath : string) (data : value) : M bool := fun s =>
  let content := yaml_dump data in
  if decide (filePath ∈ locked (world s))
  then (consoleWrite (ErrorWritingYaml filePath) ≫= fun _ => mret false) s
  else Returns true {| world := writeFile filePath content (world s);
                       console := console s |}.

Definition validMethods : list string :=
  ["get"; "post"; "put"; "patch"; "delete"; "head"; "options"; "trace"; "connect"].

(** [arr.includes(x)] on an array of strings. *)
Definition arrayIncludes (arr : list string) (x : string) : bool :=
  existsb (String.eqb x) arr.

(** [{ $ref: ref }] *)
Definition refObject (ref : string) : value := VObj Plain [("$ref", VStr ref)].

(** The body of [for (const method in pathObj)], lines 180 to 211.  The
    objects reached from [apiDocs] are shared and updated in place; here
    each update is stored back into its owner.  Where
    [apiDocs.paths[apiPath]] is inherited it is truthy, so line 202 creates
    nothing, and line 207 makes the reference a property of that inherited
    object: the document stays as it is and the count grows. *)
Definition visitMethod (cwd filePath baseDir apiPath method : string)
           (st : value * nat) : completion (value * nat) :=
  let '(apiDocs, totalRefs) := st in
  if startsWith method "x-" || startsWith method "$" then Normal st
  else if negb (arrayIncludes validMethods (toLowerCase method)) then Normal st
  else
    let encodedPath := encodeJsonPointer apiPath in
    let relPath := getRelativePath cwd filePath baseDir in
    let ref := relPath +:+ "#/paths/" +:+ encodedPath +:+ "/" +:+ method in
    paths ← member (Some apiDocs) "paths";
    found ← lookup paths apiPath;
    match found with
    | Inherited => Normal (apiDocs, S totalRefs)
    | Own _ | Absent =>
        entry ← member paths apiPath;
        paths ← (if negb (truthy entry)
                 then paths ← assign paths apiPath emptyObject; Normal (Some paths)
                 else Normal paths);
        entry ← member paths apiPath;
        entry ← assign entry method (refObject ref);
        paths ← assign paths apiPath entry;
        apiDocs ← assign (Some apiDocs) "paths" paths;
        Normal (apiDocs, S totalRefs)
    end.

Fixpoint forEachMethod (cwd filePath baseDir apiPath : string)
         (methods : list string) (st : value * nat) : completion (value * nat) :=
  match methods with
  | [] => Normal st
  | method :: rest =>
      st ← visitMethod cwd filePath baseDir apiPath method st;
      forEachMethod cwd filePath baseDir apiPath rest st
  end.

(** The body of [for (const apiPath in pathFile.paths)]. *)
Definition visitApiPath (cwd filePath baseDir : string) (filePaths : jsval)
           (apiPath : string) (st : value * nat) : completion (value * nat) :=
  pathObj ← member filePaths apiPath;
  if negb (truthy pathObj) || negb (typeofObject pathObj) then Normal st
  else forEachMethod cwd filePath baseDir apiPath (forInKeys pathObj) st.

Fixpoint forEachApiPath (cwd filePath baseDir : string) (filePaths : jsval)
         (apiPaths : list string) (st : value * nat) : completion (value * nat) :=
  match apiPaths with
  | [] => Normal st
  | apiPath :: rest =>
      st ← visitApiPath cwd filePath baseDir filePaths apiPath st;
      forEachApiPath cwd filePath baseDir filePaths rest st
  end.

(** The body of [for (const filePath of pathFiles)]. *)
Definition visitFile (baseDir filePath : string) (st : value * nat)
  : M (value * nat) :=
  pathFile ← loadYaml filePath;
  filePaths ← evaluate (member (Some pathFile) "paths");
  if negb (truthy filePaths) || negb (typeofObject filePaths) then mret st
  else fun s =>
    evaluate (forEachApiPath (cwd (world s)) filePath baseDir filePaths
                (forInKeys filePaths) st) s.

Fixpoint forEachFile (baseDir : string) (pathFiles : list string)
         (st : value * nat) : M (value * nat) :=
  match pathFiles with
  | [] => mret st
  | filePath :: rest =>
      st ← visitFile baseDir filePath st;
      forEachFile baseDir rest st
  end.

(** The [try] block of [main], from the point where the existence loop has
    settled on [apiDocsPath]. *)
Definition mainTry (apiDocsPath : string) : M unit :=
  let pathsDir := PosixPath.join [PosixPath.dirname apiDocsPath; "paths"] in
  (* Step 1: clear existing paths *)
  apiDocs ← loadYaml apiDocsPath;
  paths ← evaluate (member (Some apiDocs) "paths");
  let apiDocs := if truthy paths then deleteProp apiDocs "paths" else apiDocs in
  apiDocs ← evaluate (assign (Some apiDocs) "paths" emptyObject);
  saved ← saveYaml apiDocsPath apiDocs;
  if negb saved then processExit 1
  else
    (* Step 2: walk all path files *)
    fun s =>
    if negb (existsNode (tree (world s) pathsDir))
    then (consoleWrite (PathsDirectoryNotFound pathsDir) ≫= fun _ => processExit 1) s
    else
      let '(pathFiles, errors) :=
        walkDir pathsDir (readdir (tree (world s) pathsDir)) ([], []) in
      let s := {| world := world s; console := (console s ++ errors)%list |} in
      if (length pathFiles =? 0)%nat
      then consoleWrite NoPathFilesFound s
      else
        (apiDocs ← loadYaml apiDocsPath;
         let totalRefs := 0 in
         let baseDir := PosixPath.dirname apiDocsPath in
         '(apiDocs, totalRefs) ← forEachFile baseDir pathFiles (apiDocs, totalRefs);
         saved ← saveYaml apiDocsPath apiDocs;
         if negb saved then processExit 1 else mret tt) s.

(** [main]: the exit code of the process and the state it leaves.  An
    exception of the [try] block is reported by the [catch] as a fatal
    error and ends the process with code 1. *)
Definition main (apiDocsPath : string) (s : state) : nat * state :=
  match mainTry apiDocsPath s with
  | Returns _ s' => (0, s')
  | Exits code s' => (code, s')
  | Throws s' =>
      (1, {| world := world s'; console := (console s' ++ [FatalError])%list |})
  end.

End WithCodec.

End Updater.

(** ** A concrete codec for the examples

    A small self-delimiting text format standing in for YAML where a run is
    evaluated on a concrete world: a tag, then lengths in unary closed by
    [";"].  Text that does not parse plays the part of a malformed
    document. *)

Module SampleCodec.
Import Value.

Fixpoint dumpNat (n : nat) : string :=
  match n with
  | O => ";"
  | S k => String "1" (dumpNat k)
  end.

Definition dumpString (s : string) : string := dumpNat (String.length s) +:+ s.

Fixpoint dump (v : value) : string :=
  match v with
  | VNull => "~"
  | VBool true => "T"
  | VBool false => "F"
  | VNum n => "#" +:+ (if (n <? 0)%Z then "-" else "+") +:+ dumpNat (Z.abs_nat n)
  | VStr s => "'" +:+ dumpString s
  | VObj cls ps =>
      (match cls with Plain => "{" | Array => "[" end) +:+
      dumpNat (length ps) +:+
      (fix dumpProps (ps : list (string * value)) : string :=
         match ps with
         | [] => ""
         | (k, v) :: rest => dumpString k +:+ dump v +:+ dumpProps rest
         end) ps
  end.

Fixpoint parseNat (s : string) : option (nat * string) :=
  match s with
  | "" => None
  | String c r =>
      if Ascii.eqb c ";" then Some (O, r)
      else if Ascii.eqb c "1"
           then match parseNat r with
                | Some (n, r') => Some (S n, r')
                | None => None
                end
           else None
  end.

Fixpoint takeString (n : nat) (s : string) : option (string * string) :=
  match n, s with
  | O, _ => Some ("", s)
  | S k, String c r =>
      match takeString k r with
      | Some (t, r') => Some (String c t, r')
      | None => None
      end
  | S _, "" => None
  end.

Definition parseString (s : string) : option (string * string) :=
  match parseNat s with
  | Some (n, r) => takeString n r
  | None => None
  end.

Fixpoint parse (fuel : nat) (s : string) : option (value * string) :=
  match fuel, s with
  | S fuel', String c r =>
      let parseProps :=
        fix go (n : nat) (s : string) : option (list (string * value) * string) :=
          match n with
          | O => Some ([], s)
          | S k =>
              match parseString s with
              | Some (key, s1) =>
                  match parse fuel' s1 with
                  | Some (v, s2) =>
                      match go k s2 with
                      | Some (ps, s3) => Some ((key, v) :: ps, s3)
                      | None => None
                      end
                  | None => None
                  end
              | None => None
              end
          end in
      let parseObj (cls : objclass) :=
        match parseNat r with
        | Some (n, r') =>
            match parseProps n r' with
            | Some (ps, r'') => Some (VObj cls ps, r'')
            | None => None
            end
        | None => None
        end in
      if Ascii.eqb c "~" then Some (VNull, r)
      else if Ascii.eqb c "T" then Some (VBool true, r)
      else if Ascii.eqb c "F" then Some (VBool false, r)
      else if Ascii.eqb c "#" then
        match r with
        | String sign r' =>
            match parseNat r' with
            | Some (n, r'') =>
                if Ascii.eqb sign "-" then Some (VNum (- Z.of_nat n), r'')
                else if Ascii.eqb sign "+" then Some (VNum (Z.of_nat n), r'')
                else None
            | None => None
            end
        | "" => None
        end
      else if Ascii.eqb c "'" then
        match parseString r with
        | Some (t, r') => Some (VStr t, r')
        | None => None
        end
      else if Ascii.eqb c "{" then parseObj Plain
      else if Ascii.eqb c "[" then parseObj Array
      else None
  | _, _ => None
  end.

Definition load (s : string) : option value :=
  match parse (S (String.length s)) s with
  | Some (v, "") => Some v
  | _ => None
  end.

#[export] Instance codec : YamlCodec := {| yaml_load := load; yaml_dump := dump |}.

End SampleCodec.

(** ** [api-docs-generator.ts]: validation, version, output path *)

Module Validation.
Import JS Value.

Definition validMethods : list string :=
  ["get"; "post"; "put"; "patch"; "delete"; "head"; "options"; "trace"; "connect"].

(** [question(prompt)] reads the next line typed at the terminal.  A run
    is given the lines still to come; with none left the promise never
    settles, which is [None]. *)
Definition Asking (A : Type) : Type := list string -> option (A * list string).

Definition question : Asking string := fun answers =>
  match answers with
  | [] => None
  | line :: rest => Some (line, rest)
  end.

(** The [while] loop of [validateMethod], entered with [methodLower]. *)
Fixpoint validateMethodLoop (methodLower : string) (answers : list string)
  : option (string * list string) :=
  if Updater.arrayIncludes validMethods methodLower
  then Some (methodLower, answers)
  else
    match answers with
    | [] => None
    | line :: rest => validateMethodLoop (toLowerCase line) rest
    end.

Definition validateMethod (method : string) : Asking string :=
  validateMethodLoop (toLowerCase method).

(** The four checks of [validatePath], in the order the loop makes them:
    the message printed for a rejected path, [None] for a path that
    reaches [break]. *)
Inductive rejection :=
| PathEmpty
| PathWithoutSlash
| PathWithColon
| PathWithSeveralQueries.

Definition checkPath (path : string) : option rejection :=
  if negb (JS.truthy (trim path)) then Some PathEmpty
  else if negb (startsWith path "/") then Some PathWithoutSlash
  else if includes path ":" then Some PathWithColon
  else if (2 <? length (split path "?"))%nat then Some PathWithSeveralQueries
  else None.

(** [validatePath(rawPath)]: the accepted path, the lines left, and the
    messages printed on the way. *)
Fixpoint validatePath (rawPath : string) (answers : list string)
  : option (string * list string * list rejection) :=
  match checkPath rawPath with
  | None => Some (rawPath, answers, [])
  | Some why =>
      match answers with
      | [] => None
      | line :: rest =>
          match validatePath line rest with
          | Some (path, remaining, printed) => Some (path, remaining, why :: printed)
          | None => None
          end
      end
  end.

(** The part of [main] that reads the path: [rawPath] is the line typed
    first, [pathOnly] the path [validatePath] accepted.  The path
    parameters are taken from [pathOnly], the query parameters from
    [rawPath]. *)
Definition readPath : Asking (string * list string * list string) := fun answers =>
  match question answers with
  | None => None
  | Some (rawPath, later) =>
      match validatePath rawPath later with
      | Some (pathOnly, remaining, _) =>
          let pathParams := Generator.extractPathParams pathOnly in
          let queryParams := Generator.extractQueryParams rawPath in
          Some ((pathOnly, pathParams, queryParams), remaining)
      | None => None
      end
  end.

(** [o?.k] *)
Definition optionalMember (o : jsval) (k : string) : jsval :=
  match o with
  | Some (VObj _ ps) => propGet k ps
  | _ => None
  end.

(** [extractApiVersion(apiSpecPath)] on the text of the files: the value
    returned ([VNull] is [null]) and whether the [catch] printed an error. *)
Definition extractApiVersion {codec : YamlCodec} (files : gmap string string)
           (apiSpecPath : string) : value * bool :=
  match files !! apiSpecPath with
  | Some content =>
      match yaml_load content with
      | Some doc =>
          let version := optionalMember (optionalMember (Some doc) "info") "version" in
          (match version with
           | Some v => if Value.truthy version then v else VNull
           | None => VNull
           end, false)
      | None => (VNull, true)
      end
  | None => (VNull, true)
  end.

(** [generateOutputPath(apiSpecPath, domain, method, opPath)] in a process
    whose working directory is [cwd].  Where the joined path does not
    contain [cwd], [split(cwd)[1]] is [undefined] and calling
    [toLowerCase] on it throws. *)
Definition generateOutputPath (cwd apiSpecPath domain method opPath : string)
  : completion string :=
  let baseDir := PosixPath.dirname apiSpecPath in
  let filename := method +:+ "-" +:+ opPath +:+ ".yaml" in
  let filePath := PosixPath.join [baseDir; "paths"; domain; filename] in
  match at_index (split filePath cwd) 1 with
  | Some piece =>
      let relativePath := replace_class (is_char " ") "-" (toLowerCase piece) in
      Normal (cwd +:+ "/" +:+ relativePath)
  | None => TypeError
  end.

End Validation.

(** ** The command line entry *)

Module Cli.
Import JS.

(** [getArg(key, defaultValue)] on [process.argv]; [None] is [undefined]. *)
Definition getArg (argv : list string) (key defaultValue : string) : option string :=
  match List.find (fun a => startsWith a ("--" +:+ key +:+ "=")) argv with
  | Some arg => at_index (split arg "=") 1
  | None => Some defaultValue
  end.

Inductive action := Generate | Update | InvalidAction.

(** The [switch] of [main]: which of [generator()] and [updater()] runs. *)
Definition main (argv : list string) : action :=
  match getArg argv "action" "" with
  | Some action =>
      if String.eqb action "generate" then Generate
      else if String.eqb action "update" then Update
      else InvalidAction
  | None => InvalidAction
  end.

End Cli.

(** ** [api-docs-update.ts]: [main] after its first step *)

Module UpdaterSteps.
Import JS Value FileSystem Updater.

Section WithCodec.
Context {codec : YamlCodec}.

(** Steps 2 and 3 of [main], lines 134 to 221: the rest of the [try]
    block once the cleared document is written. *)
Definition rebuildPaths (apiDocsPath : string) : M unit := fun s =>
  let pathsDir := PosixPath.join [PosixPath.dirname apiDocsPath; "paths"] in
  if negb (existsNode (tree (world s) pathsDir))
  then (consoleWrite (PathsDirectoryNotFound pathsDir) ≫= fun _ => processExit 1) s
  else
    let '(pathFiles, errors) :=
      walkDir pathsDir (readdir (tree (world s) pathsDir)) ([], []) in
    let s := {| world := world s; console := (console s ++ errors)%list |} in
    if (length pathFiles =? 0)%nat
    then consoleWrite NoPathFilesFound s
    else
      (apiDocs ← loadYaml apiDocsPath;
       let totalRefs := 0 in
       let baseDir := PosixPath.dirname apiDocsPath in
       '(apiDocs, totalRefs) ← forEachFile baseDir pathFiles (apiDocs, totalRefs);
       saved ← saveYaml apiDocsPath apiDocs;
       if negb saved then processExit 1 else mret tt) s.

End WithCodec.

End UpdaterSteps.

(** * Specification-side definitions *)

Module Spec.
Import JS.

(** [c] occurs in [s]. *)
Fixpoint occurs (c : ascii) (s : string) : bool :=
  match s with
  | "" => false
  | String a r => Ascii.eqb a c || occurs c r
  end.

(** A path written out as its pieces: each segment is the text before a
    parameter and the name between the braces; [tail] follows the last
    closing brace. *)
Fixpoint assemble (segs : list (string * string)) (tail : string) : string :=
  match segs with
  | [] => tail
  | (before, name) :: rest =>
      before +:+ "{" +:+ name +:+ "}" +:+ assemble rest tail
  end.

Definition wellBraced (seg : string * string) : Prop :=
  occurs "{" (fst seg) = false /\
  occurs "{" (snd seg) = false /\
  occurs "}" (snd seg) = false.

(** The text before the first [c], all of [s] when there is none. *)
Fixpoint beforeFirst (c : ascii) (s : string) : string :=
  match s with
  | "" => ""
  | String a r => if Ascii.eqb a c then "" else String a (beforeFirst c r)
  end.

(** The text after the first [c], empty when there is none. *)
Fixpoint afterFirst (c : ascii) (s : string) : string :=
  match s with
  | "" => ""
  | String a r => if Ascii.eqb a c then r else afterFirst c r
  end.

(** [parsePathParameters] as the specification words it: scan for the
    next ["{"], take the text up to the ["}"] that follows, strip the
    braces, go on after that ["}"].  A ["{"] with no ["}"] after it ends
    the scan.  [fuel] bounds the number of parameters. *)
Fixpoint parsePathParametersUpTo (fuel : nat) (path : string) : list string :=
  match fuel with
  | O => []
  | S fuel' =>
      if occurs "{" path then
        let opened := afterFirst "{" path in
        if occurs "}" opened
        then replace_class is_brace "" (beforeFirst "}" opened)
               :: parsePathParametersUpTo fuel' (afterFirst "}" opened)
        else []
      else []
  end.

Definition parsePathParameters (path : string) : list string :=
  parsePathParametersUpTo (String.length path) path.

(** [parseQueryParameters] as the specification words it: the substring
    after the first ["?"], split on ["&"], each segment cut at its first
    ["="]. *)
Definition parseQueryParameters (rawPath : string) : list string :=
  if occurs "?" rawPath
  then map (beforeFirst "=") (split (afterFirst "?" rawPath) "&")
  else [].

(** The white space of the specification, among the code units below
    256: the space, the no-break space, and the controls TAB, LF, VT, FF
    and CR. *)
Definition whitespace (c : ascii) : bool :=
  existsb (Ascii.eqb c) [" "; "160"; "009"; "010"; "011"; "012"; "013"]%char.

(** A parameter name that is empty or consists only of white space. *)
Fixpoint blank (name : string) : bool :=
  match name with
  | "" => true
  | String c rest => whitespace c && blank rest
  end.

Definition named (names : list string) : list string :=
  List.filter (fun name => negb (blank name)) names.

(** One block per name, in order. *)
Fixpoint emit (block : string -> string) (names : list string) : string :=
  match names with
  | [] => ""
  | name :: rest => block name +:+ emit block rest
  end.

(** Answers whose template ends with two line feeds. *)
Definition twoNewlineAnswers : Generator.answers :=
  {| Generator.methodLower := "get";
     Generator.rawPath := "/users/{id}";
     Generator.pathOnly := "/users/{id}";
     Generator.title := "Read a user";
     Generator.domain := "users";
     Generator.author := "octocat";
     Generator.apiVersion := "1.0.0";
     Generator.template := "{{PATH}}:" +:+ nl +:+ "  {{METHOD_LOWER}}:" +:+ nl +:+ nl |}.

(** The text ends with one line feed and not with two. *)
Definition oneTrailingNewline (s : string) : bool :=
  endsWith s nl && negb (endsWith s (nl +:+ nl)).

End Spec.

Module UpdaterSpec.
Import JS Value FileSystem Updater.

(** [file] lies under [baseDir]: the segments of the resolved base are the
    first segments of the resolved file. *)
Fixpoint segmentsPrefix (a b : list string) : bool :=
  match a, b with
  | [] , _ => true
  | x :: a', y :: b' => String.eqb x y && segmentsPrefix a' b'
  | _ :: _, [] => false
  end.

Definition isUnder (cwd baseDir file : string) : bool :=
  segmentsPrefix (PosixPath.segments (PosixPath.resolve cwd baseDir))
                 (PosixPath.segments (PosixPath.resolve cwd file)).

(** [relativeReference] as the specification words it. *)
Definition relativeReference (cwd fromBaseDir toFile : string) : string :=
  if isUnder cwd fromBaseDir toFile
  then "./" +:+ PosixPath.relative cwd fromBaseDir toFile
  else toFile.

(** A method key that passes both tests of the rebuild loop. *)
Definition survives (method : string) : bool :=
  negb (startsWith method "x-" || startsWith method "$") &&
  arrayIncludes validMethods (toLowerCase method).

(** [apiDocs.paths[apiPath][method]], [None] where a step is missing. *)
Definition entryAt (apiDocs : value) (apiPath method : string) : jsval :=
  match member (Some apiDocs) "paths" with
  | Normal (Some (VObj _ paths)) =>
      match propGet apiPath paths with
      | Some (VObj _ entry) => propGet method entry
      | _ => None
      end
  | _ => None
  end.

(** The main document has an own entry for [apiPath] under [paths]. *)
Definition ownPath (apiDocs : value) (apiPath : string) : bool :=
  match member (Some apiDocs) "paths" with
  | Normal (Some (VObj _ paths)) =>
      match propGet apiPath paths with Some _ => true | None => false end
  | _ => false
  end.

(** [apiDocs.paths[apiPath]] is an inherited property: the rebuild writes
    no entry for [apiPath]. *)
Definition shadowed (apiDocs : value) (apiPath : string) : bool :=
  inherited apiPath && negb (ownPath apiDocs apiPath).

(** The main document as the Clear step leaves it in memory: an object
    whose [paths] is [{}]. *)
Definition cleared (apiDocs : value) : Prop :=
  exists cls ps, apiDocs = VObj cls ps /\ propGet "paths" ps = Some emptyObject.

(** The main document in memory once the Clear step has deleted a truthy
    [paths] and assigned [{}] to the key. *)
Definition clearedFrom (apiDocs : value) : value :=
  match apiDocs with
  | VObj cls ps =>
      VObj cls (propSet "paths" emptyObject
                  (if truthy (propGet "paths" ps)
                   then propDelete "paths" ps else ps))
  | _ => apiDocs
  end.

(** The reference object the rebuild writes for a pair found in a file. *)
Definition referenceTo (cwd baseDir filePath apiPath method : string) : value :=
  refObject (getRelativePath cwd filePath baseDir +:+ "#/paths/" +:+
             encodeJsonPointer apiPath +:+ "/" +:+ method).

(** [method] is a key of the object at [apiPath] in a [paths] object. *)
Definition pairIn (filePaths : list (string * value)) (apiPath method : string) : bool :=
  match propGet apiPath filePaths with
  | Some (VObj _ pathObj) => existsb (String.eqb method) (map fst pathObj)
  | _ => false
  end.

(** A document has [apiPath] under its [paths] object, itself an object
    with [method] among its keys. *)
Definition definesPair (doc : value) (apiPath method : string) : bool :=
  match doc with
  | VObj _ ps =>
      match propGet "paths" ps with
      | Some (VObj _ filePaths) => pairIn filePaths apiPath method
      | _ => false
      end
  | _ => false
  end.

Definition writesPair (doc : value) (apiPath method : string) : bool :=
  definesPair doc apiPath method && survives method.

(** The path keys of a path file: the keys the rebuild loop visits. *)
Definition pathKeys (doc : value) : list string :=
  match member (Some doc) "paths" with
  | Normal filePaths =>
      if negb (truthy filePaths) || negb (typeofObject filePaths) then []
      else forInKeys filePaths
  | TypeError => []
  end.

(** No path key of the file is [__proto__]: on its account the rebuild
    writes nothing onto a prototype. *)
Definition protoFree (doc : value) : bool :=
  negb (existsb (String.eqb "__proto__") (pathKeys doc)).

(** The main document while the rebuild runs: an object whose [paths] is
    a plain object of objects. *)
Definition rebuilding (apiDocs : value) : Prop :=
  exists cls ps paths,
    apiDocs = VObj cls ps /\
    propGet "paths" ps = Some (VObj Plain paths) /\
    Forall (fun kv => exists ecls entry, snd kv = VObj ecls entry) paths.

(** What a loop over the files, paths or keys does to the entries: those
    it [touches], under a path that is not shadowed, hold the reference
    into [filePath], the others are as before; and the same paths are
    shadowed after as before. *)
Definition rewrites (cwd baseDir filePath : string)
           (touches : string -> string -> bool) (apiDocs apiDocs' : value) : Prop :=
  (forall a, shadowed apiDocs' a = shadowed apiDocs a) /\
  forall a m,
    entryAt apiDocs' a m =
    if touches a m && negb (shadowed apiDocs a)
    then Some (referenceTo cwd baseDir filePath a m)
    else entryAt apiDocs a m.

(** [apiDocs'] is [apiDocs] with, at most, another value under [paths]. *)
Definition pathsSlot (apiDocs apiDocs' : value) : Prop :=
  apiDocs' = apiDocs \/
  exists cls ps v,
    apiDocs = VObj cls ps /\ apiDocs' = VObj cls (propSet "paths" v ps).

(** The state with more written to the console. *)
Definition report (es : list event) (s : state) : state :=
  {| world := world s; console := (console s ++ es)%list |}.

(** The walk as the amended specification words it.  [found]: the files
    a directory yields, in the order of its entries; a directory that
    cannot be read yields none, a file counts when its name ends with
    [.yaml] or [.yml], a subdirectory yields what its own walk finds, and
    an entry that cannot be examined ends the reading of its directory. *)
Fixpoint found (dirPath : string) (l : listing) : list string :=
  match l with
  | ReaddirFails _ => []
  | Listing files => foundAmong dirPath files
  end
with foundAmong (dirPath : string) (files : entries) : list string :=
  match files with
  | NoEntry => []
  | Entry file RegularFile rest =>
      ((if endsWith file ".yaml" || endsWith file ".yml"
        then [PosixPath.join [dirPath; file]] else [])
       ++ foundAmong dirPath rest)%list
  | Entry file (Directory sub) rest =>
      (found (PosixPath.join [dirPath; file]) sub ++ foundAmong dirPath rest)%list
  | Entry _ (StatFails _) _ => []
  end.

(** What an error puts on the console: a line, unless its code is
    [ENOENT]. *)
Definition logOf (e : fserror) : list event :=
  match e with
  | ENOENT => []
  | EOTHER => [ErrorReadingDirectory]
  end.

(** [logged]: the console lines of a walk, one for each error that stopped
    the reading of a directory, those of a subdirectory before those of
    the entries after it. *)
Fixpoint logged (l : listing) : list event :=
  match l with
  | ReaddirFails e => logOf e
  | Listing files => loggedAmong files
  end
with loggedAmong (files : entries) : list event :=
  match files with
  | NoEntry => []
  | Entry _ RegularFile rest => loggedAmong rest
  | Entry _ (Directory sub) rest => (logged sub ++ loggedAmong rest)%list
  | Entry _ (StatFails e) _ => logOf e
  end.

(** [st'] is [st] with more files found and more directory errors
    reported. *)
Definition extends (st st' : list string * list event) : Prop :=
  exists found errors,
    st' = ((fst st ++ found)%list, (snd st ++ errors)%list) /\
    Forall (eq ErrorReadingDirectory) errors.

Section WithCodec.
Context {codec : YamlCodec}.

(** What [loadYaml] returns for a path in a world, and what it reports. *)
Definition loaded (w : World) (filePath : string) : value :=
  match files w !! filePath with
  | Some content =>
      match yaml_load content with
      | Some doc => if truthy (Some doc) then doc else emptyObject
      | None => emptyObject
      end
  | None => emptyObject
  end.

Definition loadFails (w : World) (filePath : string) : bool :=
  match files w !! filePath with
  | Some content =>
      match yaml_load content with Some _ => false | None => true end
  | None => true
  end.

Definition loadErrors (w : World) (pathFiles : list string) : list event :=
  map ErrorReadingYaml (List.filter (loadFails w) pathFiles).

(** The rebuild loop without its console: what the loop computes from the
    documents the files load to. *)
Definition visitFilePure (w : World) (baseDir filePath : string)
           (st : value * nat) : completion (value * nat) :=
  filePaths ← member (Some (loaded w filePath)) "paths";
  if negb (truthy filePaths) || negb (typeofObject filePaths) then Normal st
  else forEachApiPath (cwd w) filePath baseDir filePaths (forInKeys filePaths) st.

Fixpoint forEachFilePure (w : World) (baseDir : string) (pathFiles : list string)
         (st : value * nat) : completion (value * nat) :=
  match pathFiles with
  | [] => Normal st
  | filePath :: rest =>
      st ← visitFilePure w baseDir filePath st;
      forEachFilePure w baseDir rest st
  end.

(** The entry for a pair once the files have been processed in order: the
    reference into the last file that defines the pair under a surviving
    method key, and [before] when no file does. *)
Fixpoint lastWriter (w : World) (baseDir : string) (pathFiles : list string)
         (apiPath method : string) (before : jsval) : jsval :=
  match pathFiles with
  | [] => before
  | filePath :: rest =>
      lastWriter w baseDir rest apiPath method
        (if writesPair (loaded w filePath) apiPath method
         then Some (referenceTo (cwd w) baseDir filePath apiPath method)
         else before)
  end.

End WithCodec.

End UpdaterSpec.

(** ** Concrete worlds *)

Module Samples.
Import Value FileSystem Updater SampleCodec.

Definition operation (summary : string) : value :=
  VObj Plain [("summary", VStr summary)].

(** A path file defining [get /x]. *)
Definition usersFile : value :=
  VObj Plain [("paths", VObj Plain [("/x", VObj Plain [("get", operation "list")])])].

(** A main document whose [paths] key has no value and is not the last. *)
Definition mainDocument : value :=
  VObj Plain [("openapi", VStr "3.0.0");
              ("paths", VNull);
              ("info", VObj Plain [("version", VStr "1.0.0")])].

Definition apiDocsPath : string := "resource/api-docs/v1/api-docs.yaml".

(** [paths/] holds [broken.yaml] and [users.yaml]. *)
Definition pathsTree (p : string) : option node :=
  if String.eqb p "resource/api-docs/v1/paths"
  then Some (Directory (Listing
         (Entry "broken.yaml" RegularFile
         (Entry "users.yaml" RegularFile NoEntry))))
  else None.

(** [broken.yaml] holds text that does not parse. *)
Definition brokenWorld : World :=
  {| files :=
       <[ "resource/api-docs/v1/paths/users.yaml" := dump usersFile ]>
       (<[ "resource/api-docs/v1/paths/broken.yaml" := "paths: [" ]>
       (<[ apiDocsPath := dump mainDocument ]> ∅));
     locked := ∅;
     tree := pathsTree;
     cwd := "/work" |}.

Definition brokenStart : state := {| world := brokenWorld; console := [] |}.

(** A world with the main document and the one good path file. *)
Definition tidyWorld : World :=
  {| files :=
       <[ "resource/api-docs/v1/paths/users.yaml" := dump usersFile ]>
       (<[ apiDocsPath := dump mainDocument ]> ∅);
     locked := ∅;
     tree := fun p =>
       if String.eqb p "resource/api-docs/v1/paths"
       then Some (Directory (Listing (Entry "users.yaml" RegularFile NoEntry)))
       else None;
     cwd := "/work" |}.

Definition tidyStart : state := {| world := tidyWorld; console := [] |}.

(** [paths/] holds [a.yaml] and [b.yaml], both defining [get /x]; the main
    document is already cleared. *)
Definition clearedDocument : value :=
  VObj Plain [("openapi", VStr "3.0.0"); ("paths", emptyObject)].

Definition conflictWorld : World :=
  {| files :=
       <[ "resource/api-docs/v1/paths/b.yaml" := dump usersFile ]>
       (<[ "resource/api-docs/v1/paths/a.yaml" := dump usersFile ]>
       (<[ apiDocsPath := dump clearedDocument ]> ∅));
     locked := ∅;
     tree := fun p =>
       if String.eqb p "resource/api-docs/v1/paths"
       then Some (Directory (Listing
              (Entry "a.yaml" RegularFile (Entry "b.yaml" RegularFile NoEntry))))
       else None;
     cwd := "/work" |}.

Definition conflictStart : state := {| world := conflictWorld; console := [] |}.

(** A path file whose only keys under [/x] are an extension, a reference
    marker and an unknown word. *)
Definition skippedFile : value :=
  VObj Plain [("paths", VObj Plain
    [("/x", VObj Plain [("x-internal", VBool true);
                        ("$ref", VStr "./shared.yaml");
                        ("foo", operation "unknown")])])].

Definition skippedWorld : World :=
  {| files :=
       <[ "resource/api-docs/v1/paths/a.yaml" := dump skippedFile ]>
       (<[ apiDocsPath := dump clearedDocument ]> ∅);
     locked := ∅;
     tree := fun p =>
       if String.eqb p "resource/api-docs/v1/paths"
       then Some (Directory (Listing (Entry "a.yaml" RegularFile NoEntry)))
       else None;
     cwd := "/work" |}.

Definition skippedStart : state := {| world := skippedWorld; console := [] |}.

(** A directory whose second entry cannot be examined. *)
Definition partlyUnreadable : listing :=
  Listing (Entry "a.yaml" RegularFile
          (Entry "locked" (StatFails EOTHER)
          (Entry "b.yaml" RegularFile NoEntry))).

End Samples.

(** ** Proof steps *)

(** Case on the first computation of a chain of binds that must end
    normally. *)
Ltac bind_case :=
  match goal with
  | |- (mbind _ ?c = _) -> _ =>
      destruct c; cbn [mbind Updater.completion_bind]; [| discriminate]
  end.

(** ** Further specification-side definitions *)

Module MoreSpec.
Import JS Value FileSystem Updater Spec UpdaterSpec.

(** The text after the first [n] code units. *)
Fixpoint dropString (n : nat) (s : string) : string :=
  match n, s with
  | O, _ => s
  | S k, String _ r => dropString k r
  | S _, "" => ""
  end.

(** Lower case, spaces turned into dashes: what [generateOutputPath] does
    to the part of the path it takes for relative. *)
Definition lowerDashed (s : string) : string :=
  replace_class (is_char " ") "-" (toLowerCase s).

(** The value of a [--key=value] argument: the text between its first and
    its second ["="]. *)
Definition argumentValue (arg : string) : string :=
  beforeFirst "=" (afterFirst "=" arg).

(** A method answer the generator accepts. *)
Definition methodAccepted (answer : string) : bool :=
  arrayIncludes Validation.validMethods (toLowerCase answer).

(** A path answer the generator rejects, and a reason to reject it. *)
Definition pathRejected (path : string) : bool :=
  match Validation.checkPath path with
  | Some _ => true
  | None => false
  end.

(** The number of surviving method keys a path file holds, as the loops
    visit them. *)
Definition entryKeys (pathObj : jsval) : nat :=
  if negb (truthy pathObj) || negb (typeofObject pathObj) then 0
  else length (List.filter survives (forInKeys pathObj)).

Fixpoint countApiPaths (filePaths : jsval) (apiPaths : list string) : nat :=
  match apiPaths with
  | [] => 0
  | apiPath :: rest =>
      (match member filePaths apiPath with
       | Normal pathObj => entryKeys pathObj
       | TypeError => 0
       end) + countApiPaths filePaths rest
  end.

Definition countFile (pathFile : value) : nat :=
  match member (Some pathFile) "paths" with
  | Normal filePaths =>
      if negb (truthy filePaths) || negb (typeofObject filePaths) then 0
      else countApiPaths filePaths (forInKeys filePaths)
  | TypeError => 0
  end.

(** The state a computation leaves, however it ends. *)
Definition stateOf {A : Type} (o : outcome A) : state :=
  match o with
  | Returns _ s => s
  | Exits _ s => s
  | Throws s => s
  end.

(** Between two worlds nothing differs but, at most, the text of the file
    at [p]. *)
Definition onlyFileChanged (p : string) (w w' : World) : Prop :=
  locked w' = locked w /\ tree w' = tree w /\ cwd w' = cwd w /\
  forall q, q <> p -> files w' !! q = files w !! q.

(** A computation that changes no file but, at most, the one at [p]. *)
Definition keepsOthers {A : Type} (p : string) (m : M A) : Prop :=
  forall s, onlyFileChanged p (world s) (world (stateOf (m s))).

(** [apiDocs'] is [apiDocs], or [apiDocs] with another value under a
    [paths] key it already had. *)
Definition pathsReplaced (apiDocs apiDocs' : value) : Prop :=
  apiDocs' = apiDocs \/
  exists cls ps old v,
    apiDocs = VObj cls ps /\ propGet "paths" ps = Some old /\
    apiDocs' = VObj cls (propSet "paths" v ps).

Section CountWithCodec.
Context {codec : YamlCodec}.

(** The number of reference writes a rebuild over the files makes. *)
Fixpoint countFiles (w : World) (pathFiles : list string) : nat :=
  match pathFiles with
  | [] => 0
  | filePath :: rest => countFile (loaded w filePath) + countFiles w rest
  end.

End CountWithCodec.

(** A path with one of the two extensions the walk looks for. *)
Definition yamlPath (filePath : string) : bool :=
  endsWith filePath ".yaml" || endsWith filePath ".yml".

(** The last code unit of a text. *)
Fixpoint lastChar (s : string) : option ascii :=
  match s with
  | "" => None
  | String c r =>
      match lastChar r with
      | None => Some c
      | Some x => Some x
      end
  end.

(** An ending that a file name can have and that survives [path.join]:
    not empty, without a slash, and not the ending of ["."] or [".."]. *)
Definition extension (p : string) : Prop :=
  p <> "" /\ occurs "/" p = false /\
  endsWith "." p = false /\ endsWith ".." p = false.

(** A segment [path.resolve] keeps as it is. *)
Definition plainSegment (seg : string) : bool :=
  JS.truthy seg && negb (occurs "/" seg)
  && negb (String.eqb seg ".") && negb (String.eqb seg "..").





End MoreSpec.

Module MoreSamples.
Import Value FileSystem Updater SampleCodec Samples.

(** The files of a world that holds the main document only. *)
Definition mainOnly : gmap string string :=
  <[ apiDocsPath := dump mainDocument ]> ∅.

(** The tidy world without its [paths] directory. *)
Definition bareWorld : World :=
  {| files := files tidyWorld; locked := ∅; tree := fun _ => None;
     cwd := "/work" |}.

Definition bareStart : state := {| world := bareWorld; console := [] |}.

(** The tidy world with a [paths] directory that holds a text file only. *)
Definition emptyWorld : World :=
  {| files := files tidyWorld; locked := ∅;
     tree := fun p =>
       if String.eqb p "resource/api-docs/v1/paths"
       then Some (Directory (Listing (Entry "notes.txt" RegularFile NoEntry)))
       else None;
     cwd := "/work" |}.

Definition emptyStart : state := {| world := emptyWorld; console := [] |}.

(** The tidy world with a main document that cannot be written. *)
Definition lockedWorld : World :=
  {| files := files tidyWorld; locked := {[ apiDocsPath ]};
     tree := tree tidyWorld; cwd := "/work" |}.

Definition lockedStart : state := {| world := lockedWorld; console := [] |}.

(** The main document once its [paths] is cleared in place. *)
Definition mainCleared : value :=
  VObj Plain [("openapi", VStr "3.0.0");
              ("paths", emptyObject);
              ("info", VObj Plain [("version", VStr "1.0.0")])].

(** What the rebuild makes of the cleared document in the world where two
    files define [get /x]. *)
Definition conflictRebuilt : value :=
  VObj Plain [("openapi", VStr "3.0.0");
              ("paths", VObj Plain
                 [("/x", VObj Plain
                     [("get", refObject "./paths/b.yaml#/paths/~1x/get")])])].

Definition conflictFiles : list string :=
  ["resource/api-docs/v1/paths/a.yaml"; "resource/api-docs/v1/paths/b.yaml"].

(** A path file that defines [get] under [/x] and under [constructor], a
    name every object inherits. *)
Definition inheritedFile : value :=
  VObj Plain [("paths", VObj Plain
    [("constructor", VObj Plain [("get", operation "make")]);
     ("/x", VObj Plain [("get", operation "list")])])].

(** [paths/] holds [a.yaml] and [b.yaml], both that file; the main
    document is already cleared. *)
Definition inheritedWorld : World :=
  {| files :=
       <[ "resource/api-docs/v1/paths/b.yaml" := dump inheritedFile ]>
       (<[ "resource/api-docs/v1/paths/a.yaml" := dump inheritedFile ]>
       (<[ apiDocsPath := dump clearedDocument ]> ∅));
     locked := ∅;
     tree := tree conflictWorld;
     cwd := "/work" |}.

Definition inheritedStart : state := {| world := inheritedWorld; console := [] |}.

(** What the rebuild makes of the cleared document there. *)
Definition inheritedRebuilt : value :=
  VObj Plain [("openapi", VStr "3.0.0");
              ("paths", VObj Plain
                 [("/x", VObj Plain
                     [("get", refObject "./paths/b.yaml#/paths/~1x/get")])])].

(** The tidy world with a main document that does not parse. *)
Definition brokenMainWorld : World :=
  {| files := <[ apiDocsPath := "openapi: [" ]> (files tidyWorld);
     locked := ∅; tree := tree tidyWorld; cwd := "/work" |}.

Definition brokenMainStart : state :=
  {| world := brokenMainWorld; console := [] |}.

(** A codec that writes like the sample codec and cannot read back the
    cleared main document: with it the reload of [main] fails. *)
Definition forgetfulLoad (s : string) : option value :=
  if String.eqb s (dump mainCleared) then None else load s.

Definition forgetfulCodec : YamlCodec :=
  {| yaml_load := forgetfulLoad; yaml_dump := dump |}.


End MoreSamples.

(** * Properties *)

(** ** Strings *)

Module StringFacts.
Import JS Spec.

Lemma app_nil_r (s : string) : s +:+ "" = s.
Proof. induction s as [|c s IH]; simpl; [reflexivity | now rewrite IH]. Qed.

Lemma app_assoc (a b c : string) : (a +:+ b) +:+ c = a +:+ (b +:+ c).
Proof. induction a as [|x a IH]; simpl; [reflexivity | now rewrite IH]. Qed.

Lemma prefix_char (c a : ascii) (r : string) :
  String.prefix (String c "") (String a r) = Ascii.eqb a c.
Proof.
  simpl. destruct (ascii_dec c a) as [->|Hne].
  - rewrite Ascii.eqb_refl. now destruct r.
  - symmetry. apply Ascii.eqb_neq. congruence.
Qed.

Lemma includes_char (c : ascii) (s : string) :
  includes s (String c "") = occurs c s.
Proof.
  induction s as [|a r IH].
  - reflexivity.
  - cbn [includes occurs]. now rewrite prefix_char, IH.
Qed.

(** Splitting on a one-character separator: the head is the text before
    its first occurrence, the rest is the split of what follows it. *)
Lemma split_char (c : ascii) (s : string) :
  split s (String c "") =
  beforeFirst c s ::
    (if occurs c s then split (afterFirst c s) (String c "") else []).
Proof.
  unfold split. induction s as [|a r IH].
  - reflexivity.
  - cbn [split_from beforeFirst afterFirst occurs String.length Nat.sub].
    rewrite prefix_char. destruct (Ascii.eqb a c); simpl.
    + reflexivity.
    + now rewrite IH.
Qed.

Lemma beforeFirst_absent (c : ascii) (s : string) :
  occurs c s = false -> beforeFirst c s = s.
Proof.
  induction s as [|a r IH]; simpl; [reflexivity |].
  destruct (Ascii.eqb a c); simpl; [discriminate |].
  intros H. now rewrite IH.
Qed.

Lemma eqb_app_nl (r : string) : String.eqb (r +:+ nl) nl = String.eqb r "".
Proof.
  destruct r as [|a r]; [reflexivity |].
  cbn. destruct r; cbn; destruct (Ascii.eqb a LF); reflexivity.
Qed.

Lemma endsWith_app_self (s p : string) : endsWith (s +:+ p) p = true.
Proof.
  induction s as [|c s IH]; simpl.
  - destruct p; simpl; now rewrite ?Ascii.eqb_refl, ?String.eqb_refl.
  - rewrite IH. apply Bool.orb_true_r.
Qed.

(** Appending a line feed shifts the question "does it end with two" to
    "did it end with one". *)
Lemma endsWith_two_after_append (s : string) :
  endsWith (s +:+ nl) (nl +:+ nl) = endsWith s nl.
Proof.
  induction s as [|c s IH].
  - reflexivity.
  - cbn [String.append endsWith]. rewrite IH. f_equal.
    change (nl +:+ nl) with (String LF nl). change nl with (String LF "") at 3.
    cbn [String.eqb]. now rewrite eqb_app_nl.
Qed.

End StringFacts.

(** ** The embedding on small inputs *)

Module Tests.
Import JS Generator.

Example split_query : split "/a?x=1&y" "?" = ["/a"; "x=1&y"].
Proof. reflexivity. Qed.

Example split_empty : split "" "&" = [""].
Proof. reflexivity. Qed.

Example split_placeholder :
  join (split "a{{K}}b{{K}}{{K}}" "{{K}}") "-" = "a-b--".
Proof. reflexivity. Qed.

Example trim_spaces : trim "  a b  " = "a b" /\ trim "   " = "".
Proof. split; reflexivity. Qed.

Example query_params_two : extractQueryParams "/a?x=1&y" = ["x"; "y"].
Proof. reflexivity. Qed.

Example query_params_bare : extractQueryParams "/a?" = [""].
Proof. reflexivity. Qed.

Example unclosed_brace : extractPathParams "/a/{x}/{y" = ["x"].
Proof. reflexivity. Qed.

Example op_path : generateOpPath "/users/{id}/posts?x=1" = "users-id-posts".
Proof. reflexivity. Qed.

Example unmatched_placeholder :
  replaceTemplateVars "{{TITLE}} {{OTHER}}" [("TITLE", "t")] = "t {{OTHER}}".
Proof. reflexivity. Qed.

Example dirname_nested :
  PosixPath.dirname "resource/api-docs/v1/api-docs.yaml" = "resource/api-docs/v1".
Proof. reflexivity. Qed.

Example dirname_bare : PosixPath.dirname "api.yaml" = ".".
Proof. reflexivity. Qed.

Example dirname_root : PosixPath.dirname "/api.yaml" = "/".
Proof. reflexivity. Qed.

Example dirname_trailing : PosixPath.dirname "/a/b/" = "/a".
Proof. reflexivity. Qed.

Example join_paths :
  PosixPath.join ["resource/api-docs/v1"; "paths"] = "resource/api-docs/v1/paths"
  /\ PosixPath.join ["."; "paths"] = "paths"
  /\ PosixPath.join ["a/../.."; "paths"] = "../paths".
Proof. repeat split. Qed.

Example resolve_relative :
  PosixPath.resolve "/home/u" "resource/./x/../y" = "/home/u/resource/y".
Proof. reflexivity. Qed.

Example relative_down :
  PosixPath.relative "/w" "r/v1" "r/v1/paths/u/get-x.yaml" = "paths/u/get-x.yaml".
Proof. reflexivity. Qed.

Example encode_pointer :
  Updater.encodeJsonPointer "/users/{id}" = "~1users~1{id}".
Proof. reflexivity. Qed.

Example codec_round_trip :
  SampleCodec.load (SampleCodec.dump Samples.mainDocument) = Some Samples.mainDocument.
Proof. reflexivity. Qed.

End Tests.

(** ** The stub generator *)

Module GeneratorProps.
Import JS Spec Generator StringFacts.

(** *** Path parameters *)

Lemma match_braces_before (before s : string) :
  occurs "{" before = false ->
  match_braces (before +:+ s) None = match_braces s None.
Proof.
  induction before as [|c r IH]; simpl; [reflexivity |].
  destruct (Ascii.eqb c "{"); simpl; [discriminate | exact IH].
Qed.

Lemma match_braces_name (name s body : string) :
  occurs "}" name = false ->
  match_braces (name +:+ String "}" s) (Some body) =
  ("{" +:+ (body +:+ name) +:+ "}") :: match_braces s None.
Proof.
  revert body. induction name as [|c r IH]; intros body; simpl.
  - intros _. now rewrite app_nil_r.
  - destruct (Ascii.eqb c "}"); simpl; [discriminate |].
    intros H. rewrite (IH _ H), (app_assoc body (String c "") r). reflexivity.
Qed.

Lemma match_braces_tail (tail : string) :
  occurs "{" tail = false -> match_braces tail None = [].
Proof.
  induction tail as [|c r IH]; simpl; [reflexivity |].
  destruct (Ascii.eqb c "{"); simpl; [discriminate | exact IH].
Qed.

Lemma replace_class_app (cls : ascii -> bool) (by_ a b : string) :
  replace_class cls by_ (a +:+ b) =
  replace_class cls by_ a +:+ replace_class cls by_ b.
Proof.
  induction a as [|c r IH]; simpl; [reflexivity |].
  rewrite IH. destruct (cls c); simpl; [now rewrite app_assoc | reflexivity].
Qed.

Lemma strip_braces_free (name : string) :
  occurs "{" name = false -> occurs "}" name = false ->
  replace_class is_brace "" name = name.
Proof.
  induction name as [|c r IH]; simpl; [reflexivity |].
  unfold is_brace at 1.
  destruct (Ascii.eqb c "{"); simpl; [discriminate |].
  destruct (Ascii.eqb c "}"); simpl; [discriminate |].
  intros H1 H2. now rewrite IH.
Qed.

Lemma match_braces_assemble (segs : list (string * string)) (tail : string) :
  Forall wellBraced segs -> occurs "{" tail = false ->
  match_braces (assemble segs tail) None =
  map (fun seg => "{" +:+ snd seg +:+ "}") segs.
Proof.
  intros Hsegs Htail. induction Hsegs as [|[before name] rest [Hb [_ Hn]] _ IH].
  - simpl. now apply match_braces_tail.
  - cbn [assemble map snd]. rewrite match_braces_before by exact Hb.
    cbn [String.append match_braces]. rewrite Ascii.eqb_refl.
    cbn in Hn. rewrite (match_braces_name name _ "" Hn). now rewrite IH.
Qed.

(** A path made of texts free of ["{"] alternating with names in braces,
    the names free of braces, yields exactly the names: in order of
    appearance, repeated names repeated, an empty name given as the empty
    string. *)
Lemma extractPathParams_assemble (segs : list (string * string)) (tail : string) :
  Forall wellBraced segs -> occurs "{" tail = false ->
  extractPathParams (assemble segs tail) = map snd segs.
Proof.
  intros Hsegs Htail. unfold extractPathParams.
  rewrite match_braces_assemble by assumption.
  rewrite map_map. clear Htail.
  induction Hsegs as [|[before name] rest [_ [Ho Hc]] _ IH]; [reflexivity |].
  cbn [map snd]. rewrite IH. f_equal.
  cbn in Ho, Hc.
  cbn [String.append replace_class is_brace Ascii.eqb Bool.eqb orb].
  rewrite replace_class_app, strip_braces_free by assumption.
  cbn. now rewrite app_nil_r.
Qed.

Example extractPathParams_repeated :
  extractPathParams "/{id}/x/{id}" = ["id"; "id"].
Proof.
  apply (extractPathParams_assemble [("/", "id"); ("/x/", "id")] "");
    [repeat constructor | reflexivity].
Qed.

Lemma match_braces_open (s : string) :
  occurs "{" s = true ->
  match_braces s None = match_braces (afterFirst "{" s) (Some "").
Proof.
  induction s as [|c r IH]; cbn; [discriminate |].
  destruct (Ascii.eqb c "{"); cbn; [reflexivity | exact IH].
Qed.

Lemma match_braces_close (r body : string) :
  match_braces r (Some body) =
  if occurs "}" r
  then ("{" +:+ (body +:+ beforeFirst "}" r) +:+ "}")
         :: match_braces (afterFirst "}" r) None
  else [].
Proof.
  revert body. induction r as [|c r IH]; intros body; cbn; [reflexivity |].
  destruct (Ascii.eqb c "}"); cbn.
  - now rewrite app_nil_r.
  - rewrite IH. destruct (occurs "}" r); [| reflexivity].
    now rewrite (app_assoc body (String c "") (beforeFirst "}" r)).
Qed.

Lemma afterFirst_length (c : ascii) (s : string) :
  String.length (afterFirst c s) <= String.length s.
Proof.
  induction s as [|a r IH]; cbn; [lia |].
  destruct (Ascii.eqb a c); lia.
Qed.

Lemma afterFirst_shorter (c : ascii) (s : string) :
  occurs c s = true -> String.length (afterFirst c s) < String.length s.
Proof.
  induction s as [|a r IH]; cbn; [discriminate |].
  destruct (Ascii.eqb a c); cbn; [lia |].
  intros H. specialize (IH H). lia.
Qed.

Lemma strip_wrapped (name : string) :
  replace_class is_brace "" ("{" +:+ name +:+ "}") = replace_class is_brace "" name.
Proof.
  cbn [String.append replace_class is_brace Ascii.eqb Bool.eqb orb].
  rewrite replace_class_app. cbn. now rewrite app_nil_r.
Qed.

Lemma extractPathParams_upto (fuel : nat) (path : string) :
  String.length path <= fuel ->
  extractPathParams path = parsePathParametersUpTo fuel path.
Proof.
  unfold extractPathParams. revert path.
  induction fuel as [|fuel IH]; intros path Hlen.
  - destruct path; [reflexivity | cbn in Hlen; lia].
  - cbn [parsePathParametersUpTo].
    destruct (occurs "{" path) eqn:Ho.
    + rewrite (match_braces_open _ Ho), match_braces_close.
      pose proof (afterFirst_shorter _ _ Ho) as H1.
      destruct (occurs "}" (afterFirst "{" path)) eqn:Hc; [| reflexivity].
      pose proof (afterFirst_length "}" (afterFirst "{" path)) as H2.
      cbn [map]. rewrite strip_wrapped. cbn [String.append].
      f_equal. apply IH. lia.
    + now rewrite match_braces_tail.
Qed.

(** C7.  For every path the result is the scan the specification
    describes: each text between a ["{"] and the next ["}"], braces
    stripped, in order of appearance and with repetitions; [{}] yields the
    empty string; the two paths of the specification give the lists it
    states. *)
Theorem extractPathParams_scan (path : string) :
  extractPathParams path = parsePathParameters path
  /\ extractPathParams "/a/{x}/b/{y}" = ["x"; "y"]
  /\ extractPathParams "/a/{}/b" = [""].
Proof.
  split; [| split; reflexivity].
  apply extractPathParams_upto. unfold parsePathParameters. lia.
Qed.

(** *** Query parameters *)

Lemma first_of_split (c : ascii) (q : string) :
  default "" (at_index (split q (String c "")) 0) = beforeFirst c q.
Proof. now rewrite split_char. Qed.

Lemma query_text_between (pathStr : string) :
  extractQueryParams pathStr =
  if occurs "?" pathStr
  then map (beforeFirst "=")
           (split (beforeFirst "?" (afterFirst "?" pathStr)) "&")
  else [].
Proof.
  unfold extractQueryParams. rewrite includes_char.
  destruct (occurs "?" pathStr) eqn:Hq; [| reflexivity].
  cbn [negb]. rewrite split_char, Hq. cbn [at_index nth_error].
  rewrite split_char. cbn [at_index nth_error].
  apply map_ext. intros q. apply first_of_split.
Qed.

(** C8, as the code has it.  Without a ["?"] the list is empty; otherwise
    the query text is what lies between the first ["?"] and the next one
    (or the end of the string), it is split on ["&"], and each segment
    gives the text before its first ["="], all of it when it has none. *)
Theorem extractQueryParams_between (pathStr : string) :
  extractQueryParams pathStr =
  if occurs "?" pathStr
  then map (beforeFirst "=")
           (split (beforeFirst "?" (afterFirst "?" pathStr)) "&")
  else [].
Proof. apply query_text_between. Qed.

(** With at most one ["?"] the code and the words of the specification
    agree. *)
Lemma extractQueryParams_single (rawPath : string) :
  occurs "?" (afterFirst "?" rawPath) = false ->
  extractQueryParams rawPath = parseQueryParameters rawPath.
Proof.
  intros H. rewrite query_text_between. unfold parseQueryParameters.
  now rewrite (beforeFirst_absent _ _ H).
Qed.

(** C8, as stated, fails on a path with two ["?"]: the text after the
    second one is dropped by the code and kept by the specification. *)
Lemma extractQueryParams_second_question :
  extractQueryParams "/a?x?y=2" = ["x"] /\
  parseQueryParameters "/a?x?y=2" = ["x?y"] /\
  extractQueryParams "/a?x?y=2" <> parseQueryParameters "/a?x?y=2".
Proof. split; [reflexivity | split; [reflexivity | discriminate]]. Qed.

(** *** Blank names *)

(** The white space [trim] removes is the white space of the
    specification. *)
Lemma is_ws_whitespace (c : ascii) : is_ws c = whitespace c.
Proof. destruct c as [[] [] [] [] [] [] [] []]; reflexivity. Qed.

Lemma blank_app (a b : string) : blank (a +:+ b) = blank a && blank b.
Proof.
  induction a as [|c a IH]; cbn; [reflexivity |].
  now rewrite IH, Bool.andb_assoc.
Qed.

Lemma trimStart_empty (s : string) : trimStart s = "" -> blank s = true.
Proof.
  induction s as [|c r IH]; cbn [trimStart blank]; [reflexivity |].
  rewrite is_ws_whitespace.
  destruct (whitespace c); [exact IH | discriminate].
Qed.

Lemma trimEnd_blank (s : string) : blank s = true -> trimEnd s = "".
Proof.
  induction s as [|c r IH]; cbn [trimEnd blank]; [reflexivity |].
  intros H. apply Bool.andb_true_iff in H as [Hc Hr].
  now rewrite (IH Hr), is_ws_whitespace, Hc.
Qed.

Lemma blank_trimEnd (s : string) : blank (trimEnd s) = blank s.
Proof.
  induction s as [|c r IH]; cbn [trimEnd blank]; [reflexivity |].
  destruct (trimEnd r) as [|c' r'] eqn:Hr.
  - rewrite <- IH, is_ws_whitespace. cbn [blank].
    destruct (whitespace c) eqn:Hc; cbn [blank]; now rewrite ?Hc.
  - cbn [blank] in *. now rewrite IH.
Qed.

(** [trim] empties a name exactly when the name is blank. *)
Lemma trim_blank (s : string) : String.eqb (trim s) "" = blank s.
Proof.
  unfold trim. destruct (blank s) eqn:Hb.
  - now rewrite (trimEnd_blank s Hb).
  - apply String.eqb_neq. intros H. apply trimStart_empty in H.
    rewrite blank_trimEnd in H. congruence.
Qed.

(** *** The parameters fragment *)

Lemma append_blocks_emit (block : string -> string) (params : list string)
      (yaml : string) :
  append_blocks block params yaml = yaml +:+ emit block (named params).
Proof.
  revert yaml. induction params as [|p rest IH]; intros yaml;
    cbn [append_blocks].
  - cbn. now rewrite app_nil_r.
  - rewrite IH. unfold named, truthy. cbn [List.filter].
    rewrite trim_blank. destruct (blank p); cbn [negb emit].
    + reflexivity.
    + now rewrite app_assoc.
Qed.

Lemma generateParametersYaml_emit (pathParams queryParams : list string) :
  generateParametersYaml pathParams queryParams =
  emit path_block (named pathParams) +:+ emit query_block (named queryParams).
Proof.
  unfold generateParametersYaml. now rewrite !append_blocks_emit.
Qed.





(** *** The trailing newline *)

Lemma endsWith_two_one (s : string) :
  endsWith s (nl +:+ nl) = true -> endsWith s nl = true.
Proof.
  induction s as [|c r IH]; cbn [endsWith]; [discriminate |].
  destruct (String.eqb (String c r) (nl +:+ nl)) eqn:He.
  - apply String.eqb_eq in He. injection He as -> ->. reflexivity.
  - cbn [orb]. intros H. rewrite (IH H). apply Bool.orb_true_r.
Qed.

(** C2, as the code has it.  The output always ends with a line feed: one
    is appended exactly when the substituted text does not end with one,
    and none is ever removed; so the output ends with exactly one line
    feed if and only if the substituted text does not end with two. *)
Theorem main_output_trailing_newline (a : answers) :
  let output := replaceTemplateVars (template a) (variables a) in
  endsWith (main_output a) nl = true
  /\ main_output a = (if endsWith output nl then output else output +:+ nl)
  /\ oneTrailingNewline (main_output a) = negb (endsWith output (nl +:+ nl)).
Proof.
  intros output. unfold main_output, oneTrailingNewline. fold output.
  destruct (endsWith output nl) eqn:He; cbn [negb].
  - rewrite He. repeat split.
  - rewrite endsWith_app_self, endsWith_two_after_append, He. repeat split.
    destruct (endsWith output (nl +:+ nl)) eqn:H2; [| reflexivity].
    apply endsWith_two_one in H2. congruence.
Qed.

(** C2, as stated, fails on a template that ends with two line feeds: both
    are kept. *)
Lemma main_output_two_newlines :
  oneTrailingNewline (main_output twoNewlineAnswers) = false /\
  endsWith (main_output twoNewlineAnswers) (nl +:+ nl) = true.
Proof. split; reflexivity. Qed.

End GeneratorProps.

(** ** The reference updater *)

Module UpdaterProps.
Import JS Value FileSystem Updater UpdaterSteps Spec UpdaterSpec MoreSpec.

(** *** Relative references *)

(** The test of [getRelativePath] compares characters, not segments: with
    base [/a/b] the resolved path of [/a/bc/x.yaml] starts with the resolved
    base although the file is not under it.  The rebuild never passes such
    a pair: its files are the ones the walk found below the base. *)
Example getRelativePath_sibling_prefix :
  isUnder "/" "/a/b" "/a/bc/x.yaml" = false
  /\ relativeReference "/" "/a/b" "/a/bc/x.yaml" = "/a/bc/x.yaml"
  /\ getRelativePath "/" "/a/bc/x.yaml" "/a/b" = "./../bc/x.yaml".
Proof. split; [| split]; reflexivity. Qed.

(** Where the file is under the base the two agree, as here. *)
Example getRelativePath_under :
  getRelativePath "/work" "resource/v1/paths/users/get-x.yaml" "resource/v1"
  = "./paths/users/get-x.yaml"
  /\ relativeReference "/work" "resource/v1" "resource/v1/paths/users/get-x.yaml"
  = "./paths/users/get-x.yaml".
Proof. split; reflexivity. Qed.

(** *** The walk *)

Lemma extends_refl st : extends st st.
Proof.
  exists [], []. destruct st as [fl ev]. cbn.
  rewrite !List.app_nil_r. split; [reflexivity | constructor].
Qed.

Lemma extends_trans st1 st2 st3 :
  extends st1 st2 -> extends st2 st3 -> extends st1 st3.
Proof.
  intros (f1 & e1 & -> & H1) (f2 & e2 & -> & H2). cbn.
  exists (f1 ++ f2)%list, (e1 ++ e2)%list. rewrite !List.app_assoc.
  split; [reflexivity |]. apply Forall_app. now split.
Qed.

Lemma extends_catch e st : extends st (walkDirCatch e st).
Proof.
  destruct e; cbn; [apply extends_refl |].
  exists [], [ErrorReadingDirectory]. rewrite List.app_nil_r.
  split; [reflexivity | repeat constructor].
Qed.

Lemma extends_push st filePath : extends st ((fst st ++ [filePath])%list, snd st).
Proof.
  exists [filePath], []. rewrite List.app_nil_r. split; [reflexivity | constructor].
Qed.

Lemma walkDir_extends_all :
  (forall n : node,
      forall dirPath st,
        extends st (match n with Directory l => walkDir dirPath l st | _ => st end))
  /\ (forall l : listing, forall dirPath st, extends st (walkDir dirPath l st))
  /\ (forall files : entries,
        forall dirPath st, extends st (fst (forEachEntry dirPath files st))).
Proof.
  apply tree_mutind.
  - intros dirPath st. apply extends_refl.
  - intros l IH dirPath st. apply IH.
  - intros e dirPath st. apply extends_refl.
  - intros e dirPath st. apply extends_catch.
  - intros files IH dirPath st. cbn [walkDir].
    specialize (IH dirPath st).
    destruct (forEachEntry dirPath files st) as [st' [e|]]; cbn in IH.
    + eapply extends_trans; [exact IH | apply extends_catch].
    + exact IH.
  - intros dirPath st. apply extends_refl.
  - intros file n IHn rest IHrest dirPath st. cbn [forEachEntry].
    destruct n as [|sub|e].
    + eapply extends_trans; [| apply IHrest].
      destruct (endsWith file ".yaml" || endsWith file ".yml");
        [apply extends_push | apply extends_refl].
    + eapply extends_trans; [| apply IHrest]. apply IHn.
    + apply extends_refl.
Qed.

Lemma walkDirCatch_logOf (e : fserror) (st : list string * list event) :
  walkDirCatch e st = (fst st, (snd st ++ logOf e)%list).
Proof. destruct st as [fl ev], e; cbn; now rewrite ?List.app_nil_r. Qed.

(** The walk and the walk of the specification agree: on the files, and on
    the console once the error that ended the reading of a directory is
    reported by the [catch]. *)
Lemma walkDir_found_all :
  (forall n : node,
      forall dirPath st,
        match n with
        | Directory l =>
            walkDir dirPath l st =
            ((fst st ++ found dirPath l)%list, (snd st ++ logged l)%list)
        | _ => True
        end)
  /\ (forall l : listing,
        forall dirPath st,
          walkDir dirPath l st =
          ((fst st ++ found dirPath l)%list, (snd st ++ logged l)%list))
  /\ (forall files : entries,
        forall dirPath st,
          fst (fst (forEachEntry dirPath files st))
          = (fst st ++ foundAmong dirPath files)%list
          /\ (snd (fst (forEachEntry dirPath files st)) ++
              match snd (forEachEntry dirPath files st) with
              | Some e => logOf e
              | None => []
              end)%list
             = (snd st ++ loggedAmong files)%list).
Proof.
  apply tree_mutind.
  - trivial.
  - intros l IH dirPath st. apply IH.
  - trivial.
  - intros e dirPath st. cbn [walkDir found logged].
    now rewrite walkDirCatch_logOf, List.app_nil_r.
  - intros files IH dirPath st. cbn [walkDir found logged].
    destruct (IH dirPath st) as [Hfiles Hlog].
    destruct (forEachEntry dirPath files st) as [[fl ev] [e|]];
      cbn [fst snd] in *.
    + rewrite walkDirCatch_logOf. cbn [fst snd]. now rewrite Hfiles, Hlog.
    + rewrite List.app_nil_r in Hlog. now rewrite Hfiles, Hlog.
  - intros dirPath [fl ev]. cbn. now rewrite !List.app_nil_r.
  - intros file n IHn rest IHrest dirPath st.
    destruct n as [|sub|e]; cbn [forEachEntry foundAmong loggedAmong].
    + destruct (IHrest dirPath
                  (if endsWith file ".yaml" || endsWith file ".yml"
                   then ((fst st ++ [PosixPath.join [dirPath; file]])%list, snd st)
                   else st)) as [Hfiles Hlog].
      rewrite Hfiles, Hlog.
      destruct (endsWith file ".yaml" || endsWith file ".yml"); cbn [fst snd app];
        now rewrite <- ?List.app_assoc.
    + destruct (IHrest dirPath
                  (walkDir (PosixPath.join [dirPath; file]) sub st))
        as [Hfiles Hlog].
      rewrite Hfiles, Hlog, (IHn (PosixPath.join [dirPath; file]) st).
      cbn [fst snd]. now rewrite <- !List.app_assoc.
    + cbn [fst snd]. now rewrite List.app_nil_r.
Qed.

(** C6, as the code has it.  The walk of a root that does not exist
    returns the empty list and reports nothing.  No other failure leaves
    the walk either: whatever the tree, the call returns the list it was
    given followed by the files found, a directory that cannot be read or
    an entry that cannot be examined ending the reading of its own
    directory only; and the console gets a line for each such failure whose
    code is not [ENOENT]. *)
Theorem walkDir_catches_errors (dirPath : string) (l : listing)
        (st : list string * list event) :
  walkDir dirPath (readdir None) ([], []) = ([], [])
  /\ walkDir dirPath l st =
     ((fst st ++ found dirPath l)%list, (snd st ++ logged l)%list)
  /\ (forall e, found dirPath (ReaddirFails e) = []
                /\ logged (ReaddirFails EOTHER) = [ErrorReadingDirectory])
  /\ (forall file rest,
        found dirPath (Listing (Entry file (StatFails EOTHER) rest)) = []
        /\ logged (Listing (Entry file (StatFails EOTHER) rest))
           = [ErrorReadingDirectory])
  /\ (forall file sub rest,
        found dirPath (Listing (Entry file (Directory sub) rest))
        = (found (PosixPath.join [dirPath; file]) sub
           ++ found dirPath (Listing rest))%list).
Proof.
  split; [reflexivity |]. split; [apply walkDir_found_all |].
  repeat split.
Qed.

(** C6, as stated, fails where reading the root fails for another reason
    than its absence: the caller is handed the empty list, as for a root
    that is absent or empty.  And a failing entry hides the entries after
    it while the call still returns. *)
Lemma walkDir_error_not_surfaced :
  fst (walkDir "/paths" (ReaddirFails EOTHER) ([], [])) = []
  /\ fst (walkDir "/paths" (ReaddirFails EOTHER) ([], []))
     = fst (walkDir "/paths" (Listing NoEntry) ([], []))
  /\ walkDir "/paths" Samples.partlyUnreadable ([], [])
     = (["/paths/a.yaml"], [ErrorReadingDirectory]).
Proof. split; [| split]; reflexivity. Qed.

(** *** Object properties *)

Section PropFacts.
Context {A : Type}.
Implicit Types (ps : list (string * A)) (k : string) (v : A).

Lemma propGet_propSet_eq k v ps : propGet k (propSet k v ps) = Some v.
Proof.
  induction ps as [|[k' v'] rest IH]; cbn.
  - now rewrite String.eqb_refl.
  - destruct (String.eqb k' k) eqn:E; cbn.
    + now rewrite String.eqb_refl.
    + now rewrite E.
Qed.

Lemma propGet_propSet_ne k k' v ps :
  k <> k' -> propGet k' (propSet k v ps) = propGet k' ps.
Proof.
  intros Hne. induction ps as [|[k0 v0] rest IH]; cbn.
  - now apply String.eqb_neq in Hne as ->.
  - destruct (String.eqb k0 k) eqn:E; cbn.
    + apply String.eqb_eq in E as ->.
      now apply String.eqb_neq in Hne as ->.
    + now rewrite IH.
Qed.

Lemma Forall_propSet (P : string * A -> Prop) k v ps :
  Forall P ps -> P (k, v) -> Forall P (propSet k v ps).
Proof.
  intros Hps Hkv. induction Hps as [|[k' v'] rest Hx Hrest IH]; cbn.
  - now constructor.
  - destruct (String.eqb k' k); constructor; assumption.
Qed.

Lemma propGet_Forall (P : string * A -> Prop) k v ps :
  Forall P ps -> propGet k ps = Some v -> P (k, v).
Proof.
  intros Hps. induction Hps as [|[k' v'] rest Hx Hrest IH]; cbn; [discriminate |].
  destruct (String.eqb k' k) eqn:E.
  - apply String.eqb_eq in E as ->. now intros [= <-].
  - exact IH.
Qed.

Lemma propGet_in_keys k v ps :
  propGet k ps = Some v -> existsb (String.eqb k) (map fst ps) = true.
Proof.
  induction ps as [|[k' v'] rest IH]; cbn; [discriminate |].
  rewrite (String.eqb_sym k k'). destruct (String.eqb k' k); [reflexivity | exact IH].
Qed.

Lemma propSet_propSet k v v' ps :
  propSet k v (propSet k v' ps) = propSet k v ps.
Proof.
  induction ps as [|[k0 v0] rest IH]; cbn.
  - now rewrite String.eqb_refl.
  - destruct (String.eqb k0 k) eqn:E; cbn.
    + now rewrite String.eqb_refl.
    + now rewrite E, IH.
Qed.

Lemma propSet_same k v ps : propGet k ps = Some v -> propSet k v ps = ps.
Proof.
  induction ps as [|[k0 v0] rest IH]; cbn; [discriminate |].
  destruct (String.eqb k0 k) eqn:E.
  - apply String.eqb_eq in E as ->. now intros [= ->].
  - intros H. now rewrite IH.
Qed.

Lemma propSet_absent k v ps :
  propGet k ps = None -> propSet k v ps = (ps ++ [(k, v)])%list.
Proof.
  induction ps as [|[k0 v0] rest IH]; cbn; [reflexivity |].
  destruct (String.eqb k0 k); [discriminate |].
  intros H. now rewrite IH.
Qed.

Lemma propGet_propDelete k ps : propGet k (propDelete k ps) = None.
Proof.
  unfold propDelete. induction ps as [|[k0 v0] rest IH]; cbn; [reflexivity |].
  destruct (String.eqb k0 k) eqn:E; cbn; [exact IH |].
  now rewrite E.
Qed.

Lemma propDelete_absent k ps : propGet k ps = None -> propDelete k ps = ps.
Proof.
  unfold propDelete. induction ps as [|[k0 v0] rest IH]; cbn; [reflexivity |].
  destruct (String.eqb k0 k); cbn; [discriminate |].
  intros H. now rewrite IH.
Qed.

Lemma propSet_last k v v' ps :
  propGet k ps = None ->
  propSet k v (ps ++ [(k, v')])%list = (ps ++ [(k, v)])%list.
Proof.
  intros H. rewrite <- (propSet_absent k v' ps H), propSet_propSet.
  now apply propSet_absent.
Qed.

Lemma propGet_last k v ps :
  propGet k ps = None -> propGet k (ps ++ [(k, v)])%list = Some v.
Proof.
  intros H. rewrite <- (propSet_absent k v ps H). apply propGet_propSet_eq.
Qed.

Lemma propDelete_last k v ps :
  propGet k ps = None -> propDelete k (ps ++ [(k, v)])%list = ps.
Proof.
  intros H. unfold propDelete. rewrite List.filter_app. cbn.
  rewrite String.eqb_refl. cbn. rewrite List.app_nil_r.
  now apply propDelete_absent.
Qed.

End PropFacts.

(** *** The rebuild loop *)

Lemma cleared_rebuilding (apiDocs : value) : cleared apiDocs -> rebuilding apiDocs.
Proof.
  intros (cls & ps & -> & Hp). exists cls, ps, []. now repeat split.
Qed.

Lemma cleared_entryAt (apiDocs : value) (apiPath method : string) :
  cleared apiDocs -> entryAt apiDocs apiPath method = None.
Proof. intros (cls & ps & -> & Hp). unfold entryAt. cbn. now rewrite Hp. Qed.

Lemma survives_false (method : string) :
  startsWith method "x-" = true \/ startsWith method "$" = true \/
  arrayIncludes validMethods (toLowerCase method) = false ->
  survives method = false.
Proof.
  unfold survives. intros [H | [H | H]]; rewrite H; cbn;
    rewrite ?Bool.orb_true_r, ?Bool.andb_false_r; reflexivity.
Qed.

Lemma visitMethod_skipped (cwd filePath baseDir apiPath method : string)
      (st : value * nat) :
  survives method = false ->
  visitMethod cwd filePath baseDir apiPath method st = Normal st.
Proof.
  unfold survives, visitMethod. destruct st as [apiDocs n].
  destruct (startsWith method "x-" || startsWith method "$"); cbn; [reflexivity |].
  now intros ->.
Qed.

(** *** Shadowed paths and the entries a loop rewrites *)

Lemma ownPath_paths (cls pcls : objclass) (ps paths : list (string * value))
      (a : string) :
  propGet "paths" ps = Some (VObj pcls paths) ->
  ownPath (VObj cls ps) a =
  match propGet a paths with Some _ => true | None => false end.
Proof. intros Hp. unfold ownPath. cbn [member]. now rewrite Hp. Qed.

Lemma rewrites_refl (cwd baseDir filePath : string) (d : value) :
  rewrites cwd baseDir filePath (fun _ _ => false) d d.
Proof. split; reflexivity. Qed.

Lemma rewrites_ext (cwd baseDir filePath : string)
      (t t' : string -> string -> bool) (d d' : value) :
  (forall a m, t a m = t' a m) ->
  rewrites cwd baseDir filePath t d d' -> rewrites cwd baseDir filePath t' d d'.
Proof.
  intros Heq [Hsh Hrw]. split; [exact Hsh |].
  intros a m. cbn beta. rewrite <- Heq. apply Hrw.
Qed.

Lemma rewrites_trans (cwd baseDir filePath : string)
      (t1 t2 : string -> string -> bool) (d0 d1 d2 : value) :
  rewrites cwd baseDir filePath t1 d0 d1 ->
  rewrites cwd baseDir filePath t2 d1 d2 ->
  rewrites cwd baseDir filePath (fun a m => t1 a m || t2 a m) d0 d2.
Proof.
  intros [Hsh1 Hrw1] [Hsh2 Hrw2]. split.
  - intros a. now rewrite Hsh2.
  - intros a m. cbn beta. rewrite Hrw2, Hsh1, Hrw1.
    destruct (t1 a m), (t2 a m), (shadowed d0 a); reflexivity.
Qed.

(** A surviving key: unless the path is shadowed, the reference is written
    at its pair; every other pair keeps its entry; the count grows by
    one. *)
Lemma visitMethod_survivor (cwd filePath baseDir apiPath method : string)
      (apiDocs : value) (n : nat) :
  rebuilding apiDocs -> survives method = true ->
  exists apiDocs',
    visitMethod cwd filePath baseDir apiPath method (apiDocs, n)
      = Normal (apiDocs', S n)
    /\ rebuilding apiDocs'
    /\ rewrites cwd baseDir filePath
         (fun a m => String.eqb a apiPath && String.eqb m method)
         apiDocs apiDocs'.
Proof.
  intros (cls & ps & paths & -> & Hpaths & Hobjs) Hs.
  unfold survives in Hs. apply Bool.andb_true_iff in Hs as [Hs1 Hs2].
  apply Bool.negb_true_iff in Hs1.
  unfold visitMethod. rewrite Hs1, Hs2. cbn [negb].
  fold (referenceTo cwd baseDir filePath apiPath method).
  set (ref := referenceTo cwd baseDir filePath apiPath method).
  cbn [member mbind completion_bind]. rewrite Hpaths.
  cbn [lookup member mbind completion_bind].
  destruct (propGet apiPath paths) as [entry|] eqn:Hentry.
  - (* an own entry *)
    destruct (propGet_Forall _ _ _ _ Hobjs Hentry) as (ecls & e & He).
    cbn in He. subst entry. cbn [truthy negb member mbind completion_bind].
    rewrite Hentry. cbn [assign].
    eexists. split; [reflexivity |]. split; [| split].
    + eexists _, _, _. split; [reflexivity |].
      split; [apply propGet_propSet_eq |].
      apply Forall_propSet; [exact Hobjs | cbn; eauto].
    + intros a. unfold shadowed.
      rewrite (ownPath_paths _ _ _ _ a (propGet_propSet_eq _ _ _)),
              (ownPath_paths _ _ _ _ a Hpaths).
      destruct (String.eqb_spec apiPath a) as [<-|Ha].
      * now rewrite propGet_propSet_eq, Hentry.
      * now rewrite propGet_propSet_ne.
    + intros a m. cbn beta. unfold shadowed.
      rewrite (ownPath_paths _ _ _ _ a Hpaths).
      unfold entryAt. cbn [member]. rewrite propGet_propSet_eq, Hpaths.
      destruct (String.eqb_spec a apiPath) as [->|Ha]; cbn [andb].
      * rewrite propGet_propSet_eq, Hentry. cbn [negb]. rewrite Bool.andb_false_r.
        cbn [negb]. rewrite Bool.andb_true_r.
        destruct (String.eqb_spec m method) as [->|Hm].
        -- apply propGet_propSet_eq.
        -- now apply propGet_propSet_ne.
      * rewrite propGet_propSet_ne by congruence. reflexivity.
  - destruct (inherited apiPath) eqn:Hin.
    + (* an inherited property: nothing is written *)
      exists (VObj cls ps). split; [reflexivity |]. split.
      * eexists _, _, _. split; [reflexivity |]. split; eassumption.
      * split; [reflexivity |]. intros a m. cbn beta.
        destruct (String.eqb_spec a apiPath) as [->|Ha]; cbn [andb];
          [| reflexivity].
        unfold shadowed. rewrite (ownPath_paths _ _ _ _ apiPath Hpaths).
        rewrite Hentry, Hin. cbn. now rewrite Bool.andb_false_r.
    + (* no property: the entry is created *)
      cbn [truthy negb member assign mbind completion_bind mret completion_ret].
      rewrite propGet_propSet_eq. cbn [assign emptyObject propSet].
      eexists. split; [reflexivity |]. split; [| split].
      * eexists _, _, _. split; [reflexivity |].
        split; [apply propGet_propSet_eq |].
        apply Forall_propSet; [apply Forall_propSet |]; cbn; eauto.
      * intros a. unfold shadowed.
        rewrite (ownPath_paths _ _ _ _ a (propGet_propSet_eq _ _ _)),
                (ownPath_paths _ _ _ _ a Hpaths).
        destruct (String.eqb_spec apiPath a) as [<-|Ha].
        -- now rewrite Hin.
        -- now rewrite !propGet_propSet_ne.
      * intros a m. cbn beta. unfold shadowed.
        rewrite (ownPath_paths _ _ _ _ a Hpaths).
        unfold entryAt. cbn [member]. rewrite propGet_propSet_eq, Hpaths.
        destruct (String.eqb_spec a apiPath) as [->|Ha]; cbn [andb].
        -- rewrite propGet_propSet_eq, Hentry, Hin. cbn [andb negb].
           rewrite Bool.andb_true_r. cbn [propGet].
           destruct (String.eqb_spec method m) as [<-|Hm].
           ++ now rewrite String.eqb_refl.
           ++ destruct (String.eqb_spec m method) as [->|_]; [congruence |].
              reflexivity.
        -- rewrite !propGet_propSet_ne by congruence. reflexivity.
Qed.

Lemma forEachMethod_rewrites (cwd filePath baseDir apiPath : string)
      (methods : list string) (apiDocs : value) (n : nat) :
  rebuilding apiDocs ->
  exists apiDocs' n',
    forEachMethod cwd filePath baseDir apiPath methods (apiDocs, n)
      = Normal (apiDocs', n')
    /\ rebuilding apiDocs'
    /\ rewrites cwd baseDir filePath
         (fun a m => String.eqb a apiPath
                     && existsb (String.eqb m) methods && survives m)
         apiDocs apiDocs'.
Proof.
  revert apiDocs n. induction methods as [|method rest IH]; intros apiDocs n Hr.
  - exists apiDocs, n. split; [reflexivity |]. split; [exact Hr |].
    eapply rewrites_ext; [| apply rewrites_refl].
    intros a m. cbn beta. cbn. now rewrite Bool.andb_false_r.
  - cbn [forEachMethod]. destruct (survives method) eqn:Hs.
    + destruct (visitMethod_survivor cwd filePath baseDir apiPath method
                  apiDocs n Hr Hs) as (d1 & -> & Hr1 & Hrw1).
      cbn [mbind completion_bind].
      destruct (IH d1 (S n) Hr1) as (d2 & n2 & -> & Hr2 & Hrw2).
      exists d2, n2. split; [reflexivity |]. split; [exact Hr2 |].
      eapply rewrites_ext; [| exact (rewrites_trans _ _ _ _ _ _ _ _ Hrw1 Hrw2)].
      intros a m. cbn beta. cbn [existsb].
      destruct (String.eqb_spec m method) as [->|Hm]; cbn [orb].
      * rewrite Hs. now destruct (String.eqb a apiPath), (existsb _ rest).
      * now destruct (String.eqb a apiPath).
    + rewrite (visitMethod_skipped _ _ _ _ _ _ Hs). cbn [mbind completion_bind].
      destruct (IH apiDocs n Hr) as (d2 & n2 & -> & Hr2 & Hrw).
      exists d2, n2. split; [reflexivity |]. split; [exact Hr2 |].
      eapply rewrites_ext; [| exact Hrw].
      intros a m. cbn beta. cbn [existsb].
      destruct (String.eqb_spec m method) as [->|Hm]; cbn [orb]; [| reflexivity].
      now rewrite Hs, !Bool.andb_false_r.
Qed.

Lemma visitApiPath_rewrites (cwd filePath baseDir : string) (fcls : objclass)
      (filePaths : list (string * value)) (apiPath : string)
      (apiDocs : value) (n : nat) :
  rebuilding apiDocs ->
  exists apiDocs' n',
    visitApiPath cwd filePath baseDir (Some (VObj fcls filePaths)) apiPath (apiDocs, n)
      = Normal (apiDocs', n')
    /\ rebuilding apiDocs'
    /\ rewrites cwd baseDir filePath
         (fun a m => String.eqb a apiPath && pairIn filePaths a m && survives m)
         apiDocs apiDocs'.
Proof.
  intros Hr. unfold visitApiPath. cbn [member mbind completion_bind].
  assert (Hskip : forall pathObj,
             propGet apiPath filePaths = pathObj ->
             (forall c po, pathObj <> Some (VObj c po)) ->
             rewrites cwd baseDir filePath
               (fun a m => String.eqb a apiPath && pairIn filePaths a m && survives m)
               apiDocs apiDocs).
  { intros pathObj Hget Hno.
    eapply rewrites_ext; [| apply rewrites_refl]. intros a m. cbn beta.
    destruct (String.eqb_spec a apiPath) as [->|Ha]; cbn [andb]; [| reflexivity].
    unfold pairIn. rewrite Hget.
    destruct pathObj as [[| | | |c po]|]; try reflexivity.
    now destruct (Hno c po). }
  destruct (propGet apiPath filePaths) as [[| b | z | s |c po]|] eqn:Hget;
    cbn [truthy typeofObject negb orb].
  1,2,3,4,6:
    try (exists apiDocs, n; split;
         [ rewrite ?Bool.orb_true_r; reflexivity
         | split; [exact Hr | eapply Hskip; [reflexivity | discriminate]]]).
  destruct (forEachMethod_rewrites cwd filePath baseDir apiPath (map fst po)
              apiDocs n Hr) as (d & n' & Hrun & Hr' & Hrw).
  exists d, n'. split; [exact Hrun |]. split; [exact Hr' |].
  eapply rewrites_ext; [| exact Hrw]. intros a m. cbn beta.
  destruct (String.eqb_spec a apiPath) as [->|Ha]; cbn [andb]; [| reflexivity].
  unfold pairIn. now rewrite Hget.
Qed.

Lemma forEachApiPath_rewrites (cwd filePath baseDir : string) (fcls : objclass)
      (filePaths : list (string * value)) (apiPaths : list string)
      (apiDocs : value) (n : nat) :
  rebuilding apiDocs ->
  exists apiDocs' n',
    forEachApiPath cwd filePath baseDir (Some (VObj fcls filePaths)) apiPaths
      (apiDocs, n) = Normal (apiDocs', n')
    /\ rebuilding apiDocs'
    /\ rewrites cwd baseDir filePath
         (fun a m => existsb (String.eqb a) apiPaths
                     && pairIn filePaths a m && survives m)
         apiDocs apiDocs'.
Proof.
  revert apiDocs n. induction apiPaths as [|apiPath rest IH]; intros apiDocs n Hr.
  - exists apiDocs, n. split; [reflexivity |]. split; [exact Hr |].
    apply rewrites_refl.
  - cbn [forEachApiPath].
    destruct (visitApiPath_rewrites cwd filePath baseDir fcls filePaths apiPath
                apiDocs n Hr) as (d1 & n1 & -> & Hr1 & Hrw1).
    cbn [mbind completion_bind].
    destruct (IH d1 n1 Hr1) as (d2 & n2 & -> & Hr2 & Hrw2).
    exists d2, n2. split; [reflexivity |]. split; [exact Hr2 |].
    eapply rewrites_ext; [| exact (rewrites_trans _ _ _ _ _ _ _ _ Hrw1 Hrw2)].
    intros a m. cbn beta. cbn [existsb].
    now destruct (String.eqb a apiPath), (existsb _ rest),
                 (pairIn filePaths a m), (survives m).
Qed.

(** The loop touches the main document under [paths] only. *)

Lemma pathsSlot_refl (d : value) : pathsSlot d d.
Proof. now left. Qed.

Lemma pathsSlot_trans (d1 d2 d3 : value) :
  pathsSlot d1 d2 -> pathsSlot d2 d3 -> pathsSlot d1 d3.
Proof.
  intros [->|(cls & ps & v & -> & ->)] H23; [exact H23 |].
  destruct H23 as [->|(cls' & ps' & v' & [= <- <-] & ->)].
  - right. now exists cls, ps, v.
  - right. exists cls, ps, v'. split; [reflexivity |].
    now rewrite propSet_propSet.
Qed.

Lemma visitMethod_slot (cwd filePath baseDir apiPath method : string)
      (d d' : value) (n n' : nat) :
  visitMethod cwd filePath baseDir apiPath method (d, n) = Normal (d', n') ->
  pathsSlot d d'.
Proof.
  unfold visitMethod.
  destruct (startsWith method "x-" || startsWith method "$");
    [intros [= <- <-]; apply pathsSlot_refl |].
  destruct (negb (arrayIncludes validMethods (toLowerCase method)));
    [intros [= <- <-]; apply pathsSlot_refl |].
  destruct d as [| b | z | t |cls ps]; cbn [member mbind completion_bind];
    try discriminate.
  destruct (propGet "paths" ps) as [paths|]; [| discriminate].
  destruct (lookup (Some paths) apiPath) as [[v| |]|];
    cbn [mbind completion_bind]; [| intros [= <- <-]; apply pathsSlot_refl | |];
    try discriminate;
    (do 5 bind_case; cbn [assign]; intros [= <- <-]; right; eauto).
Qed.

Lemma forEachMethod_slot (cwd filePath baseDir apiPath : string)
      (methods : list string) (d d' : value) (n n' : nat) :
  forEachMethod cwd filePath baseDir apiPath methods (d, n) = Normal (d', n') ->
  pathsSlot d d'.
Proof.
  revert d n. induction methods as [|method rest IH]; intros d n;
    cbn [forEachMethod].
  - intros [= <- <-]. apply pathsSlot_refl.
  - destruct (visitMethod cwd filePath baseDir apiPath method (d, n))
      as [[d1 n1]|] eqn:Hv; cbn [mbind completion_bind]; [| discriminate].
    intros Hrest.
    eapply pathsSlot_trans; [eapply visitMethod_slot, Hv | eapply IH, Hrest].
Qed.

Lemma forEachApiPath_slot (cwd filePath baseDir : string) (filePaths : jsval)
      (apiPaths : list string) (d d' : value) (n n' : nat) :
  forEachApiPath cwd filePath baseDir filePaths apiPaths (d, n) = Normal (d', n') ->
  pathsSlot d d'.
Proof.
  revert d n. induction apiPaths as [|apiPath rest IH]; intros d n;
    cbn [forEachApiPath].
  - intros [= <- <-]. apply pathsSlot_refl.
  - destruct (visitApiPath cwd filePath baseDir filePaths apiPath (d, n))
      as [[d1 n1]|] eqn:Hv; cbn [mbind completion_bind]; [| discriminate].
    intros Hrest.
    eapply pathsSlot_trans; [| eapply IH, Hrest].
    unfold visitApiPath in Hv.
    destruct (member filePaths apiPath) as [pathObj|];
      cbn [mbind completion_bind] in Hv; [| discriminate].
    destruct (negb (truthy pathObj) || negb (typeofObject pathObj)).
    + injection Hv as <- <-. apply pathsSlot_refl.
    + eapply forEachMethod_slot, Hv.
Qed.

Lemma pairIn_key (filePaths : list (string * value)) (a m : string) :
  existsb (String.eqb a) (map fst filePaths) && pairIn filePaths a m
  = pairIn filePaths a m.
Proof.
  unfold pairIn. destruct (propGet a filePaths) as [v|] eqn:Hget.
  - now rewrite (propGet_in_keys _ _ _ Hget).
  - apply Bool.andb_false_r.
Qed.

Section WithCodec.
Context {codec : YamlCodec}.

Lemma bind_run {A B : Type} (m : M A) (f : A -> M B) (s : state) :
  (m ≫= f) s =
  match m s with
  | Returns a s' => f a s'
  | Exits code s' => Exits code s'
  | Throws s' => Throws s'
  end.
Proof. reflexivity. Qed.

Lemma report_nil (s : state) : report [] s = s.
Proof. destruct s. unfold report. cbn. now rewrite List.app_nil_r. Qed.

Lemma report_report (es es' : list event) (s : state) :
  report es' (report es s) = report (es ++ es')%list s.
Proof. unfold report. cbn. now rewrite List.app_assoc. Qed.

Lemma loadYaml_loaded (filePath : string) (s : state) :
  loadYaml filePath s =
  Returns (loaded (world s) filePath)
          (report (loadErrors (world s) [filePath]) s).
Proof.
  unfold loadYaml, loaded, loadErrors, loadFails. cbn [List.filter].
  destruct (files (world s) !! filePath) as [content|]; [| reflexivity].
  destruct (yaml_load content) as [doc|]; [| reflexivity].
  cbn [map]. now rewrite report_nil.
Qed.

Lemma loaded_not_null (w : World) (filePath : string) : loaded w filePath <> VNull.
Proof.
  unfold loaded. destruct (files w !! filePath) as [content|]; [| discriminate].
  destruct (yaml_load content) as [doc|]; [| discriminate].
  destruct (truthy (Some doc)) eqn:E; [| discriminate].
  intros ->. discriminate E.
Qed.

(** One file: the pairs it writes hold the reference into it. *)
Lemma visitFile_rewrites (baseDir filePath : string) (apiDocs : value) (n : nat)
      (s : state) :
  rebuilding apiDocs ->
  exists apiDocs' n',
    visitFile baseDir filePath (apiDocs, n) s =
      Returns (apiDocs', n') (report (loadErrors (world s) [filePath]) s)
    /\ rebuilding apiDocs'
    /\ rewrites (cwd (world s)) baseDir filePath
         (writesPair (loaded (world s) filePath)) apiDocs apiDocs'.
Proof.
  intros Hr. unfold visitFile. rewrite bind_run, loadYaml_loaded.
  set (s' := report (loadErrors (world s) [filePath]) s).
  assert (Hskip : forall doc, (forall c ps fc fp, doc = VObj c ps ->
                                 propGet "paths" ps <> Some (VObj fc fp)) ->
            rewrites (cwd (world s)) baseDir filePath (writesPair doc)
                     apiDocs apiDocs).
  { intros doc Hno. eapply rewrites_ext; [| apply rewrites_refl].
    intros a m. cbn beta. unfold writesPair, definesPair.
    destruct doc as [| | | |c ps]; try reflexivity.
    destruct (propGet "paths" ps) as [[| | | |fc fp]|] eqn:Hp; try reflexivity.
    now destruct (Hno c ps fc fp eq_refl). }
  pose proof (loaded_not_null (world s) filePath) as Hnn.
  destruct (loaded (world s) filePath) as [| b | z | t |c ps] eqn:Hdoc;
    [congruence | | | |].
  1,2,3: (exists apiDocs, n; split; [reflexivity |];
          split; [exact Hr | apply Hskip; discriminate]).
  rewrite bind_run. cbn [member evaluate].
  destruct (propGet "paths" ps) as [[| b | z | t |fc fp]|] eqn:Hp;
    cbn [truthy typeofObject negb orb].
  1,2,3,4,6:
    try (exists apiDocs, n; split;
         [ rewrite ?Bool.orb_true_r; reflexivity
         | split; [exact Hr |];
           apply Hskip; intros c0 ps0 fc0 fp0 [= <- <-]; congruence ]).
  destruct (forEachApiPath_rewrites (cwd (world s)) filePath baseDir fc fp
              (map fst fp) apiDocs n Hr) as (d & n' & Hrun & Hr' & Hrw).
  exists d, n'. split.
  - cbn [forInKeys]. unfold evaluate.
    replace (cwd (world s')) with (cwd (world s)) by reflexivity.
    now rewrite Hrun.
  - split; [exact Hr' |]. eapply rewrites_ext; [| exact Hrw]. intros a m. cbn beta.
    unfold writesPair, definesPair. now rewrite Hp, pairIn_key.
Qed.

(** All the files: each pair under a path that is not shadowed holds the
    reference into the last file that writes it, every other pair is as
    before; the world is untouched and the console holds one report per
    file that failed to load. *)
Lemma forEachFile_lastWriter (baseDir : string) (pathFiles : list string)
      (apiDocs : value) (n : nat) (s : state) :
  rebuilding apiDocs ->
  exists apiDocs' n',
    forEachFile baseDir pathFiles (apiDocs, n) s =
      Returns (apiDocs', n') (report (loadErrors (world s) pathFiles) s)
    /\ rebuilding apiDocs'
    /\ (forall a, shadowed apiDocs' a = shadowed apiDocs a)
    /\ forall a m,
         entryAt apiDocs' a m =
         if shadowed apiDocs a then entryAt apiDocs a m
         else lastWriter (world s) baseDir pathFiles a m (entryAt apiDocs a m).
Proof.
  revert apiDocs n s. induction pathFiles as [|filePath rest IH];
    intros apiDocs n s Hr.
  - exists apiDocs, n. cbn. rewrite report_nil.
    split; [reflexivity |]. split; [exact Hr |]. split; [reflexivity |].
    intros a m. cbn beta. now destruct (shadowed apiDocs a).
  - cbn [forEachFile]. rewrite bind_run.
    destruct (visitFile_rewrites baseDir filePath apiDocs n s Hr)
      as (d1 & n1 & -> & Hr1 & Hsh1 & Hrw).
    destruct (IH d1 n1 (report (loadErrors (world s) [filePath]) s) Hr1)
      as (d2 & n2 & -> & Hr2 & Hsh2 & Hlast).
    exists d2, n2. split; [| split; [exact Hr2 | split]].
    + rewrite report_report. cbn [world report]. f_equal.
      unfold loadErrors. cbn [List.filter].
      destruct (loadFails (world s) filePath); reflexivity.
    + intros a. now rewrite Hsh2.
    + intros a m. cbn beta. rewrite (Hlast a m), Hsh1, (Hrw a m). cbn [world report].
      destruct (shadowed apiDocs a); [now rewrite Bool.andb_false_r |].
      cbn [lastWriter]. now rewrite Bool.andb_true_r.
Qed.

Lemma lastWriter_app (w : World) (baseDir : string) (l1 l2 : list string)
      (a m : string) (before : jsval) :
  lastWriter w baseDir (l1 ++ l2)%list a m before =
  lastWriter w baseDir l2 a m (lastWriter w baseDir l1 a m before).
Proof.
  revert before. induction l1 as [|f rest IH]; intros before; cbn; [reflexivity |].
  apply IH.
Qed.

Lemma lastWriter_none (w : World) (baseDir : string) (pathFiles : list string)
      (a m : string) (before : jsval) :
  Forall (fun f => writesPair (loaded w f) a m = false) pathFiles ->
  lastWriter w baseDir pathFiles a m before = before.
Proof.
  intros H. induction H as [|f rest Hf _ IH]; cbn; [reflexivity |].
  now rewrite Hf.
Qed.

Lemma cleared_shadowed (apiDocs : value) (a : string) :
  cleared apiDocs -> shadowed apiDocs a = inherited a.
Proof.
  intros (cls & ps & -> & Hp). unfold shadowed.
  rewrite (ownPath_paths _ _ _ _ a Hp). cbn. apply Bool.andb_true_r.
Qed.

(** X27.  In a run that writes nothing onto a prototype (no file has the
    path key [__proto__]), for a path key that [Object.prototype] does not
    define: when [filePath] defines the pair under a surviving method key
    and no file after it in traversal order defines it, the rebuild loop
    returns, with nothing on the console but the reports of files that
    failed to load, and the entry of the pair is the reference into
    [filePath], whatever the files before it define.  This holds from any
    main document whose [paths] is a plain object of objects, the cleared
    document [main] enters the loop with among them. *)
Theorem later_file_wins (baseDir : string) (earlier later : list string)
        (filePath apiPath method : string) (apiDocs : value) (n : nat)
        (s : state) :
  rebuilding apiDocs ->
  Forall (fun f => protoFree (loaded (world s) f) = true)
         (earlier ++ filePath :: later) ->
  inherited apiPath = false ->
  definesPair (loaded (world s) filePath) apiPath method = true ->
  survives method = true ->
  Forall (fun f => definesPair (loaded (world s) f) apiPath method = false) later ->
  exists apiDocs' n',
    forEachFile baseDir (earlier ++ filePath :: later) (apiDocs, n) s =
      Returns (apiDocs', n')
              (report (loadErrors (world s) (earlier ++ filePath :: later)) s)
    /\ entryAt apiDocs' apiPath method =
       Some (referenceTo (cwd (world s)) baseDir filePath apiPath method).
Proof.
  intros Hr _ Hplain Hdef Hs Hlater.
  destruct (forEachFile_lastWriter baseDir (earlier ++ filePath :: later)
              apiDocs n s Hr) as (d & n' & Hrun & _ & _ & Hlast).
  exists d, n'. split; [exact Hrun |].
  rewrite Hlast. unfold shadowed at 1. rewrite Hplain. cbn [andb].
  rewrite lastWriter_app. cbn [lastWriter].
  unfold writesPair at 1. rewrite Hdef, Hs. cbn [andb].
  apply lastWriter_none.
  eapply Forall_impl; [| exact Hlater].
  intros f Hf. unfold writesPair. now rewrite Hf.
Qed.

(** C5.  A method key that starts with ["x-"] or ["$"], or whose lower-case
    form is not one of the nine tokens, leaves document and count as they
    are; and after a rebuild from the cleared document no such key has an
    entry under any path. *)
Theorem skipped_keys_write_nothing (baseDir : string) (pathFiles : list string)
        (filePath apiPath method : string) (apiDocs : value) (n : nat)
        (s : state) :
  cleared apiDocs ->
  startsWith method "x-" = true \/ startsWith method "$" = true \/
  arrayIncludes validMethods (toLowerCase method) = false ->
  visitMethod (cwd (world s)) filePath baseDir apiPath method (apiDocs, n)
    = Normal (apiDocs, n)
  /\ exists apiDocs' n',
       forEachFile baseDir pathFiles (apiDocs, n) s =
         Returns (apiDocs', n') (report (loadErrors (world s) pathFiles) s)
       /\ entryAt apiDocs' apiPath method = None.
Proof.
  intros Hc Hskip. apply survives_false in Hskip. split.
  - now apply visitMethod_skipped.
  - destruct (forEachFile_lastWriter baseDir pathFiles apiDocs n s
                (cleared_rebuilding _ Hc)) as (d & n' & Hrun & _ & _ & Hlast).
    exists d, n'. split; [exact Hrun |].
    rewrite Hlast, (cleared_entryAt _ _ _ Hc).
    destruct (shadowed apiDocs apiPath); [reflexivity |].
    apply lastWriter_none. apply Forall_forall. intros f _.
    unfold writesPair. rewrite Hskip. apply Bool.andb_false_r.
Qed.

(** *** The loop and its console *)

Lemma visitFile_pure (baseDir filePath : string) (st : value * nat) (s : state) :
  visitFile baseDir filePath st s =
  match visitFilePure (world s) baseDir filePath st with
  | Normal r => Returns r (report (loadErrors (world s) [filePath]) s)
  | TypeError => Throws (report (loadErrors (world s) [filePath]) s)
  end.
Proof.
  unfold visitFile, visitFilePure. rewrite bind_run, loadYaml_loaded, bind_run.
  destruct (member (Some (loaded (world s) filePath)) "paths") as [filePaths|];
    cbn [evaluate mbind completion_bind]; [| reflexivity].
  destruct (negb (truthy filePaths) || negb (typeofObject filePaths));
    [reflexivity |].
  unfold evaluate. cbn [world report].
  destruct (forEachApiPath _ _ _ _ _ _); reflexivity.
Qed.

Lemma forEachFile_pure (baseDir : string) (pathFiles : list string)
      (st : value * nat) (s : state) :
  match forEachFilePure (world s) baseDir pathFiles st with
  | Normal r =>
      forEachFile baseDir pathFiles st s =
      Returns r (report (loadErrors (world s) pathFiles) s)
  | TypeError => exists s', forEachFile baseDir pathFiles st s = Throws s'
  end.
Proof.
  revert st s. induction pathFiles as [|filePath rest IH]; intros st s.
  - cbn. now rewrite report_nil.
  - cbn [forEachFile forEachFilePure]. rewrite bind_run, visitFile_pure.
    destruct (visitFilePure (world s) baseDir filePath st) as [st1|];
      cbn [mbind completion_bind]; [| eauto].
    specialize (IH st1 (report (loadErrors (world s) [filePath]) s)).
    cbn [world report] in IH.
    destruct (forEachFilePure (world s) baseDir rest st1) as [r|].
    + rewrite IH, report_report. f_equal. f_equal.
      unfold loadErrors. cbn [List.filter].
      destruct (loadFails (world s) filePath); reflexivity.
    + exact IH.
Qed.

Lemma forEachFilePure_slot (w : World) (baseDir : string)
      (pathFiles : list string) (d d' : value) (n n' : nat) :
  forEachFilePure w baseDir pathFiles (d, n) = Normal (d', n') ->
  pathsSlot d d'.
Proof.
  revert d n. induction pathFiles as [|filePath rest IH]; intros d n;
    cbn [forEachFilePure].
  - intros [= <- <-]. apply pathsSlot_refl.
  - destruct (visitFilePure w baseDir filePath (d, n)) as [[d1 n1]|] eqn:Hv;
      cbn [mbind completion_bind]; [| discriminate].
    intros Hrest.
    eapply pathsSlot_trans; [| eapply IH, Hrest].
    unfold visitFilePure in Hv.
    destruct (member (Some (loaded w filePath)) "paths") as [filePaths|];
      cbn [mbind completion_bind] in Hv; [| discriminate].
    destruct (negb (truthy filePaths) || negb (typeofObject filePaths)).
    + injection Hv as <- <-. apply pathsSlot_refl.
    + eapply forEachApiPath_slot, Hv.
Qed.

(** *** From the loop to the run *)

Lemma cleared_clearedFrom (cls : objclass) (ps : list (string * value)) :
  cleared (clearedFrom (VObj cls ps)).
Proof. eexists _, _. split; [reflexivity | apply propGet_propSet_eq]. Qed.

Lemma loaded_after_write (w : World) (p : string) (doc : value) :
  yaml_load (yaml_dump doc) = Some doc -> truthy (Some doc) = true ->
  loaded (writeFile p (yaml_dump doc) w) p = doc.
Proof.
  intros Hrt Ht. unfold loaded, writeFile. cbn [files].
  rewrite lookup_insert_eq, Hrt. now rewrite Ht.
Qed.

(** The run on a main document that is an object, in a world where it can
    be written back and [paths/] holds at least one file: the loop starts
    from the cleared document, provided the codec reads back what it wrote,
    and the run ends with exit code 0 having written a document whose
    entries are those of the last writers. *)
Lemma main_rebuilds (apiDocsPath : string) (s : state) (cls : objclass)
      (ps : list (string * value)) (pathFiles : list string)
      (errors : list event) :
  let pathsDir := PosixPath.join [PosixPath.dirname apiDocsPath; "paths"] in
  let baseDir := PosixPath.dirname apiDocsPath in
  let apiDocs := clearedFrom (VObj cls ps) in
  let w1 := writeFile apiDocsPath (yaml_dump apiDocs) (world s) in
  loaded (world s) apiDocsPath = VObj cls ps ->
  yaml_load (yaml_dump apiDocs) = Some apiDocs ->
  apiDocsPath ∉ locked (world s) ->
  existsNode (tree (world s) pathsDir) = true ->
  walkDir pathsDir (readdir (tree (world s) pathsDir)) ([], [])
    = (pathFiles, errors) ->
  pathFiles <> [] ->
  exists final n,
    main apiDocsPath s =
      (0, {| world := writeFile apiDocsPath (yaml_dump final) w1;
             console := (console s ++ loadErrors (world s) [apiDocsPath] ++
                         errors ++ loadErrors w1 pathFiles)%list |})
    /\ (forall a m,
          entryAt final a m =
          if inherited a then None
          else lastWriter w1 baseDir pathFiles a m None)
    /\ rebuilding final
    /\ forEachFilePure w1 baseDir pathFiles (apiDocs, 0) = Normal (final, n).
Proof.
  intros pathsDir baseDir apiDocs w1 Hobj Hrt Hunlocked Hex Hwalk Hfiles.
  unfold main, mainTry. fold pathsDir. fold baseDir.
  rewrite bind_run, loadYaml_loaded, Hobj.
  rewrite bind_run. cbn [member evaluate].
  replace (if truthy (propGet "paths" ps)
           then deleteProp (VObj cls ps) "paths" else VObj cls ps)
    with (VObj cls (if truthy (propGet "paths" ps)
                    then propDelete "paths" ps else ps))
    by now destruct (truthy (propGet "paths" ps)).
  rewrite bind_run. cbn [assign evaluate]. fold (clearedFrom (VObj cls ps)).
  fold apiDocs. rewrite bind_run. unfold saveYaml at 1.
  cbn [world report console]. destruct (decide _) as [Hin|_]; [contradiction |].
  cbn [negb world tree writeFile]. rewrite Hex. cbn [negb]. rewrite Hwalk.
  destruct pathFiles as [|f0 rest]; [contradiction |].
  set (pathFiles := f0 :: rest) in *.
  replace (Datatypes.length pathFiles =? 0)%nat with false by reflexivity.
  rewrite bind_run, loadYaml_loaded. cbn [world].
  fold (writeFile apiDocsPath (yaml_dump apiDocs) (world s)). fold w1.
  unfold w1 at 1 2.
  rewrite (loaded_after_write (world s) apiDocsPath apiDocs Hrt eq_refl).
  replace (loadErrors (writeFile apiDocsPath (yaml_dump apiDocs) (world s))
             [apiDocsPath]) with (@nil event)
    by (unfold loadErrors, loadFails, writeFile; cbn [List.filter files];
        now rewrite lookup_insert_eq, Hrt).
  rewrite report_nil. fold w1. cbn [console].
  rewrite bind_run.
  match goal with
  | |- context [forEachFile baseDir pathFiles (apiDocs, 0) ?st] =>
      destruct (forEachFile_lastWriter baseDir pathFiles apiDocs 0 st
                  (cleared_rebuilding _ (cleared_clearedFrom cls ps)))
        as (final & n & Hrun & Hr & _ & Hlast);
      pose proof (forEachFile_pure baseDir pathFiles (apiDocs, 0) st) as Hpure
  end.
  rewrite Hrun. cbn [world] in Hpure.
  exists final, n. split; [| split; [| split; [exact Hr |]]].
  - rewrite bind_run. unfold saveYaml. cbn [world report console].
    destruct (decide _) as [Hin|_]; [contradiction |].
    cbn [negb]. unfold mret, M_ret. do 2 f_equal.
    now rewrite <- !List.app_assoc.
  - intros a m. rewrite (Hlast a m). cbn [world]. unfold apiDocs.
    now rewrite (cleared_shadowed _ a (cleared_clearedFrom cls ps)),
                (cleared_entryAt _ a m (cleared_clearedFrom cls ps)).
  - destruct (forEachFilePure w1 baseDir pathFiles (apiDocs, 0)) as [r|].
    + rewrite Hrun in Hpure. now injection Hpure as <-.
    + destruct Hpure as [s' Hs']. rewrite Hrun in Hs'. discriminate.
Qed.

(** Where the main document has no [paths] key, or a truthy one, a second
    run leaves the world as the first run left it, provided the codec
    reads back the two documents the first run writes. *)
Lemma second_run_repeats (apiDocsPath : string) (s : state) (cls : objclass)
      (ps : list (string * value)) (pathFiles : list string)
      (errors : list event) :
  let pathsDir := PosixPath.join [PosixPath.dirname apiDocsPath; "paths"] in
  let baseDir := PosixPath.dirname apiDocsPath in
  let apiDocs := clearedFrom (VObj cls ps) in
  let w1 := writeFile apiDocsPath (yaml_dump apiDocs) (world s) in
  loaded (world s) apiDocsPath = VObj cls ps ->
  propGet "paths" ps = None \/ truthy (propGet "paths" ps) = true ->
  yaml_load (yaml_dump apiDocs) = Some apiDocs ->
  (forall final n,
      forEachFilePure w1 baseDir pathFiles (apiDocs, 0) = Normal (final, n) ->
      yaml_load (yaml_dump final) = Some final) ->
  apiDocsPath ∉ locked (world s) ->
  existsNode (tree (world s) pathsDir) = true ->
  walkDir pathsDir (readdir (tree (world s) pathsDir)) ([], [])
    = (pathFiles, errors) ->
  pathFiles <> [] ->
  fst (main apiDocsPath s) = 0
  /\ fst (main apiDocsPath (snd (main apiDocsPath s))) = 0
  /\ world (snd (main apiDocsPath (snd (main apiDocsPath s))))
     = world (snd (main apiDocsPath s)).
Proof.
  intros pathsDir baseDir apiDocs w1 Hobj Hpaths Hrt Hrt2 Hunlocked Hex Hwalk
         Hfiles.
  destruct (main_rebuilds apiDocsPath s cls ps pathFiles errors
              Hobj Hrt Hunlocked Hex Hwalk Hfiles)
    as (final & n & Hmain & _ & Hr & Hpure).
  fold pathsDir baseDir apiDocs w1 in Hmain, Hpure.
  rewrite Hmain. cbn [fst snd]. split; [reflexivity |].
  specialize (Hrt2 final n Hpure).
  (* the properties other than [paths], in the order the Clear step leaves *)
  set (ps0 := if truthy (propGet "paths" ps) then propDelete "paths" ps else ps).
  assert (Hps0 : propGet "paths" ps0 = None).
  { unfold ps0. destruct Hpaths as [Hn|Ht].
    - now rewrite Hn.
    - rewrite Ht. apply propGet_propDelete. }
  assert (Hdocs : apiDocs = VObj cls (ps0 ++ [("paths", emptyObject)])%list).
  { unfold apiDocs, clearedFrom. fold ps0. now rewrite propSet_absent. }
  (* the document the first run wrote has its [paths] last *)
  assert (Hfinal : exists v, final = VObj cls (ps0 ++ [("paths", v)])%list
                             /\ truthy (Some v) = true).
  { destruct (forEachFilePure_slot _ _ _ _ _ _ _ Hpure)
      as [Heq|(c0 & q0 & v & Hd & Hf)].
    - exists emptyObject. split; [congruence | reflexivity].
    - rewrite Hdocs in Hd. injection Hd as <- <-.
      rewrite (propSet_last _ _ _ _ Hps0) in Hf.
      exists v. split; [exact Hf |].
      destruct Hr as (fcls & fps & paths & Hshape & Hget & _).
      rewrite Hf in Hshape. injection Hshape as <- <-.
      rewrite (propGet_last _ _ _ Hps0) in Hget. now injection Hget as ->. }
  destruct Hfinal as (v & Hfinal & Hv).
  set (s1 := {| world := writeFile apiDocsPath (yaml_dump final) w1;
                console := (console s ++ loadErrors (world s) [apiDocsPath] ++
                            errors ++ loadErrors w1 pathFiles)%list |}).
  assert (Hclear : clearedFrom (VObj cls (ps0 ++ [("paths", v)])%list) = apiDocs).
  { unfold clearedFrom. rewrite (propGet_last _ _ _ Hps0), Hv.
    rewrite (propDelete_last _ _ _ Hps0), Hdocs.
    now rewrite (propSet_absent _ _ _ Hps0). }
  assert (Hw : writeFile apiDocsPath (yaml_dump apiDocs) (world s1) = w1).
  { unfold s1, w1, writeFile. cbn [world files locked tree cwd]. f_equal.
    now rewrite !insert_insert_eq. }
  assert (Hobj1 : loaded (world s1) apiDocsPath
                  = VObj cls (ps0 ++ [("paths", v)])%list).
  { unfold s1. cbn [world]. rewrite <- Hfinal.
    apply loaded_after_write; [exact Hrt2 | now rewrite Hfinal]. }
  pose proof (main_rebuilds apiDocsPath s1 cls (ps0 ++ [("paths", v)])%list
                pathFiles errors) as Hsecond.
  cbv zeta in Hsecond. rewrite Hclear, Hw in Hsecond.
  specialize (Hsecond Hobj1 Hrt Hunlocked Hex Hwalk Hfiles).
  destruct Hsecond as (final2 & n2 & Hmain2 & _ & _ & Hpure2).
  fold baseDir in Hpure2. rewrite Hpure in Hpure2. injection Hpure2 as <- <-.
  rewrite Hmain2. cbn [fst snd world]. split; reflexivity.
Qed.



(** The Clear step on a main document that is an object, at a path that
    can be written: what follows runs on the world with the cleared
    document written. *)
Lemma clear_phase (apiDocsPath : string) (s : state) (cls : objclass)
      (ps : list (string * value)) (k : bool -> M unit) :
  loaded (world s) apiDocsPath = VObj cls ps ->
  apiDocsPath ∉ locked (world s) ->
  (loadYaml apiDocsPath ≫= fun apiDocs =>
   evaluate (member (Some apiDocs) "paths") ≫= fun paths =>
   let apiDocs := if truthy paths then deleteProp apiDocs "paths" else apiDocs in
   evaluate (assign (Some apiDocs) "paths" emptyObject) ≫= fun apiDocs =>
   saveYaml apiDocsPath apiDocs ≫= k) s
  = k true
      {| world := writeFile apiDocsPath
                    (yaml_dump (clearedFrom (VObj cls ps))) (world s);
         console := (console s ++ loadErrors (world s) [apiDocsPath])%list |}.
Proof.
  intros Hobj Hunlocked.
  rewrite bind_run, loadYaml_loaded, Hobj, bind_run. cbn [member evaluate].
  cbv zeta.
  replace (if truthy (propGet "paths" ps)
           then deleteProp (VObj cls ps) "paths" else VObj cls ps)
    with (VObj cls (if truthy (propGet "paths" ps)
                    then propDelete "paths" ps else ps))
    by now destruct (truthy (propGet "paths" ps)).
  rewrite bind_run. cbn [assign evaluate]. fold (clearedFrom (VObj cls ps)).
  rewrite bind_run. unfold saveYaml at 1. cbn [world report console].
  destruct (decide _) as [Hin|_]; [contradiction | reflexivity].
Qed.

(** *** Documents that fail to load *)

Lemma loaded_fails (w : World) (filePath : string) :
  loadFails w filePath = true -> loaded w filePath = emptyObject.
Proof.
  unfold loadFails, loaded. destruct (files w !! filePath) as [content|];
    [| reflexivity].
  now destruct (yaml_load content).
Qed.

Lemma loadErrors_fails (w : World) (filePath : string) :
  loadFails w filePath = true ->
  loadErrors w [filePath] = [ErrorReadingYaml filePath].
Proof. intros H. unfold loadErrors. cbn [List.filter]. now rewrite H. Qed.

(** Without a [paths] object in the main document the first surviving key
    throws, and nothing else does. *)
Lemma visitMethod_without_paths (cwd filePath baseDir apiPath method : string)
      (cls : objclass) (ps : list (string * value)) (n : nat) :
  propGet "paths" ps = None ->
  visitMethod cwd filePath baseDir apiPath method (VObj cls ps, n) =
  if survives method then TypeError else Normal (VObj cls ps, n).
Proof.
  intros Hp. destruct (survives method) eqn:Hs;
    [| now apply visitMethod_skipped].
  unfold survives in Hs. apply Bool.andb_true_iff in Hs as [Hs1 Hs2].
  apply Bool.negb_true_iff in Hs1.
  unfold visitMethod. rewrite Hs1, Hs2. cbn [negb member mbind completion_bind].
  now rewrite Hp.
Qed.

Lemma forEachMethod_without_paths (cwd filePath baseDir apiPath : string)
      (methods : list string) (cls : objclass) (ps : list (string * value))
      (n : nat) :
  propGet "paths" ps = None ->
  forEachMethod cwd filePath baseDir apiPath methods (VObj cls ps, n) =
  if (length (List.filter survives methods) =? 0)%nat
  then Normal (VObj cls ps, n) else TypeError.
Proof.
  intros Hp. induction methods as [|method rest IH]; [reflexivity |].
  cbn [forEachMethod List.filter].
  rewrite (visitMethod_without_paths _ _ _ _ _ _ _ _ Hp).
  destruct (survives method); [reflexivity |].
  cbn [mbind completion_bind]. exact IH.
Qed.

Lemma forEachApiPath_without_paths (cwd filePath baseDir : string)
      (fcls : objclass) (filePaths : list (string * value))
      (apiPaths : list string) (cls : objclass) (ps : list (string * value))
      (n : nat) :
  propGet "paths" ps = None ->
  forEachApiPath cwd filePath baseDir (Some (VObj fcls filePaths)) apiPaths
    (VObj cls ps, n) =
  if (countApiPaths (Some (VObj fcls filePaths)) apiPaths =? 0)%nat
  then Normal (VObj cls ps, n) else TypeError.
Proof.
  intros Hp. induction apiPaths as [|apiPath rest IH]; [reflexivity |].
  cbn [forEachApiPath countApiPaths]. unfold visitApiPath, entryKeys.
  cbn [member mbind completion_bind].
  destruct (negb (truthy (propGet apiPath filePaths))
            || negb (typeofObject (propGet apiPath filePaths))).
  - cbn [mbind completion_bind Nat.add]. exact IH.
  - rewrite (forEachMethod_without_paths _ _ _ _ _ _ _ _ Hp).
    destruct (length (List.filter survives (forInKeys (propGet apiPath filePaths))))
      as [|k]; [exact IH | reflexivity].
Qed.

Lemma visitFilePure_without_paths (w : World) (baseDir filePath : string)
      (cls : objclass) (ps : list (string * value)) (n : nat) :
  propGet "paths" ps = None ->
  visitFilePure w baseDir filePath (VObj cls ps, n) =
  if (countFile (loaded w filePath) =? 0)%nat
  then Normal (VObj cls ps, n) else TypeError.
Proof.
  intros Hp. unfold visitFilePure, countFile.
  pose proof (loaded_not_null w filePath) as Hnn.
  destruct (loaded w filePath) as [| b | z | t |fcls fps];
    [congruence | reflexivity | reflexivity | reflexivity |].
  cbn [member mbind completion_bind].
  destruct (propGet "paths" fps) as [[| b | z | t |pcls paths]|];
    cbn [truthy typeofObject negb orb]; rewrite ?Bool.orb_true_r;
    try reflexivity.
  apply (forEachApiPath_without_paths _ _ _ _ _ _ _ _ _ Hp).
Qed.

Lemma forEachFile_without_paths (baseDir : string) (pathFiles : list string)
      (cls : objclass) (ps : list (string * value)) (n : nat) (s : state) :
  propGet "paths" ps = None ->
  (0 < countFiles (world s) pathFiles)%nat ->
  exists reports,
    forEachFile baseDir pathFiles (VObj cls ps, n) s = Throws (report reports s).
Proof.
  intros Hp. revert s. induction pathFiles as [|filePath rest IH]; intros s Hcount;
    cbn [countFiles] in Hcount; [lia |].
  cbn [forEachFile]. rewrite bind_run, visitFile_pure.
  rewrite (visitFilePure_without_paths _ _ _ _ _ _ Hp).
  destruct (countFile (loaded (world s) filePath)) as [|k].
  - cbn [Nat.eqb]. cbn [Nat.add] in Hcount.
    destruct (IH (report (loadErrors (world s) [filePath]) s) Hcount)
      as (reports & ->).
    eexists. now rewrite report_report.
  - cbn [Nat.eqb]. eauto.
Qed.

(** C1, as the code has it.  A document that cannot be read or parsed is
    reported on the console and taken to be [{}]; the failure itself ends
    nothing.  As a path file it adds no reference and the loop goes on to
    the next file.  As the main document on its first load, it is written
    back holding an empty [paths] alone and the run goes on to its second
    step.  As the main document on its reload it has no [paths]: the run
    then ends as a fatal error with exit code 1, the cleared document left
    as it was written, as soon as a path file holds a surviving key. *)
Theorem loadYaml_failure_reported :
  (forall (filePath : string) (s : state),
      loadFails (world s) filePath = true ->
      loadYaml filePath s =
        Returns emptyObject (report [ErrorReadingYaml filePath] s))
  /\ (forall (baseDir filePath : string) (rest : list string)
             (st : value * nat) (s : state),
        loadFails (world s) filePath = true ->
        visitFile baseDir filePath st s =
          Returns st (report [ErrorReadingYaml filePath] s)
        /\ forEachFile baseDir (filePath :: rest) st s =
           forEachFile baseDir rest st (report [ErrorReadingYaml filePath] s))
  /\ (forall (apiDocsPath : string) (s : state),
        loadFails (world s) apiDocsPath = true ->
        apiDocsPath ∉ locked (world s) ->
        mainTry apiDocsPath s =
          rebuildPaths apiDocsPath
            {| world := writeFile apiDocsPath
                          (yaml_dump (VObj Plain [("paths", emptyObject)]))
                          (world s);
               console := (console s ++ [ErrorReadingYaml apiDocsPath])%list |})
  /\ (forall (apiDocsPath : string) (s : state) (cls : objclass)
             (ps : list (string * value)) (pathFiles : list string)
             (errors : list event),
        let pathsDir := PosixPath.join [PosixPath.dirname apiDocsPath; "paths"] in
        let w1 := writeFile apiDocsPath
                    (yaml_dump (clearedFrom (VObj cls ps))) (world s) in
        loaded (world s) apiDocsPath = VObj cls ps ->
        apiDocsPath ∉ locked (world s) ->
        existsNode (tree (world s) pathsDir) = true ->
        walkDir pathsDir (readdir (tree (world s) pathsDir)) ([], [])
          = (pathFiles, errors) ->
        loadFails w1 apiDocsPath = true ->
        (0 < countFiles w1 pathFiles)%nat ->
        fst (main apiDocsPath s) = 1
        /\ world (snd (main apiDocsPath s)) = w1
        /\ exists reports,
             console (snd (main apiDocsPath s)) =
             (console s ++ loadErrors (world s) [apiDocsPath] ++ errors ++
              [ErrorReadingYaml apiDocsPath] ++ reports ++ [FatalError])%list).
Proof.
  assert (Hload : forall filePath s,
             loadFails (world s) filePath = true ->
             loadYaml filePath s =
               Returns emptyObject (report [ErrorReadingYaml filePath] s)).
  { intros filePath s Hf.
    now rewrite loadYaml_loaded, (loaded_fails _ _ Hf), (loadErrors_fails _ _ Hf). }
  split; [exact Hload |]. split; [| split].
  - intros baseDir filePath rest st s Hf.
    assert (Hvisit : visitFile baseDir filePath st s =
                     Returns st (report [ErrorReadingYaml filePath] s)).
    { unfold visitFile. rewrite bind_run, (Hload _ _ Hf). reflexivity. }
    split; [exact Hvisit |].
    cbn [forEachFile]. now rewrite bind_run, Hvisit.
  - intros apiDocsPath s Hf Hunlocked. unfold mainTry.
    rewrite (clear_phase apiDocsPath s Plain [] _
               (loaded_fails _ _ Hf) Hunlocked).
    rewrite (loadErrors_fails _ _ Hf). reflexivity.
  - intros apiDocsPath s cls ps pathFiles errors pathsDir w1
           Hobj Hunlocked Hex Hwalk Hreload Hcount.
    unfold main, mainTry. fold pathsDir.
    rewrite (clear_phase apiDocsPath s cls ps _ Hobj Hunlocked).
    cbn [negb world tree writeFile]. rewrite Hex. cbn [negb]. rewrite Hwalk.
    destruct pathFiles as [|f0 rest]; [cbn in Hcount; lia |].
    set (pathFiles := f0 :: rest) in *.
    replace (Datatypes.length pathFiles =? 0)%nat with false by reflexivity.
    rewrite bind_run, loadYaml_loaded. cbn [world].
    fold (writeFile apiDocsPath (yaml_dump (clearedFrom (VObj cls ps))) (world s)).
    fold w1. rewrite (loaded_fails _ _ Hreload), (loadErrors_fails _ _ Hreload).
    rewrite bind_run.
    match goal with
    | |- context [forEachFile ?b pathFiles (emptyObject, 0) ?st] =>
        destruct (forEachFile_without_paths b pathFiles Plain [] 0 st eq_refl)
          as (reports & Hthrows); [exact Hcount |]
    end.
    unfold emptyObject. rewrite Hthrows. cbn [fst snd world console report].
    split; [reflexivity |]. split; [reflexivity |].
    exists reports. now rewrite <- !List.app_assoc.
Qed.

End WithCodec.

(** *** The properties on concrete worlds *)

Section Concrete.
Import Samples MoreSamples.
#[local] Existing Instance SampleCodec.codec.

(** Two files define [get /x]; the entry is the reference into the one
    processed last. *)
Lemma later_file_wins_conflict :
  definesPair (loaded conflictWorld "resource/api-docs/v1/paths/a.yaml") "/x" "get" = true
  /\ definesPair (loaded conflictWorld "resource/api-docs/v1/paths/b.yaml") "/x" "get" = true
  /\ exists apiDocs' n',
       forEachFile "resource/api-docs/v1"
         ["resource/api-docs/v1/paths/a.yaml"; "resource/api-docs/v1/paths/b.yaml"]
         (clearedDocument, 0) conflictStart
       = Returns (apiDocs', n') conflictStart
       /\ entryAt apiDocs' "/x" "get"
          = Some (refObject "./paths/b.yaml#/paths/~1x/get").
Proof.
  split; [vm_compute; reflexivity |]. split; [vm_compute; reflexivity |].
  assert (Hr : rebuilding clearedDocument).
  { exists Plain, [("openapi", VStr "3.0.0"); ("paths", emptyObject)], [].
    split; [reflexivity |]. split; [reflexivity | constructor]. }
  pose proof (later_file_wins "resource/api-docs/v1"
                ["resource/api-docs/v1/paths/a.yaml"] []
                "resource/api-docs/v1/paths/b.yaml" "/x" "get"
                clearedDocument 0 conflictStart Hr) as H.
  vm_compute in H. vm_compute.
  apply H; [repeat constructor | reflexivity | reflexivity | reflexivity
           | constructor].
Defined.

(** The keys ["x-internal"], ["$ref"] and ["foo"] leave no entry. *)
Lemma skipped_keys_write_nothing_sample :
  (exists apiDocs' n',
      forEachFile "resource/api-docs/v1" ["resource/api-docs/v1/paths/a.yaml"]
        (clearedDocument, 0) skippedStart = Returns (apiDocs', n') skippedStart
      /\ entryAt apiDocs' "/x" "x-internal" = None)
  /\ (exists apiDocs' n',
      forEachFile "resource/api-docs/v1" ["resource/api-docs/v1/paths/a.yaml"]
        (clearedDocument, 0) skippedStart = Returns (apiDocs', n') skippedStart
      /\ entryAt apiDocs' "/x" "$ref" = None)
  /\ (exists apiDocs' n',
      forEachFile "resource/api-docs/v1" ["resource/api-docs/v1/paths/a.yaml"]
        (clearedDocument, 0) skippedStart = Returns (apiDocs', n') skippedStart
      /\ entryAt apiDocs' "/x" "foo" = None).
Proof.
  assert (Hc : cleared clearedDocument).
  { exists Plain, [("openapi", VStr "3.0.0"); ("paths", emptyObject)].
    split; reflexivity. }
  pose proof (fun method => skipped_keys_write_nothing "resource/api-docs/v1"
                ["resource/api-docs/v1/paths/a.yaml"]
                "resource/api-docs/v1/paths/a.yaml" "/x" method
                clearedDocument 0 skippedStart Hc) as H.
  split; [| split].
  - apply (H "x-internal"). left. reflexivity.
  - apply (H "$ref"). right. left. reflexivity.
  - apply (H "foo"). right. right. reflexivity.
Defined.

(** [broken.yaml] does not parse: it is reported and the loop goes on
    with [users.yaml].  A main document that does not parse is written
    back with an empty [paths] alone.  And with a codec that cannot read
    the cleared document back, the run ends with exit code 1. *)
Lemma loadYaml_failure_reported_broken :
  loadFails brokenWorld "resource/api-docs/v1/paths/broken.yaml" = true
  /\ forEachFile "resource/api-docs/v1"
       ["resource/api-docs/v1/paths/broken.yaml";
        "resource/api-docs/v1/paths/users.yaml"]
       (clearedDocument, 0) brokenStart
     = forEachFile "resource/api-docs/v1"
         ["resource/api-docs/v1/paths/users.yaml"] (clearedDocument, 0)
         (report [ErrorReadingYaml "resource/api-docs/v1/paths/broken.yaml"]
                 brokenStart)
  /\ mainTry apiDocsPath brokenMainStart
     = rebuildPaths apiDocsPath
         {| world := writeFile apiDocsPath
                       (yaml_dump (VObj Plain [("paths", emptyObject)]))
                       brokenMainWorld;
            console := [ErrorReadingYaml apiDocsPath] |}
  /\ fst (main (codec := forgetfulCodec) apiDocsPath tidyStart) = 1.
Proof.
  destruct (loadYaml_failure_reported (codec := SampleCodec.codec))
    as (_ & Hfile & Hfirst & _).
  destruct (loadYaml_failure_reported (codec := forgetfulCodec))
    as (_ & _ & _ & Hreload).
  split; [vm_compute; reflexivity |]. split; [| split].
  - apply Hfile. vm_compute. reflexivity.
  - apply (Hfirst apiDocsPath brokenMainStart);
      [vm_compute; reflexivity | apply not_elem_of_empty].
  - pose proof (Hreload apiDocsPath tidyStart Plain
                  [("openapi", VStr "3.0.0"); ("paths", VNull);
                   ("info", VObj Plain [("version", VStr "1.0.0")])]
                  ["resource/api-docs/v1/paths/users.yaml"] []) as H.
    cbv zeta in H. apply H.
    + vm_compute. reflexivity.
    + apply not_elem_of_empty.
    + reflexivity.
    + reflexivity.
    + vm_compute. reflexivity.
    + vm_compute. lia.
Defined.

(** C1, as stated, fails.  With a path file that does not parse the run
    ends with exit code 0, the failure on the console, and the reference
    of the other file written to the main document.  With a main document
    that does not parse the run ends with exit code 0 as well, the failure
    on the console, and the main document rewritten as the references
    alone. *)
Lemma update_completes_with_broken_file :
  (fst (main apiDocsPath brokenStart) = 0
   /\ console (snd (main apiDocsPath brokenStart))
      = [ErrorReadingYaml "resource/api-docs/v1/paths/broken.yaml"]
   /\ yaml_load <$> files (world (snd (main apiDocsPath brokenStart))) !! apiDocsPath
      = Some (Some (VObj Plain
          [("openapi", VStr "3.0.0");
           ("paths", VObj Plain
              [("/x", VObj Plain
                  [("get", refObject "./paths/users.yaml#/paths/~1x/get")])]);
           ("info", VObj Plain [("version", VStr "1.0.0")])])))
  /\ (yaml_load "openapi: [" = None
      /\ fst (main apiDocsPath brokenMainStart) = 0
      /\ console (snd (main apiDocsPath brokenMainStart))
         = [ErrorReadingYaml apiDocsPath]
      /\ yaml_load <$> files (world (snd (main apiDocsPath brokenMainStart)))
                        !! apiDocsPath
         = Some (Some (VObj Plain
             [("paths", VObj Plain
                 [("/x", VObj Plain
                     [("get", refObject "./paths/users.yaml#/paths/~1x/get")])])]))).
Proof. repeat split; vm_compute; reflexivity. Qed.

(** C4 on two files that both define [get] under [constructor], a name
    every object inherits, and under [/x].  The rebuild counts four
    references and returns without a word on the console; the entry of
    [get /x] is the reference into the later file, and there is no entry
    for [constructor] at all: [apiDocs.paths["constructor"]] is the
    inherited function, so nothing is created and the references are
    written onto that function.  The run writes the main document likewise. *)
Theorem inherited_path_key_gets_no_entry :
  definesPair (loaded inheritedWorld "resource/api-docs/v1/paths/a.yaml")
              "constructor" "get" = true
  /\ definesPair (loaded inheritedWorld "resource/api-docs/v1/paths/b.yaml")
                 "constructor" "get" = true
  /\ survives "get" = true
  /\ forEachFile "resource/api-docs/v1" conflictFiles (clearedDocument, 0)
       inheritedStart
     = Returns (inheritedRebuilt, 4) inheritedStart
  /\ entryAt inheritedRebuilt "/x" "get"
     = Some (refObject "./paths/b.yaml#/paths/~1x/get")
  /\ entryAt inheritedRebuilt "constructor" "get" = None
  /\ fst (main apiDocsPath inheritedStart) = 0
  /\ yaml_load <$> files (world (snd (main apiDocsPath inheritedStart)))
                    !! apiDocsPath
     = Some (Some inheritedRebuilt).
Proof. repeat split; vm_compute; reflexivity. Qed.

(** C3 on a main document whose [paths] key has no value and is followed
    by [info].  The first run fills [paths] where it stands; the second
    finds it truthy, deletes it and adds it again, after [info]: the two
    runs write different documents. *)
Theorem second_run_moves_paths :
  let first := main apiDocsPath tidyStart in
  let second := main apiDocsPath (snd first) in
  fst first = 0 /\ fst second = 0
  /\ yaml_load <$> files (world (snd first)) !! apiDocsPath
     = Some (Some (VObj Plain
         [("openapi", VStr "3.0.0");
          ("paths", VObj Plain
             [("/x", VObj Plain
                 [("get", refObject "./paths/users.yaml#/paths/~1x/get")])]);
          ("info", VObj Plain [("version", VStr "1.0.0")])]))
  /\ yaml_load <$> files (world (snd second)) !! apiDocsPath
     = Some (Some (VObj Plain
         [("openapi", VStr "3.0.0");
          ("info", VObj Plain [("version", VStr "1.0.0")]);
          ("paths", VObj Plain
             [("/x", VObj Plain
                 [("get", refObject "./paths/users.yaml#/paths/~1x/get")])])]))
  /\ files (world (snd second)) !! apiDocsPath
     <> files (world (snd first)) !! apiDocsPath.
Proof.
  cbv zeta. repeat (split; [vm_compute; reflexivity |]).
  vm_compute. discriminate.
Qed.

(** Where the main document starts with a [paths] object, the second run
    changes nothing. *)
Example second_run_repeats_conflict :
  fst (main apiDocsPath conflictStart) = 0
  /\ fst (main apiDocsPath (snd (main apiDocsPath conflictStart))) = 0
  /\ world (snd (main apiDocsPath (snd (main apiDocsPath conflictStart))))
     = world (snd (main apiDocsPath conflictStart)).
Proof.
  apply (second_run_repeats apiDocsPath conflictStart Plain
           [("openapi", VStr "3.0.0"); ("paths", emptyObject)]
           ["resource/api-docs/v1/paths/a.yaml";
            "resource/api-docs/v1/paths/b.yaml"] []).
  - vm_compute. reflexivity.
  - right. reflexivity.
  - vm_compute. reflexivity.
  - intros final n H. vm_compute in H. injection H as <- <-.
    vm_compute. reflexivity.
  - apply not_elem_of_empty.
  - reflexivity.
  - reflexivity.
  - discriminate.
Qed.

End Concrete.

End UpdaterProps.

(** * Further properties of the code *)

(** ** Strings, continued *)

Module MoreStringFacts.
Import JS Spec MoreSpec StringFacts.

Lemma split_from_cons (sep s : string) (skip : nat) :
  exists h t, split_from sep s skip = h :: t.
Proof.
  revert skip. induction s as [|c r IH]; intros skip; cbn [split_from].
  - eauto.
  - destruct skip as [|k]; [| apply IH].
    destruct (String.prefix sep (String c r)); [eauto |].
    destruct (IH 0) as (h & t & ->). eauto.
Qed.

(** No occurrence of the separator: one piece, the text itself. *)
Lemma split_absent (s sep : string) :
  includes s sep = false -> split s sep = [s].
Proof.
  unfold split. induction s as [|c r IH]; cbn [includes split_from].
  - reflexivity.
  - intros H. apply Bool.orb_false_iff in H as [Hp Hr].
    rewrite Hp, (IH Hr). reflexivity.
Qed.

(** An occurrence of a non-empty separator: two pieces or more. *)
Lemma split_present (s sep : string) :
  sep <> "" -> includes s sep = true ->
  exists piece, at_index (split s sep) 1 = Some piece.
Proof.
  intros Hsep. unfold split. induction s as [|c r IH]; cbn [includes split_from].
  - destruct sep; [congruence | discriminate].
  - destruct (String.prefix sep (String c r)) eqn:Hp.
    + intros _. destruct (split_from_cons sep r (String.length sep - 1))
        as (h & t & ->). cbn. eauto.
    + cbn [orb]. intros Hr. destruct (IH Hr) as (piece & Hpiece).
      destruct (split_from_cons sep r 0) as (h & t & Heq).
      rewrite Heq in *. cbn in *. eauto.
Qed.

(** The pieces hold no code unit the text does not hold. *)
Lemma split_from_pieces (d : ascii) (sep s : string) (skip : nat) :
  occurs d s = false ->
  Forall (fun piece => occurs d piece = false) (split_from sep s skip).
Proof.
  revert skip. induction s as [|c r IH]; intros skip; cbn [split_from occurs].
  - intros _. repeat constructor.
  - intros H. apply Bool.orb_false_iff in H as [Hc Hr].
    destruct skip as [|k]; [| now apply IH].
    destruct (String.prefix sep (String c r)).
    + constructor; [reflexivity | now apply IH].
    + specialize (IH 0 Hr).
      destruct (split_from sep r 0) as [|h t]; [repeat constructor; cbn; now rewrite Hc |].
      inversion IH; subst. constructor; [cbn; now rewrite Hc | assumption].
Qed.

(** Split on one code unit: no piece holds it. *)
Lemma split_char_pieces (c : ascii) (s : string) :
  Forall (fun piece => occurs c piece = false) (split s (String c "")).
Proof.
  unfold split. induction s as [|a r IH]; cbn [split_from].
  - repeat constructor.
  - rewrite prefix_char. destruct (Ascii.eqb a c) eqn:Hac.
    + constructor; [reflexivity | exact IH].
    + destruct (split_from (String c "") r 0) as [|h t];
        [repeat constructor; cbn; now rewrite Hac |].
      inversion IH; subst. constructor; [cbn; now rewrite Hac | assumption].
Qed.

Lemma beforeFirst_free (c : ascii) (s : string) : occurs c (beforeFirst c s) = false.
Proof.
  induction s as [|a r IH]; cbn; [reflexivity |].
  destruct (Ascii.eqb a c) eqn:E; cbn; [reflexivity | now rewrite E].
Qed.

Lemma beforeFirst_keeps (c d : ascii) (s : string) :
  occurs d s = false -> occurs d (beforeFirst c s) = false.
Proof.
  induction s as [|a r IH]; cbn; [reflexivity |].
  intros H. apply Bool.orb_false_iff in H as [Ha Hr].
  destruct (Ascii.eqb a c); cbn; [reflexivity |]. now rewrite Ha, IH.
Qed.

Lemma afterFirst_keeps (c d : ascii) (s : string) :
  occurs d s = false -> occurs d (afterFirst c s) = false.
Proof.
  induction s as [|a r IH]; cbn; [reflexivity |].
  intros H. apply Bool.orb_false_iff in H as [Ha Hr].
  destruct (Ascii.eqb a c); [exact Hr | now apply IH].
Qed.

Lemma occurs_app (c : ascii) (a b : string) :
  occurs c (a +:+ b) = occurs c a || occurs c b.
Proof.
  induction a as [|x a IH]; cbn; [reflexivity |].
  now rewrite IH, Bool.orb_assoc.
Qed.

Lemma occurs_concat (c : ascii) (sep : string) (l : list string) :
  occurs c sep = false ->
  Forall (fun piece => occurs c piece = false) l ->
  occurs c (String.concat sep l) = false.
Proof.
  intros Hsep Hl. induction Hl as [|x rest Hx Hrest IH]; [reflexivity |].
  destruct rest as [|y rest]; cbn [String.concat]; [exact Hx |].
  rewrite !occurs_app, Hx, Hsep. exact IH.
Qed.

Lemma occurs_removed (cls : ascii -> bool) (c : ascii) (s : string) :
  occurs c s = false -> occurs c (replace_class cls "" s) = false.
Proof.
  induction s as [|a r IH]; cbn; [reflexivity |].
  intros H. apply Bool.orb_false_iff in H as [Ha Hr].
  destruct (cls a); cbn; [now apply IH | now rewrite Ha, IH].
Qed.

Lemma braces_removed (s : string) :
  occurs "{" (replace_class is_brace "" s) = false /\
  occurs "}" (replace_class is_brace "" s) = false.
Proof.
  induction s as [|a r [IH1 IH2]]; cbn [replace_class]; [now split |].
  destruct (is_brace a) eqn:E; cbn [String.append occurs]; [now split |].
  unfold is_brace in E. apply Bool.orb_false_iff in E as [E1 E2].
  now rewrite E1, E2, IH1, IH2.
Qed.

Lemma Forall_kept {A : Type} (P : A -> Prop) (f : A -> bool) (l : list A) :
  Forall P l -> Forall P (List.filter f l).
Proof.
  intros H. induction H as [|x rest Hx _ IH]; cbn; [constructor |].
  destruct (f x); [now constructor | exact IH].
Qed.

End MoreStringFacts.

(** ** The stub generator, continued *)

Module GeneratorMore.
Import JS Spec MoreSpec Generator Validation StringFacts MoreStringFacts.

(** X1.  A template in which no placeholder of the variables occurs comes
    back as it is: what is not matched is left verbatim. *)
Theorem replaceTemplateVars_unmatched (template : string)
        (variables : list (string * string)) :
  Forall (fun kv => includes template ("{{" +:+ fst kv +:+ "}}") = false) variables ->
  replaceTemplateVars template variables = template.
Proof.
  intros H. induction H as [|[key value] rest Hkv _ IH]; [reflexivity |].
  cbn [replaceTemplateVars]. cbn [fst] in Hkv.
  rewrite (split_absent _ _ Hkv). exact IH.
Qed.

Lemma replaceTemplateVars_unmatched_sample :
  replaceTemplateVars "title: {{Title}} {{ TAG }}" [("TITLE", "t"); ("TAG", "d")]
  = "title: {{Title}} {{ TAG }}".
Proof.
  apply replaceTemplateVars_unmatched. repeat constructor.
Defined.

(** X2.  The operation slug holds no slash, no question mark and no
    brace, whatever the path. *)
Theorem generateOpPath_alphabet (pathStr : string) :
  occurs "/" (generateOpPath pathStr) = false
  /\ occurs "?" (generateOpPath pathStr) = false
  /\ occurs "{" (generateOpPath pathStr) = false
  /\ occurs "}" (generateOpPath pathStr) = false.
Proof.
  unfold generateOpPath. rewrite GeneratorProps.first_of_split.
  set (pieces := List.filter truthy (split (beforeFirst "?" pathStr) "/")).
  assert (Hslash : Forall (fun piece => occurs "/" piece = false) pieces).
  { apply Forall_kept, split_char_pieces. }
  assert (Hquery : Forall (fun piece => occurs "?" piece = false) pieces).
  { apply Forall_kept, split_from_pieces, beforeFirst_free. }
  split; [| split; [| apply braces_removed]].
  - apply occurs_removed, occurs_concat; [reflexivity | exact Hslash].
  - apply occurs_removed, occurs_concat; [reflexivity | exact Hquery].
Qed.

(** X3.  No path parameter holds a brace, whatever the path: nested and
    unbalanced braces included. *)
Theorem extractPathParams_no_brace (pathStr : string) :
  Forall (fun param => occurs "{" param = false /\ occurs "}" param = false)
         (extractPathParams pathStr).
Proof.
  unfold extractPathParams. apply Forall_map, Forall_forall.
  intros m _. apply braces_removed.
Qed.

(** X4.  The query parameter names hold no ["="], no ["&"] and no ["?"];
    and a path with a ["?"] always yields at least one name, an empty one
    when nothing follows the ["?"]. *)
Theorem extractQueryParams_names (pathStr : string) :
  Forall (fun name => occurs "=" name = false /\ occurs "&" name = false
                      /\ occurs "?" name = false)
         (extractQueryParams pathStr)
  /\ (extractQueryParams pathStr = [] <-> occurs "?" pathStr = false).
Proof.
  rewrite GeneratorProps.query_text_between.
  destruct (occurs "?" pathStr); [| split; [constructor | tauto]].
  set (query := beforeFirst "?" (afterFirst "?" pathStr)).
  split.
  - apply Forall_map.
    pose proof (split_char_pieces "&" query) as Hamp.
    pose proof (split_from_pieces "?" "&" query 0 (beforeFirst_free _ _)) as Hq.
    fold (split query "&") in Hq.
    induction Hamp as [|piece rest Hp _ IH]; [constructor |].
    inversion Hq; subst. constructor; [| now apply IH].
    split; [apply beforeFirst_free |].
    split; now apply beforeFirst_keeps.
  - split; [| discriminate].
    unfold split. destruct (split_from_cons "&" query 0) as (h & t & ->).
    discriminate.
Qed.

(** *** The fragment handed to the template *)

Lemma emit_path_space (names : list string) :
  names <> [] -> blank (emit path_block names) = false.
Proof. destruct names as [|name rest]; [congruence | reflexivity]. Qed.

Lemma emit_query_space (names : list string) :
  names <> [] -> blank (emit query_block names) = false.
Proof. destruct names as [|name rest]; [congruence | reflexivity]. Qed.

(** X5.  As soon as one name is not blank, the fragment handed to the
    template is the list of blocks itself, path blocks first, and never
    the empty-array marker. *)
Theorem finalParamsYaml_blocks (pathParams queryParams : list string) :
  named pathParams <> [] \/ named queryParams <> [] ->
  finalParamsYaml pathParams queryParams =
    emit path_block (named pathParams) +:+ emit query_block (named queryParams)
  /\ finalParamsYaml pathParams queryParams <> emptyArrayMarker.
Proof.
  intros H. unfold finalParamsYaml.
  rewrite GeneratorProps.generateParametersYaml_emit.
  set (yaml := emit path_block (named pathParams)
               +:+ emit query_block (named queryParams)).
  assert (Hspace : blank yaml = false).
  { unfold yaml. rewrite GeneratorProps.blank_app. destruct H as [H|H].
    - now rewrite (emit_path_space _ H).
    - rewrite (emit_query_space _ H). apply Bool.andb_false_r. }
  assert (Htrim : truthy (trim yaml) = true).
  { unfold truthy. now rewrite GeneratorProps.trim_blank, Hspace. }
  rewrite Htrim. split; [reflexivity |].
  unfold yaml, emptyArrayMarker.
  destruct (named pathParams) as [|p ps].
  - destruct (named queryParams) as [|q qs]; [destruct H; congruence |].
    cbn. discriminate.
  - cbn. discriminate.
Qed.

Lemma finalParamsYaml_blocks_sample :
  finalParamsYaml ["id"; " "] ["q"] = path_block "id" +:+ query_block "q"
  /\ finalParamsYaml ["id"; " "] ["q"] <> emptyArrayMarker.
Proof.
  apply (finalParamsYaml_blocks ["id"; " "] ["q"]). left. discriminate.
Defined.

End GeneratorMore.

(** ** Validation of the answers *)

Module ValidationProps.
Import JS Value Spec MoreSpec Generator Validation StringFacts MoreStringFacts.

Lemma validateMethodLoop_unfold (methodLower : string) (answers : list string) :
  validateMethodLoop methodLower answers =
  if Updater.arrayIncludes validMethods methodLower
  then Some (methodLower, answers)
  else match answers with
       | [] => None
       | line :: rest => validateMethodLoop (toLowerCase line) rest
       end.
Proof. destruct answers; reflexivity. Qed.

(** X6.  [validateMethod] returns the lower-case form of the first answer,
    the one given first included, whose lower-case form is one of the nine
    tokens, with the lines after it left to read; the answers before it
    were all rejected.  It returns nothing only when every answer is
    rejected and no line is left. *)
Theorem validateMethod_first_accepted (method : string) (answers : list string) :
  match validateMethod method answers with
  | Some (methodLower, rest) =>
      exists rejected accepted,
        method :: answers = (rejected ++ accepted :: rest)%list
        /\ methodLower = toLowerCase accepted
        /\ Updater.arrayIncludes validMethods methodLower = true
        /\ Forall (fun a => methodAccepted a = false) rejected
  | None => Forall (fun a => methodAccepted a = false) (method :: answers)
  end.
Proof.
  unfold validateMethod. revert method.
  induction answers as [|line rest IH]; intros method;
    rewrite validateMethodLoop_unfold;
    destruct (Updater.arrayIncludes validMethods (toLowerCase method)) eqn:Hm.
  - exists [], method. repeat split; [exact Hm | constructor].
  - repeat constructor. exact Hm.
  - exists [], method. repeat split; [exact Hm | constructor].
  - specialize (IH line).
    destruct (validateMethodLoop (toLowerCase line) rest) as [[r left_]|].
    + destruct IH as (rejected & accepted & Heq & Hr & Hin & Hrej).
      exists (method :: rejected), accepted. rewrite Heq.
      repeat split; [exact Hr | exact Hin | now constructor].
    + now constructor.
Qed.

Lemma validatePath_unfold (rawPath : string) (answers : list string) :
  validatePath rawPath answers =
  match checkPath rawPath with
  | None => Some (rawPath, answers, [])
  | Some why =>
      match answers with
      | [] => None
      | line :: rest =>
          match validatePath line rest with
          | Some (path, remaining, printed) => Some (path, remaining, why :: printed)
          | None => None
          end
      end
  end.
Proof. destruct answers; reflexivity. Qed.

(** X7.  [validatePath] returns the first answer, the one given first
    included, that passes the four checks, unchanged, with the lines after
    it left to read; one message was printed for each answer before it,
    the one of its first failing check.  It returns nothing only when
    every answer is rejected and no line is left. *)
Theorem validatePath_first_accepted (rawPath : string) (answers : list string) :
  match validatePath rawPath answers with
  | Some (path, rest, printed) =>
      exists rejected,
        rawPath :: answers = (rejected ++ path :: rest)%list
        /\ checkPath path = None
        /\ map checkPath rejected = map Some printed
  | None => Forall (fun a => pathRejected a = true) (rawPath :: answers)
  end.
Proof.
  revert rawPath. induction answers as [|line rest IH]; intros rawPath;
    rewrite validatePath_unfold; destruct (checkPath rawPath) as [why|] eqn:Hc.
  - repeat constructor. unfold pathRejected. now rewrite Hc.
  - exists []. repeat split. exact Hc.
  - specialize (IH line).
    destruct (validatePath line rest) as [[[path remaining] printed]|].
    + destruct IH as (rejected & Heq & Hok & Hprinted).
      exists (rawPath :: rejected). rewrite Heq. cbn [map].
      repeat split; [exact Hok | now rewrite Hc, Hprinted].
    + constructor; [| exact IH]. unfold pathRejected. now rewrite Hc.
  - exists []. repeat split. exact Hc.
Qed.

Lemma one_query_mark (path : string) :
  (2 <? length (split path "?"))%nat = false ->
  occurs "?" (afterFirst "?" path) = false.
Proof.
  rewrite split_char. destruct (occurs "?" path) eqn:Hq.
  - rewrite split_char.
    destruct (occurs "?" (afterFirst "?" path)); [| reflexivity].
    unfold split.
    destruct (split_from_cons "?" (afterFirst "?" (afterFirst "?" path)) 0)
      as (h & t & ->).
    cbn. discriminate.
  - intros _. now apply afterFirst_keeps.
Qed.

Lemma accepted_query_once (path : string) :
  checkPath path = None -> occurs "?" (afterFirst "?" path) = false.
Proof.
  unfold checkPath.
  destruct (negb (JS.truthy (trim path))); [discriminate |].
  destruct (negb (startsWith path "/")); [discriminate |].
  destruct (includes path ":"); [discriminate |].
  destruct (2 <? length (split path "?"))%nat eqn:Hmarks; [discriminate |].
  intros _. now apply one_query_mark.
Qed.

(** X8.  A path that passes the checks starts with ["/"], holds no [":"]
    and at most one ["?"]; its query parameters are those the
    specification describes, and the [PATH] handed to the template (the
    text before the ["?"]) starts with ["/"] and holds neither ["?"] nor
    [":"]. *)
Theorem accepted_path (path : string) :
  checkPath path = None ->
  startsWith path "/" = true
  /\ occurs ":" path = false
  /\ occurs "?" (afterFirst "?" path) = false
  /\ extractQueryParams path = parseQueryParameters path
  /\ let shown := default "" (at_index (split path "?") 0) in
     startsWith shown "/" = true
     /\ occurs "?" shown = false /\ occurs ":" shown = false.
Proof.
  unfold checkPath.
  destruct (negb (JS.truthy (trim path))); [discriminate |].
  destruct (startsWith path "/") eqn:Hslash; [| discriminate]. cbn [negb].
  rewrite includes_char.
  destruct (occurs ":" path) eqn:Hcolon; [discriminate |].
  destruct (2 <? length (split path "?"))%nat eqn:Hmarks; [discriminate |].
  intros _. pose proof (one_query_mark _ Hmarks) as Hone.
  split; [reflexivity |]. split; [reflexivity |]. split; [exact Hone |].
  split; [now apply GeneratorProps.extractQueryParams_single |].
  cbv zeta. rewrite GeneratorProps.first_of_split.
  split; [| split; [apply beforeFirst_free | now apply beforeFirst_keeps]].
  destruct path as [|c r]; [discriminate |].
  unfold startsWith in *. change "/" with (String "/" "") in *.
  rewrite prefix_char in Hslash. apply Ascii.eqb_eq in Hslash as ->.
  cbn [beforeFirst Ascii.eqb Bool.eqb]. cbn [andb]. apply prefix_char.
Qed.

Lemma accepted_path_sample :
  checkPath "/users/{id}?page=1" = None
  /\ extractQueryParams "/users/{id}?page=1" = parseQueryParameters "/users/{id}?page=1".
Proof.
  split; [reflexivity |].
  apply (accepted_path "/users/{id}?page=1"). reflexivity.
Defined.

Lemma validatePath_accepts (rawPath : string) (answers : list string)
      (path : string) (rest : list string) (printed : list rejection) :
  validatePath rawPath answers = Some (path, rest, printed) ->
  checkPath path = None /\ (checkPath rawPath = None -> path = rawPath).
Proof.
  revert rawPath printed. induction answers as [|line later IH];
    intros rawPath printed; rewrite validatePath_unfold;
    destruct (checkPath rawPath) as [why|] eqn:Hc; try discriminate.
  - intros [= <- _ _]. now split.
  - destruct (validatePath line later) as [[[p r] pr]|] eqn:Hv; [| discriminate].
    intros [= <- <- _]. split; [| discriminate]. exact (proj1 (IH _ _ Hv)).
  - intros [= <- _ _]. now split.
Qed.

(** X26.  [main] takes the path parameters from the accepted path, but the
    query parameters from the line typed first, accepted or not.  Where
    that line is accepted the two are the same path, and the query
    parameters are those the specification describes; where it is rejected
    the query parameters are still its own, so a first line without ["?"]
    leaves the stub without query parameters whatever the accepted path
    holds. *)
Theorem readPath_query_from_first_line (answers rest : list string)
        (pathOnly : string) (pathParams queryParams : list string) :
  readPath answers = Some ((pathOnly, pathParams, queryParams), rest) ->
  exists rawPath later,
    answers = rawPath :: later
    /\ checkPath pathOnly = None
    /\ pathParams = extractPathParams pathOnly
    /\ queryParams = extractQueryParams rawPath
    /\ (checkPath rawPath = None ->
        pathOnly = rawPath /\ queryParams = parseQueryParameters pathOnly)
    /\ (occurs "?" rawPath = false -> queryParams = []).
Proof.
  unfold readPath, question. destruct answers as [|rawPath later]; [discriminate |].
  destruct (validatePath rawPath later) as [[[p r] printed]|] eqn:Hv;
    [| discriminate].
  cbv zeta. intros [= <- <- <- <-].
  destruct (validatePath_accepts _ _ _ _ _ Hv) as [Hok Hfirst].
  exists rawPath, later.
  split; [reflexivity |]. split; [exact Hok |].
  split; [reflexivity |]. split; [reflexivity |]. split.
  - intros Hc. rewrite (Hfirst Hc). split; [reflexivity |].
    now apply GeneratorProps.extractQueryParams_single, accepted_query_once.
  - intros Hq. rewrite GeneratorProps.query_text_between. now rewrite Hq.
Qed.

Lemma readPath_query_from_first_line_sample :
  readPath ["users?page=1"; "/users/{id}"; "next"]
  = Some (("/users/{id}", ["id"], ["page"]), ["next"])
  /\ exists rawPath later,
       ["users?page=1"; "/users/{id}"; "next"] = rawPath :: later
       /\ checkPath "/users/{id}" = None
       /\ ["id"] = extractPathParams "/users/{id}"
       /\ ["page"] = extractQueryParams rawPath
       /\ (checkPath rawPath = None ->
           "/users/{id}" = rawPath /\ ["page"] = parseQueryParameters "/users/{id}")
       /\ (occurs "?" rawPath = false -> ["page"] = []).
Proof.
  split; [reflexivity |].
  apply (readPath_query_from_first_line
           ["users?page=1"; "/users/{id}"; "next"] ["next"]).
  reflexivity.
Defined.

End ValidationProps.

(** ** The output path and the version *)

Module OutputProps.
Import JS Value Spec MoreSpec Generator Validation StringFacts MoreStringFacts.

Lemma lower_char_idem (c : ascii) : lower_char (lower_char c) = lower_char c.
Proof.
  destruct c as [[] [] [] [] [] [] [] []]; reflexivity.
Qed.

Lemma lowerDashed_lower (s : string) : toLowerCase (lowerDashed s) = lowerDashed s.
Proof.
  unfold lowerDashed, toLowerCase. induction s as [|c r IH]; [reflexivity |].
  cbn [map_chars replace_class]. fold (map_chars lower_char) in *.
  destruct (is_char " " (lower_char c)).
  - cbn [String.append map_chars]. fold (map_chars lower_char). now rewrite IH.
  - cbn [map_chars]. fold (map_chars lower_char).
    now rewrite lower_char_idem, IH.
Qed.

Lemma lowerDashed_no_space (s : string) : occurs " " (lowerDashed s) = false.
Proof.
  unfold lowerDashed. induction (toLowerCase s) as [|c r IH]; [reflexivity |].
  cbn [replace_class]. unfold is_char at 1.
  destruct (Ascii.eqb c " ") eqn:E; cbn [String.append occurs].
  - exact IH.
  - now rewrite E.
Qed.

Lemma split_from_skip (sep a tail : string) :
  split_from sep (a +:+ tail) (String.length a) = split_from sep tail 0.
Proof.
  induction a as [|c a IH]; [reflexivity | exact IH].
Qed.

Lemma prefix_app (a tail : string) : String.prefix a (a +:+ tail) = true.
Proof.
  induction a as [|c a IH]; cbn.
  - now destruct tail.
  - destruct (ascii_dec c c); [exact IH | congruence].
Qed.

(** The text right after a leading separator, when it holds no other. *)
Lemma split_leading (sep tail : string) :
  sep <> "" -> includes tail sep = false ->
  at_index (split (sep +:+ tail) sep) 1 = Some tail.
Proof.
  intros Hsep Htail. unfold split.
  destruct sep as [|c sep']; [congruence |].
  cbn [String.append split_from].
  change (String c (sep' +:+ tail)) with (String c sep' +:+ tail).
  rewrite prefix_app. cbn [String.length Nat.sub].
  rewrite Nat.sub_0_r, split_from_skip.
  fold (split tail (String c sep')). now rewrite (split_absent _ _ Htail).
Qed.

(** X9.  The output path, when there is one, is the working directory as
    it is, a slash, and a rest that holds no space and no upper-case
    letter; there is none (the call throws) exactly when the joined path
    does not contain the working directory.  Where the joined path is the
    working directory followed by a tail that does not contain it again,
    the rest is that tail in lower case with dashes for spaces: its leading
    slash stays, after the one the code adds. *)
Theorem generateOutputPath_shape (cwd apiSpecPath domain method opPath : string) :
  cwd <> "" ->
  let filePath :=
    PosixPath.join [PosixPath.dirname apiSpecPath; "paths"; domain;
                    method +:+ "-" +:+ opPath +:+ ".yaml"] in
  match generateOutputPath cwd apiSpecPath domain method opPath with
  | Normal out =>
      includes filePath cwd = true
      /\ exists rest, out = cwd +:+ "/" +:+ rest
                      /\ occurs " " rest = false /\ toLowerCase rest = rest
  | TypeError => includes filePath cwd = false
  end
  /\ forall tail,
       filePath = cwd +:+ tail -> includes tail cwd = false ->
       generateOutputPath cwd apiSpecPath domain method opPath
       = Normal (cwd +:+ "/" +:+ lowerDashed tail).
Proof.
  intros Hcwd filePath. unfold generateOutputPath. fold filePath. split.
  - destruct (includes filePath cwd) eqn:Hin.
    + destruct (split_present _ _ Hcwd Hin) as (piece & ->).
      split; [reflexivity |]. exists (lowerDashed piece).
      split; [reflexivity |].
      split; [apply lowerDashed_no_space | apply lowerDashed_lower].
    + now rewrite (split_absent _ _ Hin).
  - intros tail -> Htail. now rewrite (split_leading _ _ Hcwd Htail).
Qed.

Lemma generateOutputPath_shape_sample :
  generateOutputPath "/Work Dir" "/Work Dir/Resource/api-docs/v1/api-docs.yaml"
    "User Admin" "get" "users-id"
  = Normal "/Work Dir//resource/api-docs/v1/paths/user-admin/get-users-id.yaml".
Proof.
  assert (Hcwd : "/Work Dir" <> "") by discriminate.
  pose proof (generateOutputPath_shape "/Work Dir"
                "/Work Dir/Resource/api-docs/v1/api-docs.yaml" "User Admin"
                "get" "users-id" Hcwd) as H.
  cbv zeta in H. destruct H as [_ H].
  rewrite (H "/Resource/api-docs/v1/paths/User Admin/get-users-id.yaml");
    vm_compute; reflexivity.
Defined.

Section WithCodec.
Context {codec : YamlCodec}.

(** X10.  [extractApiVersion] returns [null] or a truthy value, and
    [null] whenever it printed an error; a value other than [null] is the
    [version] found under an [info] object of a document that was read and
    parsed.  So a version that is absent, empty, zero or false is [null]
    like an unreadable file. *)
Theorem extractApiVersion_null_or_found (files : gmap string string)
        (apiSpecPath : string) :
  let version := fst (extractApiVersion files apiSpecPath) in
  let printed := snd (extractApiVersion files apiSpecPath) in
  (version = VNull \/ Value.truthy (Some version) = true)
  /\ (printed = true -> version = VNull)
  /\ (version <> VNull ->
      exists content cls ps icls ips,
        files !! apiSpecPath = Some content
        /\ yaml_load content = Some (VObj cls ps)
        /\ propGet "info" ps = Some (VObj icls ips)
        /\ propGet "version" ips = Some version).
Proof.
  cbv zeta. unfold extractApiVersion.
  destruct (files !! apiSpecPath) as [content|] eqn:Hread;
    [| cbn; split; [now left | split; [reflexivity | congruence]]].
  destruct (yaml_load content) as [doc|] eqn:Hparse;
    [| cbn; split; [now left | split; [reflexivity | congruence]]].
  cbn [fst snd].
  destruct doc as [| b | z | t |cls ps]; cbn [optionalMember];
    try (split; [now left | split; [discriminate | congruence]]).
  destruct (propGet "info" ps) as [[| b | z | t |icls ips]|] eqn:Hinfo;
    cbn [optionalMember];
    try (split; [now left | split; [discriminate | congruence]]).
  destruct (propGet "version" ips) as [v|] eqn:Hversion;
    [| split; [now left | split; [discriminate | congruence]]].
  destruct (Value.truthy (Some v)) eqn:Hv.
  - split; [now right |]. split; [discriminate |].
    intros _. exists content, cls, ps, icls, ips. now repeat split.
  - split; [now left | split; [discriminate | congruence]].
Qed.

End WithCodec.

Lemma extractApiVersion_null_or_found_sample :
  fst (extractApiVersion (codec := SampleCodec.codec)
         MoreSamples.mainOnly Samples.apiDocsPath) = VStr "1.0.0"
  /\ exists content cls ps icls ips,
       MoreSamples.mainOnly !! Samples.apiDocsPath = Some content
       /\ SampleCodec.load content = Some (VObj cls ps)
       /\ propGet "info" ps = Some (VObj icls ips)
       /\ propGet "version" ips = Some (VStr "1.0.0").
Proof.
  split; [vm_compute; reflexivity |].
  pose proof (extractApiVersion_null_or_found (codec := SampleCodec.codec)
                MoreSamples.mainOnly Samples.apiDocsPath) as H.
  cbv zeta in H. destruct H as (_ & _ & H).
  vm_compute in H. vm_compute. apply H. discriminate.
Defined.

End OutputProps.

(** ** The command line *)

Module CliProps.
Import JS Spec MoreSpec Cli StringFacts MoreStringFacts.

Lemma prefix_occurs (c : ascii) (p s : string) :
  String.prefix p s = true -> occurs c p = true -> occurs c s = true.
Proof.
  revert s. induction p as [|a p IH]; intros s; [discriminate 2 |].
  destruct s as [|b s]; cbn; [discriminate |].
  destruct (ascii_dec a b) as [<-|]; [| discriminate].
  intros Hp Ho. destruct (Ascii.eqb a c); [reflexivity |].
  cbn in Ho |- *. now apply IH.
Qed.

Lemma flag_value (arg key : string) :
  startsWith arg ("--" +:+ key +:+ "=") = true ->
  at_index (split arg "=") 1 = Some (argumentValue arg).
Proof.
  intros Hp. assert (Ho : occurs "=" arg = true).
  { eapply prefix_occurs; [exact Hp |].
    rewrite !occurs_app. cbn. apply Bool.orb_true_r. }
  rewrite split_char, Ho. cbn [at_index nth_error].
  now rewrite split_char.
Qed.

(** X11.  [getArg] never returns [undefined].  With no argument that
    starts with [--key=] it returns the default; otherwise the first such
    argument decides, and the value is the text between its first and its
    second ["="]: it holds no ["="], what follows a second one is
    dropped. *)
Theorem getArg_first_flag (argv : list string) (key defaultValue : string) :
  match List.find (fun a => startsWith a ("--" +:+ key +:+ "=")) argv with
  | Some arg =>
      getArg argv key defaultValue = Some (argumentValue arg)
      /\ occurs "=" (argumentValue arg) = false
  | None => getArg argv key defaultValue = Some defaultValue
  end.
Proof.
  unfold getArg.
  destruct (List.find _ argv) as [arg|] eqn:Hfind; [| reflexivity].
  apply List.find_some in Hfind as [_ Hp].
  split; [now apply flag_value with key | apply beforeFirst_free].
Qed.

(** X12.  Which program runs is decided by the first [--action=]
    argument: [generate] or [update] as the text between its first two
    ["="], anything else, or no such argument, is an invalid action. *)
Theorem main_first_action (argv : list string) :
  main argv =
  match List.find (fun a => startsWith a "--action=") argv with
  | Some arg =>
      if String.eqb (argumentValue arg) "generate" then Generate
      else if String.eqb (argumentValue arg) "update" then Update
      else InvalidAction
  | None => InvalidAction
  end.
Proof.
  unfold main, getArg.
  change ("--" +:+ "action" +:+ "=") with "--action=".
  destruct (List.find _ argv) as [arg|] eqn:Hfind; [| reflexivity].
  apply List.find_some in Hfind as [_ Hp].
  now rewrite (flag_value arg "action" Hp).
Qed.

End CliProps.

(** ** The reference updater, continued *)

Module UpdaterMore.
Import JS Value FileSystem Updater Spec UpdaterSpec MoreSpec StringFacts
       MoreStringFacts UpdaterProps.

(** *** Pointer segments *)

Lemma encodeJsonPointer_cons (c : ascii) (r : string) :
  encodeJsonPointer (String c r) =
  if Ascii.eqb c "/" then String "~" (String "1" (encodeJsonPointer r))
  else String c (encodeJsonPointer r).
Proof. unfold encodeJsonPointer. cbn. unfold is_char. now destruct (Ascii.eqb c "/"). Qed.

Lemma encodeJsonPointer_injective_plain (s t : string) :
  occurs "~" s = false -> occurs "~" t = false ->
  encodeJsonPointer s = encodeJsonPointer t -> s = t.
Proof.
  revert t. induction s as [|c r IH]; intros t Hs Ht.
  - destruct t as [|d u]; [reflexivity |].
    rewrite encodeJsonPointer_cons. destruct (Ascii.eqb d "/"); discriminate.
  - destruct t as [|d u].
    + rewrite encodeJsonPointer_cons. destruct (Ascii.eqb c "/"); discriminate.
    + cbn in Hs, Ht.
      apply Bool.orb_false_iff in Hs as [Hc Hr].
      apply Bool.orb_false_iff in Ht as [Hd Hu].
      rewrite !encodeJsonPointer_cons.
      destruct (Ascii.eqb c "/") eqn:Ec, (Ascii.eqb d "/") eqn:Ed.
      * apply Ascii.eqb_eq in Ec, Ed. subst. intros [= H]. f_equal. now apply IH.
      * intros [= <- _]. discriminate Hd.
      * intros [= -> _]. discriminate Hc.
      * intros [= <- H]. f_equal. now apply IH.
Qed.

(** X13.  An encoded segment holds no ["/"], and a segment without one is
    left as it is.  Segments that hold no ["~"] are told apart by their
    encodings; two segments in general are not, since ["~"] itself is not
    escaped. *)
Theorem encodeJsonPointer_escapes_slash_only :
  (forall s, occurs "/" (encodeJsonPointer s) = false)
  /\ (forall s, occurs "/" s = false -> encodeJsonPointer s = s)
  /\ (forall s t, occurs "~" s = false -> occurs "~" t = false ->
                  encodeJsonPointer s = encodeJsonPointer t -> s = t)
  /\ (exists s t, s <> t /\ encodeJsonPointer s = encodeJsonPointer t).
Proof.
  split; [| split; [| split]].
  - intros s. induction s as [|c r IH]; [reflexivity |].
    rewrite encodeJsonPointer_cons.
    destruct (Ascii.eqb c "/") eqn:E; cbn; [exact IH | now rewrite E].
  - intros s. induction s as [|c r IH]; [reflexivity |].
    cbn [occurs]. intros H. apply Bool.orb_false_iff in H as [Hc Hr].
    now rewrite encodeJsonPointer_cons, Hc, IH.
  - apply encodeJsonPointer_injective_plain.
  - exists "/users/a/b", "/users/a~1b". split; [discriminate | reflexivity].
Qed.

Lemma encodeJsonPointer_escapes_slash_only_sample :
  occurs "/" "users-{id}" = false
  /\ encodeJsonPointer "users-{id}" = "users-{id}"
  /\ occurs "/" (encodeJsonPointer "/users/{id}") = false.
Proof.
  destruct encodeJsonPointer_escapes_slash_only as (Hnone & Hsame & _ & _).
  split; [reflexivity |]. split.
  - apply Hsame. reflexivity.
  - apply Hnone.
Defined.

Section WithCodec.
Context {codec : YamlCodec}.

(** *** Reading and writing documents *)

Lemma loaded_truthy (w : World) (filePath : string) :
  truthy (Some (loaded w filePath)) = true.
Proof.
  unfold loaded. destruct (files w !! filePath) as [content|]; [| reflexivity].
  destruct (yaml_load content) as [doc|]; [| reflexivity].
  destruct (truthy (Some doc)) eqn:E; [exact E | reflexivity].
Qed.

(** X14.  [loadYaml] always returns: it neither throws nor ends the
    process, whatever the file.  What it returns is truthy, so reading a
    property of it never throws; the world is as before, and the console
    holds one more line exactly when the file could not be read or
    parsed. *)
Theorem loadYaml_always_returns (filePath : string) (s : state) :
  exists doc,
    loadYaml filePath s =
      Returns doc (report (if loadFails (world s) filePath
                           then [ErrorReadingYaml filePath] else []) s)
    /\ truthy (Some doc) = true
    /\ exists ps, member (Some doc) "paths" = Normal ps.
Proof.
  exists (loaded (world s) filePath). split; [| split].
  - rewrite loadYaml_loaded. unfold loadErrors. cbn [List.filter].
    now destruct (loadFails (world s) filePath).
  - apply loaded_truthy.
  - pose proof (loaded_truthy (world s) filePath) as Ht.
    destruct (loaded (world s) filePath); cbn in *; eauto; discriminate.
Qed.

(** X15.  What [saveYaml] wrote, [loadYaml] reads back: for a truthy
    document that the codec parses back from its own text and a path that
    can be written, [saveYaml] returns [true], reports nothing and changes
    only that file, and [loadYaml] then returns the document. *)
Theorem saveYaml_then_loadYaml (filePath : string) (data : value) (s : state) :
  filePath ∉ locked (world s) ->
  yaml_load (yaml_dump data) = Some data ->
  truthy (Some data) = true ->
  exists s',
    saveYaml filePath data s = Returns true s'
    /\ console s' = console s
    /\ onlyFileChanged filePath (world s) (world s')
    /\ loadYaml filePath s' = Returns data s'.
Proof.
  intros Hfree Hrt Ht. unfold saveYaml.
  destruct (decide (filePath ∈ locked (world s))) as [Hin|_]; [contradiction |].
  eexists. split; [reflexivity |]. cbn [console world].
  split; [reflexivity |]. split.
  - unfold onlyFileChanged, writeFile. cbn [locked tree cwd files].
    repeat split. intros q Hq. now rewrite lookup_insert_ne.
  - rewrite loadYaml_loaded. cbn [world].
    rewrite (loaded_after_write _ _ _ Hrt Ht).
    unfold loadErrors, loadFails, writeFile. cbn [List.filter files].
    rewrite lookup_insert_eq, Hrt. cbn [map]. now rewrite report_nil.
Qed.

End WithCodec.

Lemma saveYaml_then_loadYaml_sample :
  exists s',
    saveYaml (codec := SampleCodec.codec) Samples.apiDocsPath
      Samples.clearedDocument Samples.tidyStart = Returns true s'
    /\ console s' = []
    /\ onlyFileChanged Samples.apiDocsPath Samples.tidyWorld (world s')
    /\ loadYaml (codec := SampleCodec.codec) Samples.apiDocsPath s'
       = Returns Samples.clearedDocument s'.
Proof.
  apply (saveYaml_then_loadYaml (codec := SampleCodec.codec)
           Samples.apiDocsPath Samples.clearedDocument Samples.tidyStart).
  - apply not_elem_of_empty.
  - vm_compute. reflexivity.
  - reflexivity.
Defined.

(** *** What a run writes *)

Lemma onlyFileChanged_refl (p : string) (w : World) : onlyFileChanged p w w.
Proof. now repeat split. Qed.

Lemma onlyFileChanged_trans (p : string) (w1 w2 w3 : World) :
  onlyFileChanged p w1 w2 -> onlyFileChanged p w2 w3 -> onlyFileChanged p w1 w3.
Proof.
  intros (Hl & Ht & Hc & Hf) (Hl' & Ht' & Hc' & Hf').
  repeat split; try congruence.
  intros q Hq. now rewrite Hf', Hf.
Qed.

Lemma keepsOthers_bind {A B : Type} (p : string) (m : M A) (f : A -> M B) :
  keepsOthers p m -> (forall a, keepsOthers p (f a)) -> keepsOthers p (m ≫= f).
Proof.
  intros Hm Hf s. rewrite bind_run. specialize (Hm s).
  destruct (m s) as [a s'|code s'|s']; cbn [stateOf] in *; [| exact Hm | exact Hm].
  eapply onlyFileChanged_trans; [exact Hm | apply Hf].
Qed.

Lemma keepsOthers_same {A : Type} (p : string) (m : M A) :
  (forall s, world (stateOf (m s)) = world s) -> keepsOthers p m.
Proof. intros H s. rewrite H. apply onlyFileChanged_refl. Qed.

Section Runs.
Context {codec : YamlCodec}.

Lemma keepsOthers_loadYaml (p filePath : string) : keepsOthers p (loadYaml filePath).
Proof. apply keepsOthers_same. intros s. now rewrite loadYaml_loaded. Qed.

Lemma keepsOthers_saveYaml (p : string) (data : value) :
  keepsOthers p (saveYaml p data).
Proof.
  intros s. unfold saveYaml.
  destruct (decide (p ∈ locked (world s))); cbn [stateOf world].
  - apply onlyFileChanged_refl.
  - unfold onlyFileChanged, writeFile. cbn [locked tree cwd files].
    repeat split. intros q Hq. now rewrite lookup_insert_ne.
Qed.

Lemma keepsOthers_forEachFile (p baseDir : string) (pathFiles : list string)
      (st : value * nat) :
  keepsOthers p (forEachFile baseDir pathFiles st).
Proof.
  revert st. induction pathFiles as [|filePath rest IH]; intros st.
  - apply keepsOthers_same. reflexivity.
  - cbn [forEachFile]. apply keepsOthers_bind; [| exact IH].
    apply keepsOthers_same. intros s. rewrite visitFile_pure.
    now destruct (visitFilePure (world s) baseDir filePath st).
Qed.

Lemma keepsOthers_exit (p : string) (saved : bool) :
  keepsOthers p (if negb saved then processExit 1 else mret tt).
Proof. apply keepsOthers_same. intros s. now destruct saved. Qed.

Lemma keepsOthers_mainTry (apiDocsPath : string) :
  keepsOthers apiDocsPath (mainTry apiDocsPath).
Proof.
  unfold mainTry.
  apply keepsOthers_bind; [apply keepsOthers_loadYaml | intros apiDocs].
  apply keepsOthers_bind;
    [apply keepsOthers_same; intros s; now destruct (member _ _) | intros paths].
  apply keepsOthers_bind;
    [apply keepsOthers_same; intros s; now destruct (assign _ _ _) | intros cleared].
  apply keepsOthers_bind; [apply keepsOthers_saveYaml | intros saved].
  destruct saved; cbn [negb]; [| apply keepsOthers_same; reflexivity].
  intros s.
  destruct (negb (existsNode (tree (world s) _))); [apply onlyFileChanged_refl |].
  destruct (walkDir _ _ _) as [pathFiles errors].
  destruct (length pathFiles =? 0)%nat; [apply onlyFileChanged_refl |].
  match goal with
  | |- onlyFileChanged _ _ (world (stateOf (?m ?s'))) =>
      assert (Hk : keepsOthers apiDocsPath m); [| exact (Hk s')]
  end.
  apply keepsOthers_bind; [apply keepsOthers_loadYaml | intros reloaded].
  apply keepsOthers_bind; [apply keepsOthers_forEachFile | intros [final total]].
  apply keepsOthers_bind; [apply keepsOthers_saveYaml | apply keepsOthers_exit].
Qed.

(** X16.  Whatever the world and however the run ends, [main] changes no
    file but the main document: the text of every other file, the tree,
    the write locks and the working directory are as before. *)
Theorem main_writes_main_document_only (apiDocsPath : string) (s : state) :
  onlyFileChanged apiDocsPath (world s) (world (snd (main apiDocsPath s))).
Proof.
  unfold main. pose proof (keepsOthers_mainTry apiDocsPath s) as H.
  destruct (mainTry apiDocsPath s); exact H.
Qed.

(** X17.  With no [paths] directory beside the main document the run
    ends with exit code 1 after the Clear step: the main document is left
    with an empty [paths] object in place, nothing else is written, and
    the console names the missing directory. *)
Theorem main_without_paths_directory (apiDocsPath : string) (s : state)
        (cls : objclass) (ps : list (string * value)) :
  let pathsDir := PosixPath.join [PosixPath.dirname apiDocsPath; "paths"] in
  loaded (world s) apiDocsPath = VObj cls ps ->
  apiDocsPath ∉ locked (world s) ->
  existsNode (tree (world s) pathsDir) = false ->
  main apiDocsPath s =
    (1, {| world := writeFile apiDocsPath
                      (yaml_dump (clearedFrom (VObj cls ps))) (world s);
           console := (console s ++ loadErrors (world s) [apiDocsPath] ++
                       [PathsDirectoryNotFound pathsDir])%list |}).
Proof.
  intros pathsDir Hobj Hunlocked Hmissing. unfold main, mainTry. fold pathsDir.
  rewrite (clear_phase apiDocsPath s cls ps _ Hobj Hunlocked).
  cbn [negb world tree writeFile]. rewrite Hmissing. cbn [negb].
  rewrite bind_run. cbn. now rewrite <- List.app_assoc.
Qed.

(** X18.  With a [paths] directory in which the walk finds no file the
    run ends with exit code 0 after the Clear step: the main document is
    left with an empty [paths] object, and the console ends with the
    warning that no path file was found. *)
Theorem main_without_path_files (apiDocsPath : string) (s : state)
        (cls : objclass) (ps : list (string * value)) (errors : list event) :
  let pathsDir := PosixPath.join [PosixPath.dirname apiDocsPath; "paths"] in
  loaded (world s) apiDocsPath = VObj cls ps ->
  apiDocsPath ∉ locked (world s) ->
  existsNode (tree (world s) pathsDir) = true ->
  walkDir pathsDir (readdir (tree (world s) pathsDir)) ([], []) = ([], errors) ->
  main apiDocsPath s =
    (0, {| world := writeFile apiDocsPath
                      (yaml_dump (clearedFrom (VObj cls ps))) (world s);
           console := (console s ++ loadErrors (world s) [apiDocsPath] ++
                       errors ++ [NoPathFilesFound])%list |}).
Proof.
  intros pathsDir Hobj Hunlocked Hex Hwalk. unfold main, mainTry. fold pathsDir.
  rewrite (clear_phase apiDocsPath s cls ps _ Hobj Hunlocked).
  cbn [negb world tree writeFile]. rewrite Hex. cbn [negb]. rewrite Hwalk.
  cbn. now rewrite <- !List.app_assoc.
Qed.

Lemma saveYaml_locked (p : string) (d : value) (s : state) :
  p ∈ locked (world s) ->
  saveYaml p d s = Returns false (report [ErrorWritingYaml p] s).
Proof.
  intros Hlocked. unfold saveYaml.
  destruct (decide _) as [_|Hout]; [| contradiction].
  rewrite bind_run. reflexivity.
Qed.

(** X19.  A main document that parses to a scalar, or one that cannot be
    written, ends the run with exit code 1 before anything is written: the
    world is as before. *)
Theorem main_aborts_unwritten (apiDocsPath : string) (s : state) :
  (forall cls ps, loaded (world s) apiDocsPath <> VObj cls ps)
  \/ apiDocsPath ∈ locked (world s) ->
  fst (main apiDocsPath s) = 1 /\ world (snd (main apiDocsPath s)) = world s.
Proof.
  intros H. unfold main, mainTry.
  rewrite bind_run, loadYaml_loaded.
  pose proof (loaded_not_null (world s) apiDocsPath) as Hnn.
  destruct (loaded (world s) apiDocsPath) as [| b | z | t |cls ps] eqn:Hdoc;
    [congruence | | | |].
  1,2,3: rewrite bind_run; cbn [member evaluate]; cbv zeta; cbn [truthy];
    rewrite bind_run; cbn [assign evaluate fst snd world report];
    split; reflexivity.
  destruct H as [H|Hlocked]; [now destruct (H cls ps) |].
  rewrite bind_run. cbn [member evaluate]. cbv zeta.
  replace (if truthy (propGet "paths" ps)
           then deleteProp (VObj cls ps) "paths" else VObj cls ps)
    with (VObj cls (if truthy (propGet "paths" ps)
                    then propDelete "paths" ps else ps))
    by now destruct (truthy (propGet "paths" ps)).
  rewrite bind_run. cbn [assign evaluate]. rewrite bind_run.
  rewrite !saveYaml_locked by exact Hlocked.
  cbn. split; reflexivity.
Qed.

(** *** What the rebuild leaves in the document *)

Lemma lastWriter_cases (w : World) (baseDir : string) (pathFiles : list string)
      (a m : string) (before : jsval) :
  (lastWriter w baseDir pathFiles a m before = before
   /\ Forall (fun f => writesPair (loaded w f) a m = false) pathFiles)
  \/ exists f, In f pathFiles
               /\ writesPair (loaded w f) a m = true
               /\ lastWriter w baseDir pathFiles a m before
                  = Some (referenceTo (cwd w) baseDir f a m).
Proof.
  revert before. induction pathFiles as [|filePath rest IH]; intros before.
  - left. split; [reflexivity | constructor].
  - cbn [lastWriter]. destruct (writesPair (loaded w filePath) a m) eqn:Hw.
    + destruct (IH (Some (referenceTo (cwd w) baseDir filePath a m)))
        as [[Heq _]|(f & Hin & Hf & Heq)].
      * right. exists filePath. split; [now left | now split].
      * right. exists f. split; [now right | now split].
    + destruct (IH before) as [[Heq Hall]|(f & Hin & Hf & Heq)].
      * left. split; [exact Heq | now constructor].
      * right. exists f. split; [now right | now split].
Qed.

(** X20.  In a run that writes nothing onto a prototype (no file has the
    path key [__proto__]), after a rebuild from the cleared document the
    entries are the pairs the files define under a surviving method key
    and a path key that [Object.prototype] does not define, no more and no
    fewer: any other pair has no entry, and the entry of such a pair is
    the reference into one of the files that define it. *)
Theorem rebuilt_entries (baseDir : string) (pathFiles : list string)
        (apiDocs : value) (n : nat) (s : state) :
  cleared apiDocs ->
  Forall (fun f => protoFree (loaded (world s) f) = true) pathFiles ->
  exists apiDocs' n',
    forEachFile baseDir pathFiles (apiDocs, n) s =
      Returns (apiDocs', n') (report (loadErrors (world s) pathFiles) s)
    /\ forall a m,
         (entryAt apiDocs' a m = None
          /\ (inherited a = true
              \/ Forall (fun f => writesPair (loaded (world s) f) a m = false)
                        pathFiles))
         \/ exists f,
              In f pathFiles
              /\ inherited a = false
              /\ definesPair (loaded (world s) f) a m = true
              /\ survives m = true
              /\ entryAt apiDocs' a m
                 = Some (referenceTo (cwd (world s)) baseDir f a m).
Proof.
  intros Hc _.
  destruct (forEachFile_lastWriter baseDir pathFiles apiDocs n s
              (cleared_rebuilding _ Hc)) as (d & n' & Hrun & _ & _ & Hlast).
  exists d, n'. split; [exact Hrun |]. intros a m.
  rewrite (Hlast a m), (cleared_shadowed _ a Hc), (cleared_entryAt _ a m Hc).
  destruct (inherited a) eqn:Hin; [left; split; [reflexivity | now left] |].
  destruct (lastWriter_cases (world s) baseDir pathFiles a m None)
    as [[Heq Hall]|(f & Hf_in & Hf & Heq)].
  - left. split; [exact Heq | now right].
  - right. exists f. unfold writesPair in Hf.
    apply Bool.andb_true_iff in Hf as [Hd Hs]. now repeat split.
Qed.

(** The loop replaces the value under an existing [paths] key and does
    nothing else to the main document. *)

Lemma pathsReplaced_refl (d : value) : pathsReplaced d d.
Proof. now left. Qed.

Lemma pathsReplaced_trans (d1 d2 d3 : value) :
  pathsReplaced d1 d2 -> pathsReplaced d2 d3 -> pathsReplaced d1 d3.
Proof.
  intros [->|(cls & ps & old & v & -> & Hold & ->)] H23; [exact H23 |].
  destruct H23 as [->|(cls' & ps' & old' & v' & [= <- <-] & _ & ->)].
  - right. now exists cls, ps, old, v.
  - right. exists cls, ps, old, v'. split; [reflexivity |].
    split; [exact Hold | now rewrite propSet_propSet].
Qed.

Lemma visitMethod_replaces (cwd filePath baseDir apiPath method : string)
      (d d' : value) (n n' : nat) :
  visitMethod cwd filePath baseDir apiPath method (d, n) = Normal (d', n') ->
  pathsReplaced d d' /\ n' = (if survives method then S n else n).
Proof.
  unfold visitMethod, survives.
  destruct (startsWith method "x-" || startsWith method "$");
    [intros [= <- <-]; split; [apply pathsReplaced_refl | reflexivity] |].
  destruct (arrayIncludes validMethods (toLowerCase method)); cbn [negb andb];
    [| intros [= <- <-]; split; [apply pathsReplaced_refl | reflexivity]].
  destruct d as [| b | z | t |cls ps]; cbn [member mbind completion_bind];
    try discriminate.
  destruct (propGet "paths" ps) as [paths|] eqn:Hpaths; [| discriminate].
  destruct (lookup (Some paths) apiPath) as [[v| |]|];
    cbn [mbind completion_bind];
    [| intros [= <- <-]; split; [apply pathsReplaced_refl | reflexivity] | |];
    try discriminate;
    (do 5 bind_case; cbn [assign]; intros [= <- <-];
     split; [| reflexivity]; right; eauto 10).
Qed.

Lemma forEachMethod_replaces (cwd filePath baseDir apiPath : string)
      (methods : list string) (d d' : value) (n n' : nat) :
  forEachMethod cwd filePath baseDir apiPath methods (d, n) = Normal (d', n') ->
  pathsReplaced d d' /\ n' = n + length (List.filter survives methods).
Proof.
  revert d n. induction methods as [|method rest IH]; intros d n;
    cbn [forEachMethod List.filter].
  - intros [= <- <-]. split; [apply pathsReplaced_refl | cbn; lia].
  - destruct (visitMethod cwd filePath baseDir apiPath method (d, n))
      as [[d1 n1]|] eqn:Hv; cbn [mbind completion_bind]; [| discriminate].
    intros Hrest. apply visitMethod_replaces in Hv as [H1 ->].
    apply IH in Hrest as [H2 ->].
    split; [eapply pathsReplaced_trans; eassumption |].
    destruct (survives method); cbn [length]; lia.
Qed.

Lemma forEachApiPath_replaces (cwd filePath baseDir : string) (filePaths : jsval)
      (apiPaths : list string) (d d' : value) (n n' : nat) :
  forEachApiPath cwd filePath baseDir filePaths apiPaths (d, n) = Normal (d', n') ->
  pathsReplaced d d' /\ n' = n + countApiPaths filePaths apiPaths.
Proof.
  revert d n. induction apiPaths as [|apiPath rest IH]; intros d n;
    cbn [forEachApiPath countApiPaths].
  - intros [= <- <-]. split; [apply pathsReplaced_refl | lia].
  - destruct (visitApiPath cwd filePath baseDir filePaths apiPath (d, n))
      as [[d1 n1]|] eqn:Hv; cbn [mbind completion_bind]; [| discriminate].
    intros Hrest. apply IH in Hrest as [H2 ->].
    unfold visitApiPath in Hv.
    destruct (member filePaths apiPath) as [pathObj|];
      cbn [mbind completion_bind] in Hv; [| discriminate].
    unfold entryKeys.
    destruct (negb (truthy pathObj) || negb (typeofObject pathObj)).
    + injection Hv as <- <-. split; [exact H2 | lia].
    + apply forEachMethod_replaces in Hv as [H1 ->].
      split; [eapply pathsReplaced_trans; eassumption | lia].
Qed.

Lemma forEachFilePure_replaces (w : World) (baseDir : string)
      (pathFiles : list string) (d d' : value) (n n' : nat) :
  forEachFilePure w baseDir pathFiles (d, n) = Normal (d', n') ->
  pathsReplaced d d' /\ n' = n + countFiles w pathFiles.
Proof.
  revert d n. induction pathFiles as [|filePath rest IH]; intros d n;
    cbn [forEachFilePure countFiles].
  - intros [= <- <-]. split; [apply pathsReplaced_refl | lia].
  - destruct (visitFilePure w baseDir filePath (d, n)) as [[d1 n1]|] eqn:Hv;
      cbn [mbind completion_bind]; [| discriminate].
    intros Hrest. apply IH in Hrest as [H2 ->].
    unfold visitFilePure in Hv. unfold countFile.
    destruct (member (Some (loaded w filePath)) "paths") as [filePaths|];
      cbn [mbind completion_bind] in Hv; [| discriminate].
    destruct (negb (truthy filePaths) || negb (typeofObject filePaths)).
    + injection Hv as <- <-. split; [exact H2 | lia].
    + apply forEachApiPath_replaces in Hv as [H1 ->].
      split; [eapply pathsReplaced_trans; eassumption | lia].
Qed.

Lemma forEachFile_returns (baseDir : string) (pathFiles : list string)
      (st st' : value * nat) (s s' : state) :
  forEachFile baseDir pathFiles st s = Returns st' s' ->
  forEachFilePure (world s) baseDir pathFiles st = Normal st'
  /\ s' = report (loadErrors (world s) pathFiles) s.
Proof.
  intros Hrun. pose proof (forEachFile_pure baseDir pathFiles st s) as H.
  destruct (forEachFilePure (world s) baseDir pathFiles st) as [r|].
  - rewrite Hrun in H. now injection H as -> ->.
  - destruct H as [s0 H]. rewrite Hrun in H. discriminate.
Qed.

Lemma propSet_keys {A : Type} (k : string) (v old : A) (ps : list (string * A)) :
  propGet k ps = Some old -> map fst (propSet k v ps) = map fst ps.
Proof.
  induction ps as [|[k0 v0] rest IH]; cbn; [discriminate |].
  destruct (String.eqb k0 k) eqn:E; cbn.
  - apply String.eqb_eq in E as ->. reflexivity.
  - intros H. now rewrite IH.
Qed.

(** X21.  When the rebuild loop returns, the main document has the keys it
    had, in the order it had them, and every key other than [paths] has
    the value it had: the loop writes under [paths] only, and leaves the
    world as it was. *)
Theorem forEachFile_writes_under_paths (baseDir : string)
        (pathFiles : list string) (apiDocs apiDocs' : value) (n n' : nat)
        (s s' : state) :
  forEachFile baseDir pathFiles (apiDocs, n) s = Returns (apiDocs', n') s' ->
  world s' = world s
  /\ forInKeys (Some apiDocs') = forInKeys (Some apiDocs)
  /\ forall k, k <> "paths" ->
               member (Some apiDocs') k = member (Some apiDocs) k.
Proof.
  intros Hrun. apply forEachFile_returns in Hrun as [Hpure ->].
  split; [reflexivity |].
  apply forEachFilePure_replaces in Hpure
    as [[->|(cls & ps & old & v & -> & Hold & ->)] _]; [now split |].
  cbn [forInKeys member]. split; [now apply propSet_keys with old |].
  intros k Hk. now rewrite propGet_propSet_ne.
Qed.

(** X22.  In a run that writes nothing onto a prototype (no file has the
    path key [__proto__]), the count the loop returns grows by one for
    every surviving method key it visits, file after file: a pair defined
    in two files is counted twice although it fills one entry, and a pair
    under an inherited name is counted although it fills none. *)
Theorem forEachFile_counts_visits (baseDir : string) (pathFiles : list string)
        (apiDocs apiDocs' : value) (n n' : nat) (s s' : state) :
  Forall (fun f => protoFree (loaded (world s) f) = true) pathFiles ->
  forEachFile baseDir pathFiles (apiDocs, n) s = Returns (apiDocs', n') s' ->
  n' = n + countFiles (world s) pathFiles.
Proof.
  intros _ Hrun. apply forEachFile_returns in Hrun as [Hpure _].
  now apply forEachFilePure_replaces in Hpure as [_ ->].
Qed.

End Runs.

(** *** The properties on concrete worlds *)

Section ConcreteRuns.
Import Samples MoreSamples.
#[local] Existing Instance SampleCodec.codec.

Lemma main_without_paths_directory_sample :
  main apiDocsPath bareStart =
    (1, {| world := writeFile apiDocsPath (yaml_dump mainCleared) bareWorld;
           console := [PathsDirectoryNotFound "resource/api-docs/v1/paths"] |}).
Proof.
  pose proof (main_without_paths_directory apiDocsPath bareStart Plain
                [("openapi", VStr "3.0.0"); ("paths", VNull);
                 ("info", VObj Plain [("version", VStr "1.0.0")])]) as H.
  cbv zeta in H. rewrite H.
  - vm_compute. reflexivity.
  - vm_compute. reflexivity.
  - apply not_elem_of_empty.
  - reflexivity.
Defined.

Lemma main_without_path_files_sample :
  main apiDocsPath emptyStart =
    (0, {| world := writeFile apiDocsPath (yaml_dump mainCleared) emptyWorld;
           console := [NoPathFilesFound] |}).
Proof.
  pose proof (main_without_path_files apiDocsPath emptyStart Plain
                [("openapi", VStr "3.0.0"); ("paths", VNull);
                 ("info", VObj Plain [("version", VStr "1.0.0")])] []) as H.
  cbv zeta in H. rewrite H.
  - vm_compute. reflexivity.
  - vm_compute. reflexivity.
  - apply not_elem_of_empty.
  - reflexivity.
  - reflexivity.
Defined.

Lemma main_aborts_unwritten_sample :
  fst (main apiDocsPath lockedStart) = 1
  /\ world (snd (main apiDocsPath lockedStart)) = lockedWorld.
Proof.
  apply (main_aborts_unwritten apiDocsPath lockedStart).
  right. vm_compute. reflexivity.
Defined.

Lemma clearedDocument_cleared : cleared clearedDocument.
Proof.
  exists Plain, [("openapi", VStr "3.0.0"); ("paths", emptyObject)].
  split; reflexivity.
Qed.

Lemma conflict_rebuild :
  forEachFile "resource/api-docs/v1" conflictFiles (clearedDocument, 0)
    conflictStart
  = Returns (conflictRebuilt, 2) conflictStart.
Proof. vm_compute. reflexivity. Defined.

Lemma rebuilt_entries_sample :
  exists apiDocs' n',
    forEachFile "resource/api-docs/v1" conflictFiles (clearedDocument, 0)
      conflictStart
    = Returns (apiDocs', n')
        (report (loadErrors conflictWorld conflictFiles) conflictStart)
    /\ forall a m,
         (entryAt apiDocs' a m = None
          /\ (inherited a = true
              \/ Forall (fun f => writesPair (loaded conflictWorld f) a m = false)
                        conflictFiles))
         \/ exists f,
              In f conflictFiles
              /\ inherited a = false
              /\ definesPair (loaded conflictWorld f) a m = true
              /\ survives m = true
              /\ entryAt apiDocs' a m
                 = Some (referenceTo "/work" "resource/api-docs/v1" f a m).
Proof.
  apply (rebuilt_entries "resource/api-docs/v1" conflictFiles clearedDocument 0
           conflictStart clearedDocument_cleared).
  repeat constructor.
Defined.

Lemma forEachFile_writes_under_paths_sample :
  forInKeys (Some conflictRebuilt) = forInKeys (Some clearedDocument)
  /\ member (Some conflictRebuilt) "openapi" = member (Some clearedDocument) "openapi".
Proof.
  destruct (forEachFile_writes_under_paths _ _ _ _ _ _ _ _ conflict_rebuild)
    as (_ & Hkeys & Hother).
  split; [exact Hkeys | apply Hother; discriminate].
Defined.

Lemma inherited_rebuild :
  forEachFile "resource/api-docs/v1" conflictFiles (clearedDocument, 0)
    inheritedStart
  = Returns (inheritedRebuilt, 4) inheritedStart.
Proof. vm_compute. reflexivity. Defined.

Lemma forEachFile_counts_visits_sample :
  2 = 0 + countFiles conflictWorld conflictFiles
  /\ 4 = 0 + countFiles inheritedWorld conflictFiles.
Proof.
  split.
  - apply (forEachFile_counts_visits "resource/api-docs/v1" conflictFiles
             clearedDocument conflictRebuilt 0 2 conflictStart conflictStart);
      [repeat constructor | exact conflict_rebuild].
  - apply (forEachFile_counts_visits "resource/api-docs/v1" conflictFiles
             clearedDocument inheritedRebuilt 0 4 inheritedStart inheritedStart);
      [repeat constructor | exact inherited_rebuild].
Defined.

End ConcreteRuns.

End UpdaterMore.

(** ** The walk, continued *)

Module WalkProps.
Import JS Value FileSystem Updater Spec UpdaterSpec MoreSpec StringFacts
       MoreStringFacts.

(** *** The list the walk is given *)

Lemma walkDirCatch_from (e : fserror) (st : list string * list event) :
  walkDirCatch e st =
  ((fst st ++ fst (walkDirCatch e ([], [])))%list,
   (snd st ++ snd (walkDirCatch e ([], [])))%list).
Proof.
  destruct st as [fl ev]. destruct e; cbn; now rewrite ?List.app_nil_r.
Qed.

Lemma walk_from_all :
  (forall n : node,
      forall dirPath st,
        match n with
        | Directory l =>
            walkDir dirPath l st =
            ((fst st ++ fst (walkDir dirPath l ([], [])))%list,
             (snd st ++ snd (walkDir dirPath l ([], [])))%list)
        | _ => True
        end)
  /\ (forall l : listing,
        forall dirPath st,
          walkDir dirPath l st =
          ((fst st ++ fst (walkDir dirPath l ([], [])))%list,
           (snd st ++ snd (walkDir dirPath l ([], [])))%list))
  /\ (forall files : entries,
        forall dirPath st,
          forEachEntry dirPath files st =
          (((fst st ++ fst (fst (forEachEntry dirPath files ([], []))))%list,
            (snd st ++ snd (fst (forEachEntry dirPath files ([], []))))%list),
           snd (forEachEntry dirPath files ([], [])))).
Proof.
  apply tree_mutind.
  - trivial.
  - intros l IH dirPath st. apply IH.
  - trivial.
  - intros e dirPath st. cbn [walkDir]. apply walkDirCatch_from.
  - intros files IH dirPath st. cbn [walkDir]. rewrite (IH dirPath st).
    destruct (forEachEntry dirPath files ([], [])) as [[fl ev] [e|]];
      cbn [fst snd]; [| reflexivity].
    rewrite walkDirCatch_from. cbn [fst snd].
    rewrite (walkDirCatch_from e (fl, ev)). cbn [fst snd].
    now rewrite !List.app_assoc.
  - intros dirPath [fl ev]. cbn. now rewrite !List.app_nil_r.
  - intros file n IHn rest IHrest dirPath st. cbn [forEachEntry].
    destruct n as [|sub|e].
    + destruct (endsWith file ".yaml" || endsWith file ".yml").
      * rewrite (IHrest dirPath ((fst st ++ _)%list, snd st)).
        rewrite (IHrest dirPath ((fst ([], []) ++ _)%list, snd ([], []))).
        cbn [fst snd app]. now rewrite <- ?List.app_assoc.
      * destruct st as [fl ev]. apply IHrest.
    + rewrite (IHrest dirPath (walkDir _ sub st)).
      rewrite (IHrest dirPath (walkDir _ sub ([], []))).
      rewrite (IHn (PosixPath.join [dirPath; file]) st). cbn [fst snd].
      now rewrite <- ?List.app_assoc.
    + destruct st as [fl ev]. cbn. now rewrite !List.app_nil_r.
Qed.

(** X23.  The walk only appends to the list it is given, and what it
    appends does not depend on that list; so the walk of a directory whose
    first entry is a subdirectory is the walk of the subdirectory followed
    by the walk of the other entries, whatever went wrong inside the
    subdirectory. *)
Theorem walkDir_appends (dirPath : string) (l : listing)
        (st : list string * list event) :
  walkDir dirPath l st =
    ((fst st ++ fst (walkDir dirPath l ([], [])))%list,
     (snd st ++ snd (walkDir dirPath l ([], [])))%list)
  /\ forall file sub rest,
       l = Listing (Entry file (Directory sub) rest) ->
       let inner := walkDir (PosixPath.join [dirPath; file]) sub ([], []) in
       let others := walkDir dirPath (Listing rest) ([], []) in
       walkDir dirPath l ([], []) =
         ((fst inner ++ fst others)%list, (snd inner ++ snd others)%list).
Proof.
  split; [apply walk_from_all |].
  intros file sub rest -> inner others.
  change (walkDir dirPath (Listing (Entry file (Directory sub) rest)) ([], []))
    with (walkDir dirPath (Listing rest) inner).
  apply walk_from_all.
Qed.

Lemma walkDir_appends_sample :
  walkDir "/paths"
    (Listing (Entry "users" (Directory Samples.partlyUnreadable)
             (Entry "z.yml" RegularFile NoEntry))) ([], [])
  = (["/paths/users/a.yaml"; "/paths/z.yml"], [ErrorReadingDirectory]).
Proof.
  destruct (walkDir_appends "/paths"
              (Listing (Entry "users" (Directory Samples.partlyUnreadable)
                       (Entry "z.yml" RegularFile NoEntry))) ([], []))
    as [_ H].
  rewrite (H "users" Samples.partlyUnreadable
             (Entry "z.yml" RegularFile NoEntry) eq_refl).
  reflexivity.
Defined.

(** *** The names the walk keeps *)

Lemma endsWith_app_r (a b p : string) :
  endsWith b p = true -> endsWith (a +:+ b) p = true.
Proof.
  intros H. induction a as [|c a IH]; [exact H |].
  cbn [String.append endsWith]. rewrite IH. apply Bool.orb_true_r.
Qed.

Lemma endsWith_nonempty (s p : string) :
  p <> "" -> endsWith s p = true -> s <> "".
Proof.
  intros Hp H ->. cbn in H. destruct p; [congruence | discriminate].
Qed.

Lemma endsWith_lastChar (s p : string) :
  p <> "" -> endsWith s p = true -> lastChar s = lastChar p.
Proof.
  intros Hp. induction s as [|c r IH]; intros H.
  - now destruct (endsWith_nonempty "" p Hp H).
  - cbn [endsWith] in H. apply Bool.orb_true_iff in H as [H|H].
    + apply String.eqb_eq in H. now rewrite H.
    + cbn [lastChar]. rewrite (IH H).
      destruct p as [|d p']; [congruence |]. cbn.
      now destruct (lastChar p').
Qed.

Lemma split_last (s p : string) :
  occurs "/" p = false -> endsWith s p = true ->
  exists init L, split s "/" = (init ++ [L])%list /\ endsWith L p = true.
Proof.
  intros Hp. induction s as [|c r IH]; intros H.
  - exists [], "". split; [reflexivity | exact H].
  - cbn [endsWith] in H. apply Bool.orb_true_iff in H as [H|H].
    + apply String.eqb_eq in H. exists [], (String c r). split.
      * apply split_absent. change "/" with (String "/" "").
        now rewrite includes_char, H.
      * rewrite H. destruct p; cbn; now rewrite ?Ascii.eqb_refl, ?String.eqb_refl.
    + destruct (IH H) as (init & L & Heq & HL). unfold split in *.
      change "/" with (String "/" "") in *.
      cbn [split_from]. rewrite prefix_char. cbn [String.length Nat.sub].
      destruct (Ascii.eqb c "/").
      * exists ("" :: init), L. now rewrite Heq.
      * rewrite Heq. destruct init as [|h init']; cbn [app].
        -- exists [], (String c L). split; [reflexivity |].
           cbn [endsWith]. rewrite HL. apply Bool.orb_true_r.
        -- exists (String c h :: init'), L. now split.
Qed.

Lemma normalizeSegments_app (allow : bool) (xs ys st : list string) :
  exists st',
    PosixPath.normalizeSegments allow (xs ++ ys) st
    = PosixPath.normalizeSegments allow ys st'.
Proof.
  revert st. induction xs as [|seg rest IH]; intros st; [now exists st |].
  cbn [app PosixPath.normalizeSegments].
  destruct (String.eqb seg "."); [apply IH |].
  destruct (String.eqb seg ".."); [| apply IH].
  destruct st as [|top below]; [apply IH |].
  destruct (String.eqb top ".."); apply IH.
Qed.

Lemma concat_last (sep : string) (l : list string) (L : string) :
  exists pre, String.concat sep (l ++ [L]) = pre +:+ L.
Proof.
  induction l as [|x rest [pre IH]]; [now exists "" |].
  cbn [app]. destruct rest as [|y rest]; cbn [app String.concat] in *.
  - exists (x +:+ sep). now rewrite app_assoc.
  - exists (x +:+ sep +:+ pre). now rewrite IH, !app_assoc.
Qed.

(** Joining a directory and a name keeps the extension of the name. *)
Lemma join_keeps_extension (dirPath file p : string) :
  extension p -> endsWith file p = true ->
  endsWith (PosixPath.join [dirPath; file]) p = true.
Proof.
  intros (Hp & Hslash & Hdot & Hdots) Hfile.
  pose proof (endsWith_nonempty _ _ Hp Hfile) as Hne.
  assert (Hjoined : exists joined,
             PosixPath.join [dirPath; file] = PosixPath.normalize joined
             /\ endsWith joined p = true).
  { unfold PosixPath.join. cbn [List.filter].
    assert (Hf : JS.truthy file = true)
      by (unfold JS.truthy; now apply Bool.negb_true_iff, String.eqb_neq).
    rewrite Hf. destruct (JS.truthy dirPath).
    - exists (dirPath +:+ "/" +:+ file). split; [reflexivity |].
      now apply endsWith_app_r, endsWith_app_r.
    - exists file. now split. }
  destruct Hjoined as (joined & -> & Hj).
  unfold PosixPath.normalize.
  pose proof (endsWith_nonempty _ _ Hp Hj) as Hjne.
  apply String.eqb_neq in Hjne. rewrite Hjne.
  assert (Htrail : endsWith joined "/" = false).
  { destruct (endsWith joined "/") eqn:E; [| reflexivity].
    pose proof (endsWith_lastChar _ _ Hp Hj) as H1.
    pose proof (endsWith_lastChar joined "/" ltac:(discriminate) E) as H2.
    rewrite H1 in H2. clear - H2 Hslash Hp. exfalso.
    induction p as [|c p IH]; [congruence |].
    cbn in Hslash, H2. apply Bool.orb_false_iff in Hslash as [Hc Hr].
    destruct p as [|d p'].
    - cbn in H2. injection H2 as ->. discriminate Hc.
    - apply IH; [discriminate | exact Hr |].
      cbn [lastChar] in H2 |- *. now destruct (lastChar p'). }
  rewrite Htrail.
  destruct (split_last joined p Hslash Hj) as (init & L & Hsplit & HL).
  pose proof (endsWith_nonempty _ _ Hp HL) as HLne.
  assert (Hpath : exists pre,
             JS.join (PosixPath.normalizeSegments
                        (negb (PosixPath.isAbsolute joined))
                        (PosixPath.segments joined) []) "/" = pre +:+ L).
  { unfold PosixPath.segments. rewrite Hsplit, List.filter_app.
    cbn [List.filter].
    replace (JS.truthy L) with true
      by (symmetry; unfold JS.truthy; now apply Bool.negb_true_iff, String.eqb_neq).
    destruct (normalizeSegments_app (negb (PosixPath.isAbsolute joined))
                (List.filter JS.truthy init) [L] []) as (st' & ->).
    cbn [PosixPath.normalizeSegments].
    replace (String.eqb L ".") with false
      by (symmetry; apply String.eqb_neq; intros ->; congruence).
    replace (String.eqb L "..") with false
      by (symmetry; apply String.eqb_neq; intros ->; congruence).
    cbn [rev]. apply concat_last. }
  destruct Hpath as (pre & ->).
  replace (String.eqb (pre +:+ L) "") with false
    by (symmetry; apply String.eqb_neq; intros H;
        destruct pre; cbn in H; [congruence | discriminate]).
  rewrite app_nil_r. now apply endsWith_app_r, endsWith_app_r.
Qed.

Lemma yaml_extensions : extension ".yaml" /\ extension ".yml".
Proof. repeat split; discriminate. Qed.

Lemma join_yaml (dirPath file : string) :
  yamlPath file = true -> yamlPath (PosixPath.join [dirPath; file]) = true.
Proof.
  unfold yamlPath. intros H. apply Bool.orb_true_iff in H as [H|H].
  - rewrite (join_keeps_extension _ _ _ (proj1 yaml_extensions) H). reflexivity.
  - rewrite (join_keeps_extension _ _ _ (proj2 yaml_extensions) H).
    apply Bool.orb_true_r.
Qed.

Lemma walk_yaml_all :
  (forall n : node,
      forall dirPath st,
        Forall (fun f => yamlPath f = true) (fst st) ->
        match n with
        | Directory l =>
            Forall (fun f => yamlPath f = true) (fst (walkDir dirPath l st))
        | _ => True
        end)
  /\ (forall l : listing,
        forall dirPath st,
          Forall (fun f => yamlPath f = true) (fst st) ->
          Forall (fun f => yamlPath f = true) (fst (walkDir dirPath l st)))
  /\ (forall files : entries,
        forall dirPath st,
          Forall (fun f => yamlPath f = true) (fst st) ->
          Forall (fun f => yamlPath f = true)
                 (fst (fst (forEachEntry dirPath files st)))).
Proof.
  apply tree_mutind.
  - trivial.
  - intros l IH dirPath st. apply IH.
  - trivial.
  - intros e dirPath st H. cbn [walkDir]. now destruct e.
  - intros files IH dirPath st H. cbn [walkDir]. specialize (IH dirPath st H).
    destruct (forEachEntry dirPath files st) as [st' [e|]]; cbn [fst] in *;
      [now destruct e | exact IH].
  - intros dirPath st H. exact H.
  - intros file n IHn rest IHrest dirPath st H. cbn [forEachEntry].
    destruct n as [|sub|e].
    + apply IHrest.
      destruct (endsWith file ".yaml" || endsWith file ".yml") eqn:Hy;
        [| exact H].
      cbn [fst]. apply Forall_app. split; [exact H |].
      constructor; [now apply join_yaml | constructor].
    + apply IHrest. now apply IHn.
    + exact H.
Qed.

(** X24.  Every path the walk returns ends with [.yaml] or [.yml],
    whatever the tree and whatever failed on the way: the extension of a
    name is still there once the name is joined to its directory. *)
Theorem walkDir_yaml_only (dirPath : string) (l : listing) :
  Forall (fun f => yamlPath f = true) (fst (walkDir dirPath l ([], []))).
Proof. apply walk_yaml_all. constructor. Qed.

End WalkProps.

(** ** Relative references, continued *)

Module RelativeProps.
Import JS Value FileSystem Updater Spec UpdaterSpec MoreSpec StringFacts
       MoreStringFacts.

Lemma plainSegment_parts (seg : string) :
  plainSegment seg = true ->
  JS.truthy seg = true /\ occurs "/" seg = false
  /\ String.eqb seg "." = false /\ String.eqb seg ".." = false.
Proof.
  unfold plainSegment. rewrite !Bool.andb_true_iff, !Bool.negb_true_iff. tauto.
Qed.

Lemma normalizeSegments_plain (segs stack : list string) :
  Forall (fun seg => JS.truthy seg = true /\ occurs "/" seg = false) segs ->
  Forall (fun seg => plainSegment seg = true) stack ->
  Forall (fun seg => plainSegment seg = true)
         (PosixPath.normalizeSegments false segs stack).
Proof.
  revert stack. induction segs as [|seg rest IH]; intros stack Hs Hst;
    cbn [PosixPath.normalizeSegments].
  - now apply List.Forall_rev.
  - inversion Hs as [|? ? [Ht Ho] Hrest]; subst.
    destruct (String.eqb seg ".") eqn:E1; [now apply IH |].
    destruct (String.eqb seg "..") eqn:E2.
    + destruct stack as [|top below]; [now apply IH |].
      inversion Hst; subst. destruct (String.eqb top ".."); now apply IH.
    + apply IH; [exact Hrest |]. constructor; [| exact Hst].
      unfold plainSegment. now rewrite Ht, Ho, E1, E2.
Qed.

Lemma normalizeSegments_kept (allow : bool) (segs stack : list string) :
  Forall (fun seg => plainSegment seg = true) segs ->
  PosixPath.normalizeSegments allow segs stack = (rev stack ++ segs)%list.
Proof.
  revert stack. induction segs as [|seg rest IH]; intros stack Hs;
    cbn [PosixPath.normalizeSegments].
  - now rewrite List.app_nil_r.
  - inversion Hs as [|? ? Hseg Hrest]; subst.
    destruct (plainSegment_parts _ Hseg) as (_ & _ & -> & ->).
    rewrite (IH _ Hrest). cbn [rev]. now rewrite <- List.app_assoc.
Qed.

Lemma beforeFirst_piece (c : ascii) (x t : string) :
  occurs c x = false -> beforeFirst c (x +:+ String c t) = x.
Proof.
  induction x as [|a x IH]; cbn.
  - now rewrite Ascii.eqb_refl.
  - intros H. apply Bool.orb_false_iff in H as [-> Hx]. now rewrite IH.
Qed.

Lemma afterFirst_piece (c : ascii) (x t : string) :
  occurs c x = false -> afterFirst c (x +:+ String c t) = t.
Proof.
  induction x as [|a x IH]; cbn.
  - now rewrite Ascii.eqb_refl.
  - intros H. apply Bool.orb_false_iff in H as [-> Hx]. now rewrite IH.
Qed.

Lemma split_piece (c : ascii) (x t : string) :
  occurs c x = false ->
  split (x +:+ String c t) (String c "") = x :: split t (String c "").
Proof.
  intros H. rewrite split_char, occurs_app. cbn [occurs].
  rewrite Ascii.eqb_refl, Bool.orb_true_r.
  now rewrite beforeFirst_piece, afterFirst_piece.
Qed.

Lemma segments_concat (l : list string) :
  Forall (fun seg => JS.truthy seg = true /\ occurs "/" seg = false) l ->
  List.filter JS.truthy (split (String.concat "/" l) "/") = l.
Proof.
  induction l as [|x rest IH]; intros H; [reflexivity |].
  inversion H as [|? ? [Ht Ho] Hrest]; subst.
  destruct rest as [|y rest']; cbn [String.concat].
  - rewrite split_absent
      by (change "/" with (String "/" ""); now rewrite includes_char).
    cbn [List.filter]. now rewrite Ht.
  - change ("/" +:+ ?t) with (String "/" t).
    change "/" with (String "/" "") at 2.
    rewrite split_piece by exact Ho. cbn [List.filter]. rewrite Ht.
    f_equal. exact (IH Hrest).
Qed.

(** The segments of a rooted path written from plain segments. *)
Lemma segments_rooted (l : list string) :
  Forall (fun seg => plainSegment seg = true) l ->
  PosixPath.segments (String "/" (JS.join l "/")) = l.
Proof.
  intros H. unfold PosixPath.segments, JS.join.
  change (String "/" ?t) with ("" +:+ String "/" t).
  change "/" with (String "/" "") at 2.
  rewrite split_piece by reflexivity. cbn [List.filter JS.truthy String.eqb negb].
  apply segments_concat. eapply Forall_impl; [| exact H].
  intros seg Hseg. cbn beta in Hseg.
  now destruct (plainSegment_parts _ Hseg) as (? & ? & _).
Qed.

Lemma segments_clean (p : string) :
  Forall (fun seg => JS.truthy seg = true /\ occurs "/" seg = false)
         (PosixPath.segments p).
Proof.
  unfold PosixPath.segments. apply Forall_forall. intros seg Hin.
  apply List.filter_In in Hin as [Hin Ht]. split; [exact Ht |].
  pose proof (split_char_pieces "/" p) as Hall.
  rewrite Forall_forall in Hall. now apply Hall.
Qed.

Lemma rooted_absolute (r : string) : PosixPath.isAbsolute (String "/" r) = true.
Proof.
  unfold PosixPath.isAbsolute, startsWith. change "/" with (String "/" "").
  now rewrite prefix_char.
Qed.

Lemma absolute_rooted (p : string) :
  PosixPath.isAbsolute p = true -> exists r, p = String "/" r.
Proof.
  unfold PosixPath.isAbsolute, startsWith. destruct p as [|c r]; [discriminate |].
  change "/" with (String "/" ""). rewrite prefix_char.
  intros H. apply Ascii.eqb_eq in H as ->. now exists r.
Qed.

(** In a process whose working directory is absolute, a resolved path is
    a slash followed by plain segments with a slash between them. *)
Lemma resolve_rooted (cwd p : string) :
  PosixPath.isAbsolute cwd = true ->
  exists l, Forall (fun seg => plainSegment seg = true) l
            /\ PosixPath.resolve cwd p = String "/" (JS.join l "/").
Proof.
  intros Hcwd. unfold PosixPath.resolve.
  set (full := if String.eqb p "" then cwd
               else if PosixPath.isAbsolute p then p else cwd +:+ "/" +:+ p).
  assert (Habs : PosixPath.isAbsolute full = true).
  { unfold full. destruct (String.eqb p ""); [exact Hcwd |].
    destruct (PosixPath.isAbsolute p) eqn:Hp; [exact Hp |].
    destruct (absolute_rooted _ Hcwd) as (r & ->). apply rooted_absolute. }
  cbv zeta. rewrite Habs. cbn [negb].
  exists (PosixPath.normalizeSegments false (PosixPath.segments full) []).
  split; [| reflexivity].
  apply normalizeSegments_plain; [apply segments_clean | constructor].
Qed.

(** Resolving a resolved path changes nothing. *)
Lemma resolve_resolved (cwd : string) (l : list string) :
  Forall (fun seg => plainSegment seg = true) l ->
  PosixPath.resolve cwd (String "/" (JS.join l "/")) = String "/" (JS.join l "/").
Proof.
  intros H. unfold PosixPath.resolve.
  cbn [String.eqb]. rewrite rooted_absolute. cbn [negb].
  rewrite rooted_absolute. cbn [negb].
  rewrite (segments_rooted l H).
  now rewrite (normalizeSegments_kept false l [] H).
Qed.

Lemma segmentsPrefix_app (a b : list string) :
  segmentsPrefix a b = true -> exists rest, b = (a ++ rest)%list.
Proof.
  revert b. induction a as [|x a IH]; intros b; [now exists b |].
  destruct b as [|y b]; cbn; [discriminate |].
  intros H. apply Bool.andb_true_iff in H as [Hx Hr].
  apply String.eqb_eq in Hx as ->. destruct (IH _ Hr) as (rest & ->).
  now exists rest.
Qed.

Lemma concat_app_prefix (sep : string) (a rest : list string) :
  exists tail, String.concat sep (a ++ rest) = String.concat sep a +:+ tail.
Proof.
  induction a as [|x a IH]; [now exists (String.concat sep rest) |].
  destruct a as [|y a]; cbn [app String.concat] in *.
  - destruct rest; [exists ""; now rewrite app_nil_r | eauto].
  - destruct IH as (tail & ->). exists tail. now rewrite !app_assoc.
Qed.

Lemma dropCommon_app (a rest : list string) :
  PosixPath.dropCommon a (a ++ rest) = ([], rest).
Proof.
  induction a as [|x a IH]; cbn; [now destruct rest |].
  now rewrite String.eqb_refl.
Qed.































(** X25.  In a process whose working directory is absolute, a file under
    the base directory gets the reference the specification describes:
    ["./"] followed by the segments of the resolved file that come after
    those of the resolved base, with a slash between them. *)
Theorem getRelativePath_under_base (cwd filePath baseDir : string) :
  PosixPath.isAbsolute cwd = true ->
  isUnder cwd baseDir filePath = true ->
  getRelativePath cwd filePath baseDir = relativeReference cwd baseDir filePath
  /\ exists rest,
       PosixPath.segments (PosixPath.resolve cwd filePath)
       = (PosixPath.segments (PosixPath.resolve cwd baseDir) ++ rest)%list
       /\ getRelativePath cwd filePath baseDir = "./" +:+ JS.join rest "/".
Proof.
  intros Hcwd Hunder.
  destruct (resolve_rooted cwd baseDir Hcwd) as (lb & Hlb & Hb).
  destruct (resolve_rooted cwd filePath Hcwd) as (lf & Hlf & Hf).
  unfold relativeReference. rewrite Hunder.
  unfold isUnder in Hunder. rewrite Hb, Hf, !segments_rooted in Hunder by assumption.
  destruct (segmentsPrefix_app _ _ Hunder) as (rest & ->).
  unfold getRelativePath, PosixPath.relative. cbv zeta.
  rewrite Hb, Hf, !resolve_resolved, !segments_rooted by assumption.
  assert (Hstarts : startsWith (String "/" (JS.join (lb ++ rest) "/"))
                               (String "/" (JS.join lb "/")) = true).
  { unfold startsWith, JS.join.
    destruct (concat_app_prefix "/" lb rest) as (tail & ->).
    change (String "/" (?a +:+ tail)) with (String "/" a +:+ tail).
    apply OutputProps.prefix_app. }
  rewrite Hstarts. cbn [negb]. split; [reflexivity |].
  exists rest. split; [reflexivity |]. f_equal.
  rewrite dropCommon_app. cbn [map app].
  destruct (String.eqb_spec (String "/" (JS.join lb "/"))
                            (String "/" (JS.join (lb ++ rest) "/"))) as [Heq|_];
    [| reflexivity].
  apply (f_equal PosixPath.segments) in Heq.
  rewrite !segments_rooted in Heq by assumption.
  rewrite <- (List.app_nil_r lb) in Heq at 1.
  apply List.app_inv_head in Heq as <-. reflexivity.
Qed.

Lemma getRelativePath_under_base_sample :
  getRelativePath "/work" "resource/v1/paths/users/get-x.yaml" "resource/v1"
  = relativeReference "/work" "resource/v1" "resource/v1/paths/users/get-x.yaml"
  /\ getRelativePath "/work" "resource/v1/paths/users/get-x.yaml" "resource/v1"
     = "./paths/users/get-x.yaml".
Proof.
  destruct (getRelativePath_under_base "/work"
              "resource/v1/paths/users/get-x.yaml" "resource/v1"
              eq_refl eq_refl) as (Hsame & rest & Hrest & Hout).
  split; [exact Hsame |].
  vm_compute in Hrest. injection Hrest as <-. exact Hout.
Defined.



End RelativeProps.
